(** * A shallow embedding of the translation core of [server.py]

    The proxy translates chat requests between two wire formats.  This
    development embeds the pure core of [server.py] (model resolution,
    schema sanitisation, request and response translation, the streaming
    reassembler and the quota classifier) and states its properties.

    Conventions.
    - A Python [str] is a Rocq [string]; one [ascii] stands for one code
      point below 256, so [len] is [String.length].
    - Python values live in one universe [pyval]; a [dict] is an
      association list in insertion order, an object is its attribute list.
    - A Python exception is a value of [exn]; code that may raise returns
      [res A]. *)

From Stdlib Require Import String Ascii List ZArith Lia Bool Arith DecimalString.
Import ListNotations.
Open Scope list_scope.
Open Scope string_scope.

(** ** Python strings *)

Module PyStr.

(** [s.startswith(p)] *)
Fixpoint startswith (p s : string) {struct s} : bool :=
  match p, s with
  | EmptyString, _ => true
  | String _ _, EmptyString => false
  | String a p', String b s' =>
      if Ascii.eqb a b then startswith p' s' else false
  end.

(** [s[n:]] *)
Fixpoint drop (n : nat) (s : string) : string :=
  match n with
  | O => s
  | S n' => match s with
            | EmptyString => EmptyString
            | String _ s' => drop n' s'
            end
  end.

(** [s[:n]] *)
Fixpoint take (n : nat) (s : string) : string :=
  match n with
  | O => EmptyString
  | S n' => match s with
            | EmptyString => EmptyString
            | String a s' => String a (take n' s')
            end
  end.

(** [t in s] for strings: [t] occurs in [s] as a contiguous run. *)
Fixpoint contains (t s : string) : bool :=
  startswith t s ||
  match s with
  | EmptyString => false
  | String _ s' => contains t s'
  end.

(** [c.lower()] on code points below 256: the ASCII capitals and the
    Latin-1 capitals 0xC0..0xDE other than the multiplication sign. *)
Definition lower_ascii (c : ascii) : ascii :=
  let n := nat_of_ascii c in
  if (((65 <=? n) && (n <=? 90)) ||
      ((192 <=? n) && (n <=? 222) && negb (n =? 215)))%nat
  then ascii_of_nat (n + 32) else c.

(** [s.lower()] *)
Fixpoint lower (s : string) : string :=
  match s with
  | EmptyString => EmptyString
  | String c s' => String (lower_ascii c) (lower s')
  end.

(** [c.isspace()] on code points below 256. *)
Definition isspace (c : ascii) : bool :=
  let n := nat_of_ascii c in
  (((9 <=? n) && (n <=? 13)) || ((28 <=? n) && (n <=? 32)) ||
   (n =? 133) || (n =? 160))%nat.

Fixpoint lstrip (s : string) : string :=
  match s with
  | EmptyString => EmptyString
  | String c s' => if isspace c then lstrip s' else s
  end.

(** [rstrip] as one right-to-left pass: a character is dropped when it is
    white and everything after it has been dropped. *)
Fixpoint rstrip (s : string) : string :=
  match s with
  | EmptyString => EmptyString
  | String c s' =>
      match rstrip s' with
      | EmptyString => if isspace c then EmptyString else String c EmptyString
      | r => String c r
      end
  end.

(** [s.strip()] *)
Definition strip (s : string) : string := rstrip (lstrip s).

(** [s.endswith(c)] for a one-character [c]. *)
Fixpoint endswith_char (c : ascii) (s : string) : bool :=
  match s with
  | EmptyString => false
  | String a EmptyString => Ascii.eqb a c
  | String _ s' => endswith_char c s'
  end.

(** [s.count(c)] for a one-character [c]. *)
Fixpoint count (c : ascii) (s : string) : nat :=
  match s with
  | EmptyString => 0
  | String a s' => (if Ascii.eqb a c then 1 else 0) + count c s'
  end.

(** [x in l] for a list of strings. *)
Definition mem (x : string) (l : list string) : bool :=
  existsb (String.eqb x) l.

(** [sep.join(parts)] *)
Fixpoint join (sep : string) (parts : list string) : string :=
  match parts with
  | [] => EmptyString
  | [p] => p
  | p :: rest => p ++ sep ++ join sep rest
  end.

Lemma startswith_nil (s : string) : startswith "" s = true.
Proof. now destruct s. Qed.

Lemma startswith_app (p r : string) : startswith p (p ++ r) = true.
Proof.
  induction p as [|a p IH]; simpl; [apply startswith_nil|].
  now rewrite Ascii.eqb_refl.
Qed.

Lemma drop_app (p r : string) : drop (String.length p) (p ++ r) = r.
Proof. induction p as [|a p IH]; simpl; auto. Qed.

Lemma startswith_split (p s : string) :
  startswith p s = true -> s = p ++ drop (String.length p) s.
Proof.
  revert s; induction p as [|a p IH]; intros s H; [reflexivity|].
  destruct s as [|b s]; [discriminate|]. simpl in *.
  destruct (Ascii.eqb a b) eqn:E; [|discriminate].
  apply Ascii.eqb_eq in E; subst b. f_equal. now apply IH.
Qed.

Lemma lower_app (s t : string) : lower (s ++ t) = lower s ++ lower t.
Proof. induction s as [|c s IH]; simpl; [reflexivity|]. now rewrite IH. Qed.

Lemma mem_In (x : string) (l : list string) : mem x l = true <-> In x l.
Proof.
  unfold mem. rewrite existsb_exists. split.
  - intros [y [Hy E]]. apply String.eqb_eq in E. now subst.
  - intros H. exists x. split; [assumption|apply String.eqb_refl].
Qed.

Lemma take_all (s : string) : take (String.length s) s = s.
Proof. induction s as [|c s IH]; simpl; [reflexivity|now rewrite IH]. Qed.

Lemma drop_all (s : string) : drop (String.length s) s = "".
Proof. induction s as [|c s IH]; simpl; auto. Qed.

Lemma length_append (s t : string) :
  String.length (s ++ t) = String.length s + String.length t.
Proof. induction s as [|c s IH]; simpl; [reflexivity|now rewrite IH]. Qed.

Lemma append_assoc (s t u : string) : (s ++ t) ++ u = s ++ (t ++ u).
Proof. induction s as [|c s IH]; simpl; [reflexivity|now rewrite IH]. Qed.

Lemma append_empty_r (s : string) : s ++ "" = s.
Proof. induction s as [|c s IH]; simpl; [reflexivity|now rewrite IH]. Qed.

(** Stripping keeps a leading character that is not white. *)
Lemma rstrip_cons (c : ascii) (s : string) :
  isspace c = false -> exists r, rstrip (String c s) = String c r.
Proof.
  intros H. simpl. destruct (rstrip s); [rewrite H|]; eauto.
Qed.

Lemma strip_cons (c : ascii) (s : string) :
  isspace c = false -> exists r, strip (String c s) = String c r.
Proof.
  intros H. unfold strip. simpl lstrip. rewrite H. now apply rstrip_cons.
Qed.

(** Stripping removes white characters only. *)
Lemma count_lstrip (c : ascii) (s : string) :
  isspace c = false -> count c (lstrip s) = count c s.
Proof.
  intros H. induction s as [|a s IH]; [reflexivity|]. simpl.
  destruct (isspace a) eqn:A; [|reflexivity].
  rewrite IH. destruct (Ascii.eqb a c) eqn:E; [|reflexivity].
  apply Ascii.eqb_eq in E. congruence.
Qed.

Lemma count_rstrip (c : ascii) (s : string) :
  isspace c = false -> count c (rstrip s) = count c s.
Proof.
  intros H. induction s as [|a s IH]; [reflexivity|]. simpl.
  destruct (rstrip s) as [|b r] eqn:R.
  - simpl in IH. rewrite <- IH. destruct (isspace a) eqn:A; simpl.
    + destruct (Ascii.eqb a c) eqn:E; [|reflexivity].
      apply Ascii.eqb_eq in E. congruence.
    + now rewrite Nat.add_0_r.
  - rewrite <- IH. reflexivity.
Qed.

Lemma count_strip (c : ascii) (s : string) :
  isspace c = false -> count c (strip s) = count c s.
Proof.
  intros H. unfold strip. now rewrite count_rstrip, count_lstrip.
Qed.

End PyStr.

(** ** Model Resolver: [ModelManager] *)

Module ModelManager.
Import PyStr.

Section WithConfig.

(** [config.big_model] and [config.small_model] *)
Variables big_model small_model : string.

Definition base_gemini_models : list string :=
  [ "gemini-1.5-pro-latest";
    "gemini-1.5-pro-preview-0514";
    "gemini-1.5-flash-latest";
    "gemini-1.5-flash-preview-0514";
    "gemini-pro";
    "gemini-2.5-pro-preview-05-06";
    "gemini-2.5-flash-preview-04-17";
    "gemini-2.0-flash-exp";
    "gemini-exp-1206" ].

(** One turn of the loop of [_add_env_models]. *)
Definition add_env_model (models : list string) (model : string) : list string :=
  if startswith "gemini" model && negb (mem model models)
  then models ++ [model] else models.

Definition _add_env_models (models : list string) : list string :=
  fold_left add_env_model [big_model; small_model] models.

(** [self._gemini_models] after [__init__] *)
Definition _gemini_models : list string := _add_env_models base_gemini_models.

Definition _clean_model_name (model : string) : string :=
  if startswith "gemini/" model then drop 7 model
  else if startswith "anthropic/" model then drop 10 model
  else if startswith "openai/" model then drop 7 model
  else model.

Definition _map_model_alias (clean_model : string) : string :=
  let model_lower := lower clean_model in
  if contains "haiku" model_lower then small_model
  else if contains "sonnet" model_lower || contains "opus" model_lower
  then big_model
  else clean_model.

Definition validate_and_map_model (original_model : string) : string * bool :=
  let clean_model := _clean_model_name original_model in
  let mapped_model := _map_model_alias clean_model in
  if negb (String.eqb mapped_model clean_model)
  then ("gemini/" ++ mapped_model, true)
  else if mem clean_model _gemini_models
  then ("gemini/" ++ clean_model, true)
  else if negb (startswith "gemini/" original_model)
  then ("gemini/" ++ original_model, false)
  else (original_model, false).

(** [has_alias s]: [s] contains one of the alias words, ignoring case. *)
Definition has_alias (s : string) : bool :=
  contains "haiku" (lower s) || contains "sonnet" (lower s) ||
  contains "opus" (lower s).

Lemma clean_gemini (r : string) : _clean_model_name ("gemini/" ++ r) = r.
Proof.
  unfold _clean_model_name. now rewrite (startswith_app "gemini/" r).
Qed.

Lemma clean_cases (x : string) :
  x = "gemini/" ++ _clean_model_name x \/
  x = "anthropic/" ++ _clean_model_name x \/
  x = "openai/" ++ _clean_model_name x \/
  (x = _clean_model_name x /\ startswith "gemini/" x = false).
Proof.
  unfold _clean_model_name.
  destruct (startswith "gemini/" x) eqn:G.
  { left. exact (startswith_split "gemini/" x G). }
  destruct (startswith "anthropic/" x) eqn:A.
  { right; left. exact (startswith_split "anthropic/" x A). }
  destruct (startswith "openai/" x) eqn:O.
  { right; right; left. exact (startswith_split "openai/" x O). }
  right; right; right. now split.
Qed.

Lemma alias_no_alias (s : string) :
  has_alias s = false -> _map_model_alias s = s.
Proof.
  unfold has_alias, _map_model_alias. intros H.
  apply orb_false_elim in H as [H Ho].
  apply orb_false_elim in H as [Hh Hs].
  now rewrite Hh, Hs, Ho.
Qed.

Lemma alias_with_alias (s : string) :
  has_alias s = true ->
  _map_model_alias s = small_model \/ _map_model_alias s = big_model.
Proof.
  unfold has_alias, _map_model_alias. intros H.
  destruct (contains "haiku" (lower s)); [now left|].
  simpl in H. rewrite H. now right.
Qed.

Lemma has_alias_anthropic (c : string) :
  has_alias ("anthropic/" ++ c) = has_alias c.
Proof.
  unfold has_alias. rewrite lower_app.
  change (lower "anthropic/") with "anthropic/". reflexivity.
Qed.

Lemma has_alias_openai (c : string) :
  has_alias ("openai/" ++ c) = has_alias c.
Proof.
  unfold has_alias. rewrite lower_app.
  change (lower "openai/") with "openai/". reflexivity.
Qed.

Lemma validate_and_map_model_eq (original_model : string) :
  validate_and_map_model original_model =
  if negb (String.eqb (_map_model_alias (_clean_model_name original_model))
                      (_clean_model_name original_model))
  then ("gemini/" ++ _map_model_alias (_clean_model_name original_model), true)
  else if mem (_clean_model_name original_model) _gemini_models
  then ("gemini/" ++ _clean_model_name original_model, true)
  else if negb (startswith "gemini/" original_model)
  then ("gemini/" ++ original_model, false)
  else (original_model, false).
Proof. reflexivity. Qed.

(** A name that carries the provider tag and no alias word is kept. *)
Lemma resolve_tagged_plain (r : string) :
  has_alias r = false ->
  fst (validate_and_map_model ("gemini/" ++ r)) = "gemini/" ++ r.
Proof.
  intros H. rewrite validate_and_map_model_eq.
  rewrite clean_gemini, (alias_no_alias r H), String.eqb_refl.
  change (negb true) with false. cbv match. destruct (mem r _gemini_models); [reflexivity|].
  now rewrite (startswith_app "gemini/" r).
Qed.

(** C6, as amended.  The resolver strips one provider prefix; a clean
    name that contains [haiku] resolves to the small model, and one that
    does not contain [haiku] but contains [sonnet] or [opus] resolves to
    the big model; mapped and known names are tagged with [gemini/] and
    [true], an untagged input gets [gemini/] prepended with [false], and
    a tagged input is kept with [false]. *)
Theorem validate_and_map_model_spec (original : string) :
  let clean := _clean_model_name original in
  let resolved := _map_model_alias clean in
  ((forall r, original = "gemini/" ++ r -> clean = r) /\
   (forall r, startswith "gemini/" original = false ->
              original = "anthropic/" ++ r -> clean = r) /\
   (forall r, startswith "gemini/" original = false ->
              startswith "anthropic/" original = false ->
              original = "openai/" ++ r -> clean = r) /\
   (startswith "gemini/" original = false ->
    startswith "anthropic/" original = false ->
    startswith "openai/" original = false -> clean = original)) /\
  (contains "haiku" (lower clean) = true -> resolved = small_model) /\
  (contains "haiku" (lower clean) = false ->
   contains "sonnet" (lower clean) = true \/
   contains "opus" (lower clean) = true -> resolved = big_model) /\
  (has_alias clean = false -> resolved = clean) /\
  (resolved <> clean \/ In clean _gemini_models ->
   validate_and_map_model original = ("gemini/" ++ resolved, true)) /\
  (resolved = clean -> ~ In clean _gemini_models ->
   startswith "gemini/" original = false ->
   validate_and_map_model original = ("gemini/" ++ original, false)) /\
  (resolved = clean -> ~ In clean _gemini_models ->
   startswith "gemini/" original = true ->
   validate_and_map_model original = (original, false)).
Proof.
  intros clean resolved.
  split; [|split; [|split; [|split; [|split; [|split]]]]].
  - subst clean. unfold _clean_model_name. repeat split.
    + intros r ->. now rewrite (startswith_app "gemini/" r).
    + intros r G E. rewrite G. rewrite E.
      now rewrite (startswith_app "anthropic/" r).
    + intros r G A E. rewrite G, A. rewrite E.
      now rewrite (startswith_app "openai/" r).
    + intros G A O. now rewrite G, A, O.
  - intros H. subst resolved. unfold _map_model_alias. now rewrite H.
  - intros Hh Hso. subst resolved. unfold _map_model_alias. rewrite Hh.
    destruct Hso as [H|H]; rewrite H; [reflexivity|].
    now rewrite orb_true_r.
  - apply alias_no_alias.
  - intros H. rewrite validate_and_map_model_eq. fold clean. fold resolved.
    destruct (String.eqb resolved clean) eqn:E; simpl; [|reflexivity].
    apply String.eqb_eq in E. destruct H as [H|H]; [contradiction|].
    apply mem_In in H. rewrite H. now rewrite E.
  - intros E Hn G. rewrite validate_and_map_model_eq. fold clean. fold resolved.
    rewrite E, String.eqb_refl. change (negb true) with false. cbv match.
    destruct (mem clean _gemini_models) eqn:M.
    { apply mem_In in M. contradiction. }
    now rewrite G.
  - intros E Hn G. rewrite validate_and_map_model_eq. fold clean. fold resolved.
    rewrite E, String.eqb_refl. change (negb true) with false. cbv match.
    destruct (mem clean _gemini_models) eqn:M.
    { apply mem_In in M. contradiction. }
    now rewrite G.
Qed.

(** C7, as amended.  When neither configured id contains an alias word,
    resolving the name returned by the resolver gives that name again. *)
Theorem validate_and_map_model_idempotent (original : string) :
  has_alias big_model = false ->
  has_alias small_model = false ->
  fst (validate_and_map_model (fst (validate_and_map_model original))) =
  fst (validate_and_map_model original).
Proof.
  intros Hb Hs.
  assert (Hfix : forall c, _map_model_alias c = c -> has_alias c = false).
  { intros c E. destruct (has_alias c) eqn:A; [|reflexivity].
    destruct (alias_with_alias c A) as [F|F]; rewrite F in E; subst c;
      congruence. }
  rewrite (validate_and_map_model_eq original).
  destruct (String.eqb (_map_model_alias (_clean_model_name original))
                       (_clean_model_name original)) eqn:E; try change (negb true) with false; try change (negb false) with true; cbv match.
  - apply String.eqb_eq in E. pose proof (Hfix _ E) as Hc.
    destruct (mem (_clean_model_name original) _gemini_models).
    + simpl fst. now apply resolve_tagged_plain.
    + destruct (startswith "gemini/" original) eqn:G; try change (negb true) with false; try change (negb false) with true; cbv match.
      * simpl fst. rewrite validate_and_map_model_eq.
        rewrite E, String.eqb_refl. change (negb true) with false. cbv match.
        destruct (mem (_clean_model_name original) _gemini_models).
        { pose proof (startswith_split "gemini/" original G) as X.
          unfold _clean_model_name. rewrite G. simpl fst. symmetry. exact X. }
        rewrite G. reflexivity.
      * simpl fst. apply resolve_tagged_plain.
        destruct (clean_cases original) as [X|[X|[X|[X _]]]].
        -- rewrite X, startswith_app in G. discriminate G.
        -- rewrite X, has_alias_anthropic. exact Hc.
        -- rewrite X, has_alias_openai. exact Hc.
        -- rewrite X. exact Hc.
  - simpl fst. apply resolve_tagged_plain.
    destruct (has_alias (_clean_model_name original)) eqn:A.
    + destruct (alias_with_alias _ A) as [F|F]; rewrite F; assumption.
    + rewrite (alias_no_alias _ A), String.eqb_refl in E. discriminate E.
Qed.

End WithConfig.

(** The default configuration: [BIG_MODEL] and [SMALL_MODEL] unset. *)
Definition default_big_model : string := "gemini-2.0-flash-exp".
Definition default_small_model : string := "gemini-1.5-flash-latest".

Lemma validate_and_map_model_idempotent_witness :
  has_alias default_big_model = false /\
  has_alias default_small_model = false /\
  fst (validate_and_map_model default_big_model default_small_model
        (fst (validate_and_map_model default_big_model default_small_model
                "claude-3-5-sonnet-20241022"))) =
  fst (validate_and_map_model default_big_model default_small_model
        "claude-3-5-sonnet-20241022").
Proof.
  split; [reflexivity|]. split; [reflexivity|].
  apply (validate_and_map_model_idempotent default_big_model
           default_small_model "claude-3-5-sonnet-20241022");
    reflexivity.
Defined.

(** C7 as stated fails for a configured big model whose id contains an
    alias word: [sonnet] resolves to [gemini/haiku-big], and that name
    resolves to the small model. *)
Lemma validate_and_map_model_not_idempotent :
  fst (validate_and_map_model "haiku-big" "gemini-1.5-flash-latest"
        (fst (validate_and_map_model "haiku-big" "gemini-1.5-flash-latest"
                "sonnet"))) <>
  fst (validate_and_map_model "haiku-big" "gemini-1.5-flash-latest" "sonnet").
Proof. vm_compute. discriminate. Qed.

Lemma validate_and_map_model_spec_witness :
  validate_and_map_model default_big_model default_small_model
    "anthropic/claude-3-opus" = ("gemini/" ++ default_big_model, true).
Proof.
  pose proof (validate_and_map_model_spec default_big_model default_small_model
                "anthropic/claude-3-opus") as H.
  cbv zeta in H.
  destruct H as [_ [_ [Hbig [_ [Hmapped _]]]]].
  rewrite <- (Hbig eq_refl (or_intror eq_refl)).
  apply Hmapped. left. rewrite (Hbig eq_refl (or_intror eq_refl)).
  discriminate.
Defined.

(** C6 as stated fails on a name that contains both [sonnet] and
    [haiku]: the test for [haiku] comes first in the chain, and the name
    resolves to the small model, not to the big one. *)
Lemma sonnet_haiku_resolves_small :
  contains "sonnet" (lower (_clean_model_name "claude-sonnet-haiku")) = true /\
  validate_and_map_model default_big_model default_small_model
    "claude-sonnet-haiku" = ("gemini/" ++ default_small_model, true) /\
  _map_model_alias default_big_model default_small_model
    (_clean_model_name "claude-sonnet-haiku") <> default_big_model.
Proof. split; [reflexivity|]. split; [reflexivity|]. vm_compute. discriminate. Qed.

Example resolve_sonnet :
  validate_and_map_model default_big_model default_small_model
    "claude-3-5-sonnet-20241022" = ("gemini/gemini-2.0-flash-exp", true).
Proof. reflexivity. Qed.

Example resolve_haiku :
  validate_and_map_model default_big_model default_small_model
    "anthropic/claude-3-HAIKU" = ("gemini/gemini-1.5-flash-latest", true).
Proof. reflexivity. Qed.

Example resolve_native :
  validate_and_map_model default_big_model default_small_model
    "gemini-pro" = ("gemini/gemini-pro", true).
Proof. reflexivity. Qed.

Example resolve_unknown :
  validate_and_map_model default_big_model default_small_model
    "openai/gpt-4" = ("gemini/openai/gpt-4", false).
Proof. reflexivity. Qed.

End ModelManager.

(** ** Python values and exceptions *)

Module Py.
Import PyStr.

(** The values the translation core handles.  A [float] is kept as a
    decimal mantissa and exponent; a [dict] has string keys and keeps
    insertion order; an object is the list of its data attributes. *)
#[local] Unset Elimination Schemes.
Inductive pyval : Type :=
| PNone
| PBool (b : bool)
| PInt (n : Z)
| PFloat (m e : Z)
| PStr (s : string)
| PList (l : list pyval)
| PDict (d : list (string * pyval))
| PObj (attrs : list (string * pyval)).
#[local] Set Elimination Schemes.

Definition dict := list (string * pyval).

(** Induction over [pyval] that reaches the elements of lists, the values
    of dicts and the attributes of objects. *)
Section PyvalInd.
Variable P : pyval -> Prop.
Hypothesis HNone : P PNone.
Hypothesis HBool : forall b, P (PBool b).
Hypothesis HInt : forall n, P (PInt n).
Hypothesis HFloat : forall m e, P (PFloat m e).
Hypothesis HStr : forall s, P (PStr s).
Hypothesis HList : forall l, Forall P l -> P (PList l).
Hypothesis HDict : forall d, Forall (fun kv => P (snd kv)) d -> P (PDict d).
Hypothesis HObj : forall a, Forall (fun kv => P (snd kv)) a -> P (PObj a).

Fixpoint pyval_rect' (v : pyval) : P v :=
  match v with
  | PNone => HNone
  | PBool b => HBool b
  | PInt n => HInt n
  | PFloat m e => HFloat m e
  | PStr s => HStr s
  | PList l =>
      HList l ((fix go (l : list pyval) : Forall P l :=
                  match l with
                  | [] => Forall_nil _
                  | x :: l' => Forall_cons _ (pyval_rect' x) (go l')
                  end) l)
  | PDict d =>
      HDict d ((fix go (d : dict) : Forall (fun kv => P (snd kv)) d :=
                  match d with
                  | [] => Forall_nil _
                  | kv :: d' => Forall_cons _ (pyval_rect' (snd kv)) (go d')
                  end) d)
  | PObj a =>
      HObj a ((fix go (d : dict) : Forall (fun kv => P (snd kv)) d :=
                 match d with
                 | [] => Forall_nil _
                 | kv :: d' => Forall_cons _ (pyval_rect' (snd kv)) (go d')
                 end) a)
  end.
End PyvalInd.

(** [bool(v)] *)
Definition truthy (v : pyval) : bool :=
  match v with
  | PNone => false
  | PBool b => b
  | PInt n => negb (Z.eqb n 0)
  | PFloat m _ => negb (Z.eqb m 0)
  | PStr s => negb (String.eqb s "")
  | PList l => match l with [] => false | _ => true end
  | PDict d => match d with [] => false | _ => true end
  | PObj _ => true
  end.

(** [v == s] for a string literal [s]. *)
Definition eq_str (v : pyval) (s : string) : bool :=
  match v with
  | PStr t => String.eqb t s
  | _ => false
  end.

(** [type(v).__name__] *)
Definition type_name (v : pyval) : string :=
  match v with
  | PNone => "NoneType"
  | PBool _ => "bool"
  | PInt _ => "int"
  | PFloat _ _ => "float"
  | PStr _ => "str"
  | PList _ => "list"
  | PDict _ => "dict"
  | PObj _ => "object"
  end.

(** *** Dicts *)

(** First binding of [k]. *)
Fixpoint lookup (k : string) (d : dict) : option pyval :=
  match d with
  | [] => None
  | (k', v) :: d' => if String.eqb k k' then Some v else lookup k d'
  end.

(** [k in d] *)
Definition has_key (k : string) (d : dict) : bool :=
  match lookup k d with Some _ => true | None => false end.

(** [d.get(k, default)] *)
Definition get (k : string) (default : pyval) (d : dict) : pyval :=
  match lookup k d with Some v => v | None => default end.

(** [d.pop(k, None)], for its effect on [d]. *)
Definition pop (k : string) (d : dict) : dict :=
  filter (fun kv => negb (String.eqb k (fst kv))) d.

(** *** Exceptions *)

(** An exception is the names of its class and of that class's bases,
    most derived first, and its message [str(e)]. *)
Record exn : Type := Exn { exn_mro : list string; exn_msg : string }.

(** [isinstance(e, cls)] *)
Definition isinstance_exn (cls : string) (e : exn) : bool := mem cls (exn_mro e).

Definition AttributeError (msg : string) : exn :=
  Exn ["AttributeError"; "Exception"; "BaseException"] msg.
Definition TypeError (msg : string) : exn :=
  Exn ["TypeError"; "Exception"; "BaseException"] msg.
Definition KeyError (msg : string) : exn :=
  Exn ["KeyError"; "LookupError"; "Exception"; "BaseException"] msg.
Definition ValidationError (msg : string) : exn :=
  Exn ["ValidationError"; "ValueError"; "Exception"; "BaseException"] msg.
Definition JSONDecodeError (msg : string) : exn :=
  Exn ["JSONDecodeError"; "ValueError"; "Exception"; "BaseException"] msg.

(** The result of code that may raise. *)
Inductive res (A : Type) : Type :=
| Ok (a : A)
| Raise (e : exn).
Arguments Ok {A} a.
Arguments Raise {A} e.

Definition bind {A B : Type} (r : res A) (k : A -> res B) : res B :=
  match r with
  | Ok a => k a
  | Raise e => Raise e
  end.

Notation "x <- r ;; k" := (bind r (fun x => k))
  (at level 61, r at next level, right associativity).

(** [v.get(k, default)]: only a dict has [get]. *)
Definition py_get (v : pyval) (k : string) (default : pyval) : res pyval :=
  match v with
  | PDict d => Ok (get k default d)
  | _ => Raise (AttributeError
                  ("'" ++ type_name v ++ "' object has no attribute 'get'"))
  end.

(** [hasattr(v, name)], for the attribute names the core probes: none of
    them is an attribute of a builtin value. *)
Definition hasattr (v : pyval) (name : string) : bool :=
  match v with
  | PObj a => has_key name a
  | _ => false
  end.

(** [getattr(v, name, default)] *)
Definition getattr (v : pyval) (name : string) (default : pyval) : pyval :=
  match v with
  | PObj a => get name default a
  | _ => default
  end.

(** [v.name] *)
Definition attr (v : pyval) (name : string) : res pyval :=
  match v with
  | PObj a =>
      match lookup name a with
      | Some x => Ok x
      | None => Raise (AttributeError
                         ("'object' object has no attribute '" ++ name ++ "'"))
      end
  | _ => Raise (AttributeError
                  ("'" ++ type_name v ++ "' object has no attribute '"
                   ++ name ++ "'"))
  end.

(** [v[0]] for a truthy [v]. *)
Definition first_item (v : pyval) : res pyval :=
  match v with
  | PList (x :: _) => Ok x
  | PList [] => Raise (Exn ["IndexError"; "LookupError"; "Exception";
                            "BaseException"] "list index out of range")
  | PStr (String c _) => Ok (PStr (String c EmptyString))
  | PStr EmptyString =>
      Raise (Exn ["IndexError"; "LookupError"; "Exception"; "BaseException"]
                 "string index out of range")
  | PDict d =>
      (* integer keys do not occur in the dicts of this model *)
      Raise (KeyError "0")
  | PObj _ => Raise (TypeError "'object' object is not subscriptable")
  | _ => Raise (TypeError ("'" ++ type_name v ++ "' object is not subscriptable"))
  end.

(** [hash(v)] succeeds: lists and dicts are unhashable. *)
Definition hashable (v : pyval) : bool :=
  match v with
  | PList _ | PDict _ => false
  | _ => true
  end.

(** [v in {s1, s2, ...}] for a set of string literals. *)
Definition in_str_set (v : pyval) (set : list string) : res bool :=
  if hashable v
  then Ok (match v with PStr s => mem s set | _ => false end)
  else Raise (TypeError ("unhashable type: '" ++ type_name v ++ "'")).

End Py.

(** ** Schema Sanitizer: [clean_gemini_schema] *)

Module Schema.
Import PyStr Py.

Definition allowed_formats : list string := ["enum"; "date-time"].

(** Whether [schema.pop("format")] runs, for the dict [d] left by the two
    unconditional pops; the membership test raises on an unhashable
    format value. *)
Definition pops_format (d : dict) : res bool :=
  if eq_str (get "type" PNone d) "string" && has_key "format" d
  then allowed <- in_str_set (get "format" PNone d) allowed_formats ;;
       Ok (negb allowed)
  else Ok false.

(** The keys gone from a dict when its values are visited. *)
Definition popped (drop_format : bool) (k : string) : bool :=
  String.eqb k "additionalProperties" || String.eqb k "default" ||
  (drop_format && String.eqb k "format").

(** [clean_gemini_schema].  The dict case pops the unsupported keys and
    then replaces each remaining value by its cleaned form; the loop over
    [list(schema.items())] is the inner [fix], which walks the bindings of
    the original dict and skips the popped keys. *)
Fixpoint clean_gemini_schema (schema : pyval) : res pyval :=
  match schema with
  | PDict d =>
      drop_format <- pops_format (pop "default" (pop "additionalProperties" d)) ;;
      d' <- (fix items (d : dict) : res dict :=
               match d with
               | [] => Ok []
               | (key, value) :: rest =>
                   if popped drop_format key then items rest
                   else value' <- clean_gemini_schema value ;;
                        rest' <- items rest ;;
                        Ok ((key, value') :: rest')
               end) d ;;
      Ok (PDict d')
  | PList l =>
      l' <- (fix elems (l : list pyval) : res (list pyval) :=
               match l with
               | [] => Ok []
               | item :: rest =>
                   item' <- clean_gemini_schema item ;;
                   rest' <- elems rest ;;
                   Ok (item' :: rest')
               end) l ;;
      Ok (PList l')
  | _ => Ok schema
  end.

(** The sanitizer as the specification words it: a pure function that
    deletes [additionalProperties] and [default] from every mapping,
    deletes [format] from a mapping of type [string] unless its value is
    an allowed one, and recurses into the remaining values and into list
    elements. *)
Definition spec_deletes_format (d : dict) : bool :=
  eq_str (get "type" PNone d) "string" && has_key "format" d &&
  negb (eq_str (get "format" PNone d) "enum" ||
        eq_str (get "format" PNone d) "date-time").

Definition spec_deleted (d : dict) (k : string) : bool :=
  String.eqb k "additionalProperties" || String.eqb k "default" ||
  (spec_deletes_format d && String.eqb k "format").

Fixpoint sanitize_spec (schema : pyval) : pyval :=
  match schema with
  | PDict d =>
      PDict ((fix items (l : dict) : dict :=
                match l with
                | [] => []
                | (key, value) :: rest =>
                    if spec_deleted d key then items rest
                    else (key, sanitize_spec value) :: items rest
                end) d)
  | PList l => PList (map sanitize_spec l)
  | _ => schema
  end.

(** The values on which the sanitizer does not raise: no visited mapping
    of type [string] has a list or a mapping as its [format]. *)
Definition format_hashable (d : dict) : bool :=
  negb (eq_str (get "type" PNone d) "string" && has_key "format" d) ||
  hashable (get "format" PNone d).

Fixpoint sanitizable (schema : pyval) : bool :=
  match schema with
  | PDict d =>
      format_hashable d &&
      (fix items (l : dict) : bool :=
         match l with
         | [] => true
         | (key, value) :: rest =>
             (spec_deleted d key || sanitizable value) && items rest
         end) d
  | PList l => forallb sanitizable l
  | _ => true
  end.

(** The inner loops by name, with the equations that unfold the
    functions above into them. *)
Definition clean_items (drop_format : bool) : dict -> res dict :=
  fix items (d : dict) : res dict :=
    match d with
    | [] => Ok []
    | (key, value) :: rest =>
        if popped drop_format key then items rest
        else value' <- clean_gemini_schema value ;;
             rest' <- items rest ;;
             Ok ((key, value') :: rest')
    end.

Definition clean_elems : list pyval -> res (list pyval) :=
  fix elems (l : list pyval) : res (list pyval) :=
    match l with
    | [] => Ok []
    | item :: rest =>
        item' <- clean_gemini_schema item ;;
        rest' <- elems rest ;;
        Ok (item' :: rest')
    end.

Definition spec_items (d : dict) : dict -> dict :=
  fix items (l : dict) : dict :=
    match l with
    | [] => []
    | (key, value) :: rest =>
        if spec_deleted d key then items rest
        else (key, sanitize_spec value) :: items rest
    end.

Definition sanitizable_items (d : dict) : dict -> bool :=
  fix items (l : dict) : bool :=
    match l with
    | [] => true
    | (key, value) :: rest =>
        (spec_deleted d key || sanitizable value) && items rest
    end.

Lemma clean_dict_eq (d : dict) :
  clean_gemini_schema (PDict d) =
  (drop_format <- pops_format (pop "default" (pop "additionalProperties" d)) ;;
   d' <- clean_items drop_format d ;;
   Ok (PDict d')).
Proof. reflexivity. Qed.

Lemma clean_list_eq (l : list pyval) :
  clean_gemini_schema (PList l) = (l' <- clean_elems l ;; Ok (PList l')).
Proof. reflexivity. Qed.

Lemma sanitize_dict_eq (d : dict) :
  sanitize_spec (PDict d) = PDict (spec_items d d).
Proof. reflexivity. Qed.

Lemma sanitizable_dict_eq (d : dict) :
  sanitizable (PDict d) = format_hashable d && sanitizable_items d d.
Proof. reflexivity. Qed.

Lemma lookup_pop_neq (k k' : string) (d : dict) :
  k <> k' -> lookup k (pop k' d) = lookup k d.
Proof.
  intros N. induction d as [|[k0 v] d IH]; [reflexivity|]. simpl.
  destruct (String.eqb k' k0) eqn:E0; simpl.
  - apply String.eqb_eq in E0. subst k0.
    destruct (String.eqb k k') eqn:E; [|exact IH].
    apply String.eqb_eq in E. contradiction.
  - now rewrite IH.
Qed.

Lemma get_pop_neq (k k' : string) (v : pyval) (d : dict) :
  k <> k' -> get k v (pop k' d) = get k v d.
Proof. intros N. unfold get. now rewrite lookup_pop_neq. Qed.

Lemma has_key_pop_neq (k k' : string) (d : dict) :
  k <> k' -> has_key k (pop k' d) = has_key k d.
Proof. intros N. unfold has_key. now rewrite lookup_pop_neq. Qed.

Lemma pops_format_pure (d : dict) :
  pops_format (pop "default" (pop "additionalProperties" d)) = pops_format d.
Proof.
  unfold pops_format.
  rewrite !get_pop_neq, !has_key_pop_neq by discriminate. reflexivity.
Qed.

Lemma pops_format_ok (d : dict) :
  format_hashable d = true -> pops_format d = Ok (spec_deletes_format d).
Proof.
  unfold format_hashable, pops_format, spec_deletes_format, in_str_set.
  destruct (eq_str (get "type" PNone d) "string" && has_key "format" d);
    simpl; [|reflexivity].
  intros H. rewrite H. simpl. f_equal. f_equal.
  destruct (get "format" PNone d); try reflexivity.
  simpl. now rewrite orb_false_r.
Qed.

Lemma pops_format_raise (d : dict) :
  format_hashable d = false -> exists e, pops_format d = Raise e.
Proof.
  unfold format_hashable, pops_format, in_str_set.
  destruct (eq_str (get "type" PNone d) "string" && has_key "format" d);
    simpl; [|discriminate].
  intros H. rewrite H. simpl. eauto.
Qed.

Lemma popped_spec (d : dict) (k : string) :
  popped (spec_deletes_format d) k = spec_deleted d k.
Proof. reflexivity. Qed.

(** On a sanitizable value the code returns what the specification's
    function computes. *)
Lemma clean_refines_spec (schema : pyval) :
  sanitizable schema = true ->
  clean_gemini_schema schema = Ok (sanitize_spec schema).
Proof.
  induction schema as [| | | | |l IH|d IH|a IH] using pyval_rect';
    try reflexivity.
  - intros S. rewrite clean_list_eq. simpl in S |- *.
    assert (E : clean_elems l = Ok (map sanitize_spec l)).
    { induction l as [|x l IHl]; [reflexivity|].
      simpl in S. apply andb_prop in S as [Sx Sl].
      inversion IH as [|? ? Hx Hl]; subst.
      simpl. rewrite (Hx Sx). simpl.
      change ((fix elems (l0 : list pyval) : res (list pyval) :=
                 match l0 with
                 | [] => Ok []
                 | item :: rest =>
                     item' <- clean_gemini_schema item ;;
                     rest' <- elems rest ;; Ok (item' :: rest')
                 end) l) with (clean_elems l).
      now rewrite (IHl Hl Sl). }
    now rewrite E.
  - intros S. rewrite clean_dict_eq, sanitize_dict_eq.
    rewrite sanitizable_dict_eq in S. apply andb_prop in S as [Sf Si].
    rewrite pops_format_pure, (pops_format_ok d Sf). simpl.
    assert (E : forall l, Forall (fun kv => sanitizable (snd kv) = true ->
                   clean_gemini_schema (snd kv) = Ok (sanitize_spec (snd kv))) l ->
                 sanitizable_items d l = true ->
                 clean_items (spec_deletes_format d) l = Ok (spec_items d l)).
    { clear IH Si. induction l as [|[k v] l IHl]; intros F Sl; [reflexivity|].
      inversion F as [|? ? Hv Hl]; subst. simpl in Hv.
      simpl in Sl. apply andb_prop in Sl as [Sv Sl].
      simpl. rewrite popped_spec.
      destruct (spec_deleted d k) eqn:D.
      - exact (IHl Hl Sl).
      - simpl in Sv. rewrite (Hv Sv). simpl.
        change ((fix items (d0 : dict) : res dict :=
                   match d0 with
                   | [] => Ok []
                   | (key, value) :: rest =>
                       if popped (spec_deletes_format d) key
                       then items rest
                       else
                        value' <- clean_gemini_schema value ;;
                        rest' <- items rest ;; Ok ((key, value') :: rest')
                   end) l) with (clean_items (spec_deletes_format d) l).
        now rewrite (IHl Hl Sl). }
    now rewrite (E d IH Si).
Qed.

(** Outside the sanitizable values the code raises. *)
Lemma clean_raises (schema : pyval) :
  sanitizable schema = false -> exists e, clean_gemini_schema schema = Raise e.
Proof.
  induction schema as [| | | | |l IH|d IH|a IH] using pyval_rect';
    try discriminate.
  - intros S. rewrite clean_list_eq. simpl in S.
    assert (E : exists e, clean_elems l = Raise e).
    { induction l as [|x l IHl]; [discriminate|].
      inversion IH as [|? ? Hx Hl]; subst. simpl in S.
      change (clean_elems (x :: l)) with
        (item' <- clean_gemini_schema x ;;
         rest' <- clean_elems l ;; Ok (item' :: rest')).
      destruct (sanitizable x) eqn:Sx.
      - rewrite (clean_refines_spec x Sx). simpl.
        destruct (IHl Hl S) as [e He]. rewrite He. simpl. eauto.
      - destruct (Hx eq_refl) as [e He]. rewrite He. simpl. eauto. }
    destruct E as [e He]. rewrite He. simpl. eauto.
  - intros S. rewrite clean_dict_eq, pops_format_pure.
    rewrite sanitizable_dict_eq in S.
    destruct (format_hashable d) eqn:Sf.
    2:{ destruct (pops_format_raise d Sf) as [e He]. rewrite He. simpl. eauto. }
    rewrite (pops_format_ok d Sf). simpl in S |- *.
    assert (E : forall l, Forall (fun kv => sanitizable (snd kv) = false ->
                   exists e, clean_gemini_schema (snd kv) = Raise e) l ->
                 sanitizable_items d l = false ->
                 exists e, clean_items (spec_deletes_format d) l = Raise e).
    { clear IH S. induction l as [|[k v] l IHl]; intros F Sl; [discriminate|].
      inversion F as [|? ? Hv Hl]; subst. simpl in Hv.
      change (clean_items (spec_deletes_format d) ((k, v) :: l)) with
        (if popped (spec_deletes_format d) k
         then clean_items (spec_deletes_format d) l
         else value' <- clean_gemini_schema v ;;
              rest' <- clean_items (spec_deletes_format d) l ;;
              Ok ((k, value') :: rest')).
      change (sanitizable_items d ((k, v) :: l)) with
        ((spec_deleted d k || sanitizable v) && sanitizable_items d l) in Sl.
      rewrite popped_spec.
      destruct (spec_deleted d k) eqn:D; simpl in Sl.
      - exact (IHl Hl Sl).
      - destruct (sanitizable v) eqn:Sv; simpl in Sl.
        + rewrite (clean_refines_spec v Sv). simpl.
          destruct (IHl Hl Sl) as [e He]. rewrite He. simpl. eauto.
        + destruct (Hv eq_refl) as [e He]. rewrite He. simpl. eauto. }
    destruct (E d IH S) as [e He]. rewrite He. simpl. eauto.
Qed.

(** What a sanitised mapping holds: a deleted key is gone, any other key
    is bound to the sanitised form of its old value. *)
Lemma lookup_spec_items (d l : dict) (k : string) :
  lookup k (spec_items d l) =
  if spec_deleted d k then None else option_map sanitize_spec (lookup k l).
Proof.
  induction l as [|[k0 v] l IH].
  - simpl. now destruct (spec_deleted d k).
  - change (spec_items d ((k0, v) :: l)) with
      (if spec_deleted d k0 then spec_items d l
       else (k0, sanitize_spec v) :: spec_items d l).
    simpl lookup. destruct (String.eqb k k0) eqn:E.
    + apply String.eqb_eq in E. subst k0.
      destruct (spec_deleted d k) eqn:D.
      * exact IH.
      * simpl. now rewrite String.eqb_refl.
    + destruct (spec_deleted d k0); [exact IH|].
      simpl. rewrite E. exact IH.
Qed.

Lemma in_spec_items (d l : dict) (k : string) (v : pyval) :
  In (k, v) (spec_items d l) ->
  exists v0, In (k, v0) l /\ v = sanitize_spec v0.
Proof.
  induction l as [|[k0 v0] l IH]; [intros []|].
  change (spec_items d ((k0, v0) :: l)) with
    (if spec_deleted d k0 then spec_items d l
     else (k0, sanitize_spec v0) :: spec_items d l).
  destruct (spec_deleted d k0).
  - intros H. destruct (IH H) as [w [Hw E]]. exists w. split; [now right|exact E].
  - intros [H|H].
    + inversion H; subst. exists v0. split; [now left|reflexivity].
    + destruct (IH H) as [w [Hw E]]. exists w. split; [now right|exact E].
Qed.

Lemma eq_str_sanitize (v : pyval) (s : string) :
  eq_str (sanitize_spec v) s = eq_str v s.
Proof. now destruct v. Qed.

(** A mapping [m] occurs in a value, at any depth. *)
Inductive occurs (m : dict) : pyval -> Prop :=
| occurs_here : occurs m (PDict m)
| occurs_value (k : string) (v : pyval) (d : dict) :
    In (k, v) d -> occurs m v -> occurs m (PDict d)
| occurs_elem (v : pyval) (l : list pyval) :
    In v l -> occurs m v -> occurs m (PList l).

(** A mapping as the sanitizer leaves it. *)
Definition supported (m : dict) : Prop :=
  has_key "additionalProperties" m = false /\
  has_key "default" m = false /\
  (eq_str (get "type" PNone m) "string" = true ->
   has_key "format" m = true ->
   get "format" PNone m = PStr "enum" \/ get "format" PNone m = PStr "date-time").

Lemma spec_items_supported (d : dict) : supported (spec_items d d).
Proof.
  unfold supported, has_key, get. rewrite !lookup_spec_items.
  split; [reflexivity|]. split; [reflexivity|].
  change (spec_deleted d "type") with
    (false || false || (spec_deletes_format d && false)).
  rewrite andb_false_r. simpl orb. cbv match.
  change (spec_deleted d "format") with
    (false || false || (spec_deletes_format d && true)).
  rewrite andb_true_r. simpl orb.
  destruct (spec_deletes_format d) eqn:D; [discriminate 2|].
  intros T F. unfold spec_deletes_format, has_key, get in D.
  destruct (lookup "type" d) as [t|]; [|discriminate T].
  simpl in T. rewrite eq_str_sanitize in T. rewrite T in D.
  destruct (lookup "format" d) as [f|]; [|discriminate F].
  simpl in D |- *. apply negb_false_iff in D.
  destruct f; try discriminate D. simpl in D |- *.
  apply orb_prop in D as [D|D]; apply String.eqb_eq in D; subst; auto.
Qed.

(** Every mapping of a sanitised value is a supported one. *)
Lemma sanitize_spec_supported (schema : pyval) (m : dict) :
  occurs m (sanitize_spec schema) -> supported m.
Proof.
  revert m.
  induction schema as [| | | | |l IH|d IH|a IH] using pyval_rect';
    intros mp O; try (now inversion O).
  - simpl in O. inversion O as [|? ? ? ?|v l' Hin Hv]; subst.
    apply in_map_iff in Hin as [x [Ex Hx]]. subst v.
    rewrite Forall_forall in IH. exact (IH x Hx mp Hv).
  - rewrite sanitize_dict_eq in O.
    inversion O as [|k v d' Hin Hv|]; subst.
    + apply spec_items_supported.
    + apply in_spec_items in Hin as [v0 [Hin E]]. subst v.
      rewrite Forall_forall in IH. exact (IH (k, v0) Hin mp Hv).
Qed.

Definition example_schema : pyval :=
  PDict [("type", PStr "string"); ("format", PStr "uri"); ("default", PStr "x")].

(** On every value on which it returns (no visited mapping of type
    [string] has a list or mapping as [format]) the sanitizer returns the
    value with [additionalProperties] and [default] deleted from every
    mapping at every depth, with [format] deleted from mappings of type
    [string] unless it is [enum] or [date-time], and with every other key
    and value kept. *)
Theorem clean_gemini_schema_spec (schema : pyval) :
  sanitizable schema = true ->
  clean_gemini_schema schema = Ok (sanitize_spec schema) /\
  (forall m, occurs m (sanitize_spec schema) -> supported m) /\
  match schema with
  | PDict d =>
      exists d', sanitize_spec schema = PDict d' /\
        forall k, lookup k d' =
                  if spec_deleted d k then None
                  else option_map sanitize_spec (lookup k d)
  | PList l => sanitize_spec schema = PList (map sanitize_spec l)
  | _ => sanitize_spec schema = schema
  end /\
  clean_gemini_schema example_schema = Ok (PDict [("type", PStr "string")]).
Proof.
  intros S. split; [exact (clean_refines_spec schema S)|].
  split; [exact (sanitize_spec_supported schema)|].
  split; [|reflexivity].
  destruct schema; try reflexivity.
  exists (spec_items d d). split; [reflexivity|].
  intros k. apply lookup_spec_items.
Qed.

Lemma clean_gemini_schema_spec_witness :
  sanitizable example_schema = true /\
  clean_gemini_schema example_schema = Ok (sanitize_spec example_schema).
Proof.
  split; [reflexivity|].
  exact (proj1 (clean_gemini_schema_spec example_schema eq_refl)).
Defined.

(** C8.  The code departs from the claim on a mapping of type [string]
    whose [format] is a list.  The claim has that format deleted, as any
    value other than [enum] and [date-time]; the code deletes a number
    there, but on the list its membership test hashes the value and
    raises [TypeError], so that nothing is returned. *)
Theorem clean_gemini_schema_unhashable_format :
  sanitize_spec (PDict [("type", PStr "string"); ("format", PList [])]) =
    PDict [("type", PStr "string")] /\
  clean_gemini_schema (PDict [("type", PStr "string"); ("format", PList [])]) =
    Raise (TypeError "unhashable type: 'list'") /\
  clean_gemini_schema (PDict [("type", PStr "string"); ("format", PInt 5)]) =
    Ok (PDict [("type", PStr "string")]) /\
  clean_gemini_schema example_schema = Ok (PDict [("type", PStr "string")]).
Proof. repeat split; reflexivity. Qed.

Example clean_nested :
  clean_gemini_schema
    (PDict [("type", PStr "object");
            ("additionalProperties", PBool false);
            ("properties",
             PDict [("when", PDict [("type", PStr "string");
                                    ("format", PStr "date-time");
                                    ("default", PStr "now")]);
                    ("tags", PList [PDict [("type", PStr "string");
                                           ("format", PStr "email")]])])]) =
  Ok (PDict [("type", PStr "object");
             ("properties",
              PDict [("when", PDict [("type", PStr "string");
                                     ("format", PStr "date-time")]);
                     ("tags", PList [PDict [("type", PStr "string")]])])]).
Proof. reflexivity. Qed.

End Schema.

(** ** Request Translator: [convert_anthropic_to_litellm], the messages *)

Module Request.
Import PyStr Py.

(** The content blocks of a validated [Message]. *)
Inductive ContentBlock : Type :=
| ContentBlockText (text : string)
| ContentBlockImage (source : dict)
| ContentBlockToolUse (id name : string) (input : dict)
| ContentBlockToolResult (tool_use_id : string) (content : pyval).

Inductive Role : Type := user | assistant.

Inductive MessageContent : Type :=
| ContentStr (text : string)
| ContentBlocks (blocks : list ContentBlock).

Record Message : Type := { role : Role; content : MessageContent }.

Definition role_name (r : Role) : string :=
  match r with user => "user" | assistant => "assistant" end.

Definition newline : string := String (ascii_of_nat 10) EmptyString.

Section Translator.

(** [json.dumps] and [str] on values, both of the Python library. *)
Variable json_dumps : pyval -> res string.
Variable py_str : pyval -> string.

(** [json.dumps(v)] inside [try: ... except: str(v)] *)
Definition dumps_or_str (v : pyval) : string :=
  match json_dumps v with Ok s => s | Raise _ => py_str v end.

(** What an f-string puts for a value. *)
Definition format_value (v : pyval) : string :=
  match v with PStr s => s | _ => py_str v end.

(** [sep.join(parts)] on a list of values, from item [i] on: every part
    must be a [str]. *)
Fixpoint join_from (i : nat) (sep : string) (parts : list pyval) : res string :=
  match parts with
  | [] => Ok EmptyString
  | PStr p :: rest =>
      match rest with
      | [] => Ok p
      | _ => r <- join_from (S i) sep rest ;; Ok (p ++ sep ++ r)
      end
  | v :: _ => Raise (TypeError ("sequence item " ++
                                NilZero.string_of_uint (Nat.to_uint i) ++
                                ": expected str instance, " ++
                                type_name v ++ " found"))
  end.

Definition join_values (sep : string) (parts : list pyval) : res string :=
  join_from 0 sep parts.

(** The parts gathered by the loop of [parse_tool_result_content] over a
    list. *)
Fixpoint result_parts (items : list pyval) : list pyval :=
  match items with
  | [] => []
  | item :: rest =>
      match item with
      | PDict d =>
          if eq_str (get "type" PNone d) "text"
          then get "text" (PStr "") d :: result_parts rest
          else if has_key "text" d
          then get "text" (PStr "") d :: result_parts rest
          else PStr (dumps_or_str item) :: result_parts rest
      | PStr _ => item :: result_parts rest
      | _ => result_parts rest
      end
  end.

(** [parse_tool_result_content] *)
Definition parse_tool_result_content (content : pyval) : res pyval :=
  match content with
  | PNone => Ok (PStr "No content provided")
  | PStr s => Ok (PStr s)
  | PList items =>
      joined <- join_values newline (result_parts items) ;;
      Ok (PStr (strip joined))
  | PDict d =>
      if eq_str (get "type" PNone d) "text"
      then Ok (get "text" (PStr "") d)
      else Ok (PStr (dumps_or_str content))
  | _ => Ok (PStr (py_str content))
  end.

(** The accumulators of one turn of the loop over the messages, with the
    messages appended to [litellm_messages] so far in that turn. *)
Record accumulators : Type := {
  text_parts : list string;
  image_parts : list pyval;
  tool_calls : list pyval;
  pending_tool_messages : list pyval;
  appended : list pyval
}.

Definition start : accumulators :=
  {| text_parts := []; image_parts := []; tool_calls := [];
     pending_tool_messages := []; appended := [] |}.

(** The [content] of the message built from the text and image parts. *)
Definition content_parts (texts : list string) (images : list pyval) : list pyval :=
  let text_content := strip (String.concat "" texts) in
  (if String.eqb text_content "" then []
   else [PDict [("type", PStr "text"); ("text", PStr text_content)]])
  ++ images.

Definition content_of_parts (parts : list pyval) : pyval :=
  match parts with
  | [PDict d] =>
      if eq_str (get "type" PNone d) "text" then get "text" PNone d
      else PList parts
  | _ => PList parts
  end.

Definition user_message (texts : list string) (images : list pyval) : pyval :=
  PDict [("role", PStr "user");
         ("content", content_of_parts (content_parts texts images))].

Definition tool_message (tool_use_id : string) (parsed_content : pyval) : pyval :=
  PDict [("role", PStr "tool");
         ("tool_call_id", PStr tool_use_id);
         ("content", parsed_content)].

(** [if text_parts or image_parts] *)
Definition has_parts (a : accumulators) : bool :=
  match text_parts a, image_parts a with
  | [], [] => false
  | _, _ => true
  end.

(** An image block is taken when its source is base64 with a media type
    and data. *)
Definition image_accepted (source : dict) : bool :=
  eq_str (get "type" PNone source) "base64" &&
  has_key "media_type" source && has_key "data" source.

Definition image_part (source : dict) : pyval :=
  PDict [("type", PStr "image_url");
         ("image_url",
          PDict [("url", PStr ("data:" ++ format_value (get "media_type" PNone source)
                               ++ ";base64," ++
                               format_value (get "data" PNone source)))])].

(** One turn of the loop over the blocks of a message. *)
Definition block_step (r : Role) (a : accumulators) (block : ContentBlock)
  : res accumulators :=
  match block, r with
  | ContentBlockText text, _ =>
      Ok {| text_parts := text_parts a ++ [text];
            image_parts := image_parts a;
            tool_calls := tool_calls a;
            pending_tool_messages := pending_tool_messages a;
            appended := appended a |}
  | ContentBlockImage source, _ =>
      if image_accepted source
      then Ok {| text_parts := text_parts a;
                 image_parts := image_parts a ++ [image_part source];
                 tool_calls := tool_calls a;
                 pending_tool_messages := pending_tool_messages a;
                 appended := appended a |}
      else Ok a
  | ContentBlockToolUse id name input, assistant =>
      arguments <- json_dumps (PDict input) ;;
      Ok {| text_parts := text_parts a;
            image_parts := image_parts a;
            tool_calls := tool_calls a ++
              [PDict [("id", PStr id); ("type", PStr "function");
                      ("function", PDict [("name", PStr name);
                                          ("arguments", PStr arguments)])]];
            pending_tool_messages := pending_tool_messages a;
            appended := appended a |}
  | ContentBlockToolResult tool_use_id content, user =>
      let flushed :=
        if has_parts a
        then {| text_parts := []; image_parts := [];
                tool_calls := tool_calls a;
                pending_tool_messages := pending_tool_messages a;
                appended := appended a ++
                            [user_message (text_parts a) (image_parts a)] |}
        else a in
      parsed_content <- parse_tool_result_content content ;;
      Ok {| text_parts := text_parts flushed;
            image_parts := image_parts flushed;
            tool_calls := tool_calls flushed;
            pending_tool_messages :=
              pending_tool_messages flushed ++ [tool_message tool_use_id parsed_content];
            appended := appended flushed |}
  | _, _ => Ok a
  end.

Fixpoint blocks_loop (r : Role) (a : accumulators) (blocks : list ContentBlock)
  : res accumulators :=
  match blocks with
  | [] => Ok a
  | block :: rest => a' <- block_step r a block ;; blocks_loop r a' rest
  end.

(** The end of the turn: what the message has added to
    [litellm_messages]. *)
Definition finalize (r : Role) (a : accumulators) : list pyval :=
  match r with
  | user =>
      (appended a ++
       (if has_parts a then [user_message (text_parts a) (image_parts a)] else []))
      ++ pending_tool_messages a
  | assistant =>
      let parts := content_parts (text_parts a) (image_parts a) in
      let content :=
        match parts with [] => PNone | _ => content_of_parts parts end in
      let assistant_msg :=
        ([("role", PStr "assistant"); ("content", content)] ++
         (match tool_calls a with
          | [] => []
          | calls => [("tool_calls", PList calls)]
          end))%list in
      if truthy (get "content" PNone assistant_msg) ||
         truthy (get "tool_calls" PNone assistant_msg)
      then appended a ++ [PDict assistant_msg]
      else appended a
  end.

(** The backend messages that one source message becomes. *)
Definition convert_message (msg : Message) : res (list pyval) :=
  match content msg with
  | ContentStr text =>
      Ok [PDict [("role", PStr (role_name (role msg))); ("content", PStr text)]]
  | ContentBlocks blocks =>
      a <- blocks_loop (role msg) start blocks ;;
      Ok (finalize (role msg) a)
  end.

(** The loop over [anthropic_request.messages]. *)
Fixpoint convert_messages (msgs : list Message) : res (list pyval) :=
  match msgs with
  | [] => Ok []
  | msg :: rest =>
      here <- convert_message msg ;;
      later <- convert_messages rest ;;
      Ok (here ++ later)%list
  end.

(** *** The split at a tool result *)

Definition is_text_or_image (block : ContentBlock) : bool :=
  match block with
  | ContentBlockText _ | ContentBlockImage _ => true
  | _ => false
  end.

(** A block that reaches an accumulator: any text block, and an image
    block with an accepted source. *)
Definition taken (block : ContentBlock) : bool :=
  match block with
  | ContentBlockText _ => true
  | ContentBlockImage source => image_accepted source
  | _ => false
  end.

Fixpoint texts_of (blocks : list ContentBlock) : list string :=
  match blocks with
  | [] => []
  | ContentBlockText text :: rest => text :: texts_of rest
  | _ :: rest => texts_of rest
  end.

Fixpoint images_of (blocks : list ContentBlock) : list pyval :=
  match blocks with
  | [] => []
  | ContentBlockImage source :: rest =>
      if image_accepted source then image_part source :: images_of rest
      else images_of rest
  | _ :: rest => images_of rest
  end.

Lemma blocks_loop_app (r : Role) (a : accumulators) (l1 l2 : list ContentBlock) :
  blocks_loop r a (l1 ++ l2) =
  (a' <- blocks_loop r a l1 ;; blocks_loop r a' l2).
Proof.
  revert a. induction l1 as [|b l1 IH]; intros a; [reflexivity|].
  simpl. destruct (block_step r a b) as [a'|e]; simpl; [apply IH|reflexivity].
Qed.

(** Text and image blocks only fill the two accumulators. *)
Lemma blocks_loop_text_image (r : Role) (pre : list ContentBlock) :
  forallb is_text_or_image pre = true ->
  forall a,
  blocks_loop r a pre =
  Ok {| text_parts := text_parts a ++ texts_of pre;
        image_parts := image_parts a ++ images_of pre;
        tool_calls := tool_calls a;
        pending_tool_messages := pending_tool_messages a;
        appended := appended a |}.
Proof.
  induction pre as [|b pre IH]; intros H a.
  - simpl. rewrite !app_nil_r. now destruct a.
  - simpl in H. apply andb_prop in H as [Hb H].
    destruct b as [text|source|? ? ?|? ?]; try discriminate Hb.
    + simpl. rewrite (IH H). simpl. now rewrite <- app_assoc.
    + simpl. destruct (image_accepted source).
      * simpl. rewrite (IH H). simpl. now rewrite <- app_assoc.
      * simpl. now rewrite (IH H).
Qed.

Lemma taken_parts (pre : list ContentBlock) :
  existsb taken pre = true -> texts_of pre <> [] \/ images_of pre <> [].
Proof.
  induction pre as [|b pre IH]; [discriminate|].
  simpl. destruct b as [text|source|? ? ?|? ?]; simpl.
  - intros _. left. discriminate.
  - destruct (image_accepted source); simpl.
    + intros _. right. discriminate.
    + exact IH.
  - exact IH.
  - exact IH.
Qed.

(** The normaliser returns a string on the usual shapes of content. *)
Lemma parse_tool_result_content_returns (content : pyval) :
  match content with
  | PNone | PStr _ | PBool _ | PInt _ | PFloat _ _ | PObj _ =>
      exists s, parse_tool_result_content content = Ok (PStr s)
  | PList items =>
      Forall (fun part => exists s, part = PStr s) (result_parts items) ->
      exists s, parse_tool_result_content content = Ok (PStr s)
  | PDict d =>
      eq_str (get "type" PNone d) "text" = false ->
      exists s, parse_tool_result_content content = Ok (PStr s)
  end.
Proof.
  destruct content as [| | | | |items|d|]; simpl; eauto.
  - intros F.
    assert (J : exists s, join_values newline (result_parts items) = Ok s).
    { unfold join_values. generalize 0.
      induction (result_parts items) as [|part parts IH]; intros i;
        [simpl; eauto|].
      inversion F as [|? ? [s Hs] Hp]; subst.
      destruct (IH Hp (S i)) as [t Ht]. simpl. rewrite Ht.
      destruct parts; simpl; eauto. }
    destruct J as [s Hs]. rewrite Hs. simpl. eauto.
  - intros T. rewrite T. eauto.
Qed.

(** C3, as amended.  A user message made of text and image blocks, of
    which at least one is a text block or an image with an accepted
    source, followed by one tool result whose content normalises,
    becomes exactly two backend messages: the user message with the
    gathered content, then the tool message with the tool-use id and the
    normalised content. *)
Theorem tool_result_splits_message
    (pre : list ContentBlock) (tool_use_id : string) (c p : pyval) :
  forallb is_text_or_image pre = true ->
  existsb taken pre = true ->
  parse_tool_result_content c = Ok p ->
  convert_message
    {| role := user;
       content := ContentBlocks (pre ++ [ContentBlockToolResult tool_use_id c]) |}
  = Ok [user_message (texts_of pre) (images_of pre);
        tool_message tool_use_id p].
Proof.
  intros Hpre Htaken Hparse. unfold convert_message. simpl.
  rewrite blocks_loop_app, (blocks_loop_text_image user pre Hpre start).
  simpl. rewrite Hparse. simpl.
  assert (Hp : has_parts
                 {| text_parts := texts_of pre; image_parts := images_of pre;
                    tool_calls := []; pending_tool_messages := [];
                    appended := [] |} = true).
  { unfold has_parts. simpl.
    destruct (taken_parts pre Htaken) as [N|N];
      destruct (texts_of pre), (images_of pre); try reflexivity; now elim N. }
  rewrite Hp. reflexivity.
Qed.

End Translator.

(** Stand-ins for the two library functions, for the inputs below, which
    reach neither. *)
Definition no_dumps : pyval -> res string :=
  fun _ => Raise (TypeError "Object is not JSON serializable").
Definition no_str : pyval -> string := fun _ => "".

Definition text_then_result : Message :=
  {| role := user;
     content := ContentBlocks
       [ContentBlockText "Here is the output: ";
        ContentBlockToolResult "toolu_01" (PStr "42")] |}.

Lemma tool_result_splits_message_witness :
  convert_message no_dumps no_str text_then_result =
  Ok [PDict [("role", PStr "user"); ("content", PStr "Here is the output:")];
      PDict [("role", PStr "tool"); ("tool_call_id", PStr "toolu_01");
             ("content", PStr "42")]].
Proof.
  exact (tool_result_splits_message no_dumps no_str
           [ContentBlockText "Here is the output: "] "toolu_01"
           (PStr "42") (PStr "42") eq_refl eq_refl eq_refl).
Defined.

(** C3 as stated fails when the only block before the tool result is an
    image whose source is not base64: nothing is flushed, and the tool
    message stands alone. *)
Lemma tool_result_after_url_image :
  convert_message no_dumps no_str
    {| role := user;
       content := ContentBlocks
         [ContentBlockImage [("type", PStr "url");
                             ("url", PStr "https://example.com/cat.png")];
          ContentBlockToolResult "toolu_01" (PStr "42")] |}
  = Ok [PDict [("role", PStr "tool"); ("tool_call_id", PStr "toolu_01");
               ("content", PStr "42")]].
Proof. reflexivity. Qed.

(** The normaliser raises on a list item whose text is not a string. *)
Example parse_tool_result_content_raises :
  exists e,
    parse_tool_result_content no_dumps no_str
      (PList [PDict [("type", PStr "text"); ("text", PInt 5)]]) = Raise e.
Proof. eexists. reflexivity. Qed.

Example parse_tool_result_content_list :
  parse_tool_result_content no_dumps no_str
    (PList [PDict [("type", PStr "text"); ("text", PStr "a")];
            PDict [("type", PStr "text"); ("text", PStr "b")]]) =
  Ok (PStr ("a" ++ newline ++ "b")).
Proof. reflexivity. Qed.

Example parse_tool_result_content_none :
  parse_tool_result_content no_dumps no_str PNone =
  Ok (PStr "No content provided").
Proof. reflexivity. Qed.

End Request.

(** ** Response Translator: [convert_litellm_to_anthropic] *)

Module Response.
Import PyStr Py.

Inductive StopReason : Type :=
| end_turn | max_tokens | stop_sequence | tool_use | error.

(** The blocks of a [MessagesResponse]. *)
Inductive ContentBlock : Type :=
| ContentBlockText (text : string)
| ContentBlockToolUse (id name : string) (input : dict).

Record Usage : Type := {
  input_tokens : Z;
  output_tokens : Z;
  cache_creation_input_tokens : Z;
  cache_read_input_tokens : Z
}.

Record MessagesResponse : Type := {
  id : string;
  model : string;
  content : list ContentBlock;
  stop_reason : option StopReason;
  usage : Usage
}.

(** [Usage(input_tokens=i, output_tokens=o)] after validation *)
Definition mk_usage (i o : Z) : Usage :=
  {| input_tokens := i; output_tokens := o;
     cache_creation_input_tokens := 0; cache_read_input_tokens := 0 |}.

(** The finish-reason mapping of the non-streaming path; [tool_calls] is
    the value tested by [finish_reason is None and tool_calls]. *)
Definition map_finish_reason (finish_reason tool_calls : pyval) : StopReason :=
  if eq_str finish_reason "length" then max_tokens
  else if eq_str finish_reason "tool_calls" then tool_use
  else if (match finish_reason with PNone => true | _ => false end)
          && truthy tool_calls then tool_use
  else end_turn.

Section Translator.

(** [json.loads]: [None] is a [JSONDecodeError]. *)
Variable json_loads : string -> option pyval.

(** The validation that the response models apply to a [str], an [int]
    and a [Dict[str, Any]] field: [None] is a [ValidationError]. *)
Variable validate_str : pyval -> option string.
Variable validate_int : pyval -> option Z.
Variable validate_dict : pyval -> option dict.

(** The identifiers drawn from [uuid.uuid4()], by place of the draw: 0 for
    the response id, 1 for the error id, [2 + i] for the i-th tool call. *)
Variable uuid4 : nat -> string.

(** [original_request.original_model or original_request.model] *)
Variable original_model : option string.
Variable request_model : string.

Definition echoed_model : string :=
  match original_model with
  | Some m => if String.eqb m "" then request_model else m
  | None => request_model
  end.

Definition validated {A : Type} (field : string) (o : option A) : res A :=
  match o with
  | Some a => Ok a
  | None => Raise (ValidationError ("validation error for " ++ field))
  end.

(** [x or ""] *)
Definition or_empty (v : pyval) : pyval := if truthy v then v else PStr "".

(** What the translator reads off the response. *)
Record extracted : Type := {
  response_id : pyval;
  content_text : pyval;
  tool_calls : pyval;
  finish_reason : pyval;
  prompt_tokens : pyval;
  completion_tokens : pyval
}.

Definition defaults : extracted :=
  {| response_id := PStr ("msg_" ++ uuid4 0);
     content_text := PStr "";
     tool_calls := PNone;
     finish_reason := PStr "stop";
     prompt_tokens := PInt 0;
     completion_tokens := PInt 0 |}.

(** The branch for a [ModelResponse] object. *)
Definition extract_object (litellm_response : pyval) : res extracted :=
  choices <- attr litellm_response "choices" ;;
  message <- (if truthy choices
              then first <- first_item choices ;; attr first "message"
              else Ok PNone) ;;
  finish <- (if truthy choices
             then first <- first_item choices ;; attr first "finish_reason"
             else Ok (PStr "stop")) ;;
  usage <- attr litellm_response "usage" ;;
  Ok {| response_id := getattr litellm_response "id" (response_id defaults);
        content_text := or_empty (getattr message "content" (PStr ""));
        tool_calls := getattr message "tool_calls" PNone;
        finish_reason := finish;
        prompt_tokens := getattr usage "prompt_tokens" (PInt 0);
        completion_tokens := getattr usage "completion_tokens" (PInt 0) |}.

(** The branch for a dict. *)
Definition extract_dict (d : dict) : res extracted :=
  let choices := get "choices" (PList []) d in
  message <- (if truthy choices
              then first <- first_item choices ;; py_get first "message" (PDict [])
              else Ok (PDict [])) ;;
  text <- py_get message "content" (PStr "") ;;
  calls <- py_get message "tool_calls" PNone ;;
  finish <- (if truthy choices
             then first <- first_item choices ;;
                  py_get first "finish_reason" (PStr "stop")
             else Ok (PStr "stop")) ;;
  let usage := get "usage" (PDict []) d in
  prompt <- py_get usage "prompt_tokens" (PInt 0) ;;
  completion <- py_get usage "completion_tokens" (PInt 0) ;;
  Ok {| response_id := get "id" (response_id defaults) d;
        content_text := or_empty text;
        tool_calls := calls;
        finish_reason := finish;
        prompt_tokens := prompt;
        completion_tokens := completion |}.

Definition extract (litellm_response : pyval) : res extracted :=
  if hasattr litellm_response "choices" && hasattr litellm_response "usage"
  then extract_object litellm_response
  else match litellm_response with
       | PDict d => extract_dict d
       | _ => Ok defaults
       end.

(** [json.loads(arguments_str)] with its [except json.JSONDecodeError];
    a value that is not a [str] makes [json.loads] raise [TypeError]. *)
Definition parse_arguments (arguments_str : pyval) : res pyval :=
  match arguments_str with
  | PStr s =>
      match json_loads s with
      | Some v => Ok v
      | None => Ok (PDict [("raw_arguments", arguments_str)])
      end
  | _ => Raise (TypeError ("the JSON object must be str, bytes or bytearray, not "
                           ++ type_name arguments_str))
  end.

(** The body of the inner [try] for the [i]-th tool call: [Ok None] is a
    [continue], [Ok (Some b)] an appended block. *)
Definition tool_call_block (i : nat) (tool_call : pyval) : res (option ContentBlock) :=
  fields <-
    (match tool_call with
     | PDict d =>
         let tool_id := get "id" (PStr ("tool_" ++ uuid4 (2 + i))) d in
         let function_data := get "function" (PDict []) d in
         name <- py_get function_data "name" (PStr "") ;;
         arguments_str <- py_get function_data "arguments" (PStr "{}") ;;
         Ok (Some (tool_id, name, arguments_str))
     | _ =>
         if hasattr tool_call "id" && hasattr tool_call "function"
         then tool_id <- attr tool_call "id" ;;
              function <- attr tool_call "function" ;;
              name <- attr function "name" ;;
              arguments_str <- attr function "arguments" ;;
              Ok (Some (tool_id, name, arguments_str))
         else Ok None
     end) ;;
  match fields with
  | None => Ok None
  | Some (tool_id, name, arguments_str) =>
      if negb (truthy name) then Ok None
      else
        arguments_dict <- parse_arguments arguments_str ;;
        id' <- validated "id" (validate_str tool_id) ;;
        name' <- validated "name" (validate_str name) ;;
        input' <- validated "input" (validate_dict arguments_dict) ;;
        Ok (Some (ContentBlockToolUse id' name' input'))
  end.

(** The loop over the tool calls: an exception in the body skips the
    call. *)
Fixpoint tool_call_blocks (i : nat) (calls : list pyval) : list ContentBlock :=
  match calls with
  | [] => []
  | tool_call :: rest =>
      match tool_call_block i tool_call with
      | Ok (Some block) => block :: tool_call_blocks (S i) rest
      | Ok None | Raise _ => tool_call_blocks (S i) rest
      end
  end.

(** [tool_calls] after [if not isinstance(tool_calls, list)] *)
Definition as_list (calls : pyval) : list pyval :=
  match calls with
  | PList l => l
  | _ => [calls]
  end.

(** The body of the outer [try]. *)
Definition convert_try (litellm_response : pyval) : res MessagesResponse :=
  x <- extract litellm_response ;;
  text_blocks <-
    (if truthy (content_text x)
     then text <- validated "text" (validate_str (content_text x)) ;;
          Ok [ContentBlockText text]
     else Ok []) ;;
  let tool_blocks :=
    if truthy (tool_calls x) then tool_call_blocks 0 (as_list (tool_calls x))
    else [] in
  let content_blocks := (text_blocks ++ tool_blocks)%list in
  let content_blocks :=
    match content_blocks with
    | [] => [ContentBlockText ""]
    | _ => content_blocks
    end in
  let stop := map_finish_reason (finish_reason x) (tool_calls x) in
  id' <- validated "id" (validate_str (response_id x)) ;;
  i <- validated "input_tokens" (validate_int (prompt_tokens x)) ;;
  o <- validated "output_tokens" (validate_int (completion_tokens x)) ;;
  Ok {| id := id'; model := echoed_model; content := content_blocks;
        stop_reason := Some stop; usage := mk_usage i o |}.

(** The response built by the [except Exception] clause. *)
Definition conversion_error : MessagesResponse :=
  {| id := "msg_error_" ++ uuid4 1;
     model := echoed_model;
     content := [ContentBlockText "Response conversion error"];
     stop_reason := Some error;
     usage := mk_usage 0 0 |}.

(** [convert_litellm_to_anthropic]: [except Exception] takes the
    exceptions that derive from [Exception]; any other would leave the
    function. *)
Definition convert_litellm_to_anthropic (litellm_response : pyval)
  : res MessagesResponse :=
  match convert_try litellm_response with
  | Ok response => Ok response
  | Raise e =>
      if isinstance_exn "Exception" e then Ok conversion_error else Raise e
  end.

(** *** Totality *)

(** A result that an [except Exception] clause handles. *)
Definition catchable {A : Type} (r : res A) : Prop :=
  match r with
  | Ok _ => True
  | Raise e => isinstance_exn "Exception" e = true
  end.

Lemma catchable_bind {A B : Type} (r : res A) (k : A -> res B) :
  catchable r -> (forall a, catchable (k a)) -> catchable (bind r k).
Proof. destruct r as [a|e]; simpl; auto. Qed.

Lemma catchable_attr (v : pyval) (name : string) : catchable (attr v name).
Proof.
  destruct v; simpl; try reflexivity.
  destruct (lookup name attrs); simpl; reflexivity.
Qed.

Lemma catchable_py_get (v : pyval) (k : string) (d : pyval) :
  catchable (py_get v k d).
Proof. destruct v; simpl; reflexivity. Qed.

Lemma catchable_first_item (v : pyval) : catchable (first_item v).
Proof.
  destruct v as [| | | |s|l| |]; simpl; try reflexivity.
  - destruct s; simpl; reflexivity.
  - destruct l; simpl; reflexivity.
Qed.

Lemma catchable_validated {A : Type} (field : string) (o : option A) :
  catchable (validated field o).
Proof. destruct o; simpl; reflexivity. Qed.

Lemma catchable_parse_arguments (v : pyval) : catchable (parse_arguments v).
Proof.
  destruct v; simpl; try reflexivity.
  destruct (json_loads s); simpl; reflexivity.
Qed.

Create HintDb catchable.
#[local] Hint Resolve catchable_attr catchable_py_get catchable_first_item
  catchable_validated catchable_parse_arguments : catchable.

Ltac catchable_step :=
  match goal with
  | |- catchable (bind _ _) => apply catchable_bind; [|intros ?]
  | |- catchable (if ?b then _ else _) => destruct b
  | |- catchable (Ok _) => exact I
  | |- catchable (let _ := _ in _) => cbv zeta
  | |- _ => solve [auto with catchable]
  end.

Lemma catchable_extract (litellm_response : pyval) :
  catchable (extract litellm_response).
Proof.
  unfold extract.
  destruct (hasattr litellm_response "choices" &&
            hasattr litellm_response "usage").
  - unfold extract_object. repeat catchable_step.
  - destruct litellm_response; try exact I.
    unfold extract_dict. repeat catchable_step.
Qed.

Lemma catchable_convert_try (litellm_response : pyval) :
  catchable (convert_try litellm_response).
Proof.
  unfold convert_try.
  apply catchable_bind; [apply catchable_extract|intros x].
  repeat catchable_step.
Qed.

(** A response returned by the body of the [try] has a block. *)
Lemma convert_try_content (litellm_response : pyval) (m : MessagesResponse) :
  convert_try litellm_response = Ok m -> content m <> [].
Proof.
  unfold convert_try. destruct (extract litellm_response) as [x|e]; simpl;
    [|discriminate].
  destruct (if truthy (content_text x)
            then text <- validated "text" (validate_str (content_text x)) ;;
                 Ok [ContentBlockText text]
            else Ok []) as [text_blocks|e]; simpl; [|discriminate].
  destruct (validated "id" (validate_str (response_id x))) as [i|e]; simpl;
    [|discriminate].
  destruct (validated "input_tokens" (validate_int (prompt_tokens x)))
    as [pt|e]; simpl; [|discriminate].
  destruct (validated "output_tokens" (validate_int (completion_tokens x)))
    as [ct|e]; simpl; [|discriminate].
  intros E. inversion E; subst; clear E. simpl.
  destruct (text_blocks ++
            (if truthy (tool_calls x)
             then tool_call_blocks 0 (as_list (tool_calls x)) else []))%list;
    discriminate.
Qed.

(** C2.  For every response value the translator returns, and what it
    returns has at least one block; when the body of the [try] raises it
    returns the degraded response, whose content is the one text block
    [Response conversion error], with stop reason [error] and zero
    tokens. *)
Theorem convert_litellm_to_anthropic_total (litellm_response : pyval) :
  (exists m,
     convert_litellm_to_anthropic litellm_response = Ok m /\
     (1 <= List.length (content m))%nat) /\
  (forall e, convert_try litellm_response = Raise e ->
     convert_litellm_to_anthropic litellm_response = Ok conversion_error) /\
  content conversion_error = [ContentBlockText "Response conversion error"] /\
  stop_reason conversion_error = Some error /\
  input_tokens (usage conversion_error) = 0%Z /\
  output_tokens (usage conversion_error) = 0%Z.
Proof.
  pose proof (catchable_convert_try litellm_response) as C.
  pose proof (convert_try_content litellm_response) as N.
  unfold convert_litellm_to_anthropic.
  destruct (convert_try litellm_response) as [m|e]; simpl in C.
  - split; [|split; [discriminate|repeat split]].
    exists m. split; [reflexivity|].
    specialize (N m eq_refl). destruct (content m); [now elim N|simpl; lia].
  - rewrite C. split; [|split; [reflexivity|repeat split]].
    exists conversion_error. split; [reflexivity|simpl; lia].
Qed.

(** The non-streaming path applies [map_finish_reason]. *)
Lemma convert_try_stop_reason (litellm_response : pyval) (m : MessagesResponse) :
  convert_try litellm_response = Ok m ->
  exists x, extract litellm_response = Ok x /\
            stop_reason m = Some (map_finish_reason (finish_reason x) (tool_calls x)).
Proof.
  unfold convert_try. destruct (extract litellm_response) as [x|e]; simpl;
    [|discriminate].
  destruct (if truthy (content_text x)
            then text <- validated "text" (validate_str (content_text x)) ;;
                 Ok [ContentBlockText text]
            else Ok []) as [text_blocks|e]; simpl; [|discriminate].
  destruct (validated "id" (validate_str (response_id x))) as [i|e]; simpl;
    [|discriminate].
  destruct (validated "input_tokens" (validate_int (prompt_tokens x)))
    as [pt|e]; simpl; [|discriminate].
  destruct (validated "output_tokens" (validate_int (completion_tokens x)))
    as [ct|e]; simpl; [|discriminate].
  intros E. inversion E; subst; clear E. exists x. split; reflexivity.
Qed.

End Translator.

(** Validation that takes the value of the field's own type. *)
Definition exact_str (v : pyval) : option string :=
  match v with PStr s => Some s | _ => None end.
Definition exact_int (v : pyval) : option Z :=
  match v with PInt n => Some n | _ => None end.
Definition exact_dict (v : pyval) : option dict :=
  match v with PDict d => Some d | _ => None end.

(** A response with no choices, and one without usage. *)
Example convert_zero_choices :
  convert_litellm_to_anthropic (fun _ => None) exact_str exact_int exact_dict
    (fun _ => "0000") None "gemini/gemini-pro"
    (PDict [("id", PStr "r1"); ("choices", PList []);
            ("usage", PDict [("prompt_tokens", PInt 3);
                             ("completion_tokens", PInt 0)])]) =
  Ok {| id := "r1"; model := "gemini/gemini-pro";
        content := [ContentBlockText ""];
        stop_reason := Some end_turn; usage := mk_usage 3 0 |}.
Proof. reflexivity. Qed.

Example convert_absent_usage :
  convert_litellm_to_anthropic (fun _ => None) exact_str exact_int exact_dict
    (fun _ => "0000") (Some "claude-3-5-sonnet-20241022") "gemini/gemini-pro"
    (PDict [("id", PStr "r2");
            ("choices",
             PList [PDict [("message", PDict [("content", PStr "hi")]);
                           ("finish_reason", PStr "stop")]])]) =
  Ok {| id := "r2"; model := "claude-3-5-sonnet-20241022";
        content := [ContentBlockText "hi"];
        stop_reason := Some end_turn; usage := mk_usage 0 0 |}.
Proof. reflexivity. Qed.

(** A [null] usage makes the body raise; the degraded response comes
    back. *)
Example convert_null_usage :
  convert_litellm_to_anthropic (fun _ => None) exact_str exact_int exact_dict
    (fun _ => "0000") None "gemini/gemini-pro"
    (PDict [("choices", PList []); ("usage", PNone)]) =
  Ok {| id := "msg_error_0000"; model := "gemini/gemini-pro";
        content := [ContentBlockText "Response conversion error"];
        stop_reason := Some error; usage := mk_usage 0 0 |}.
Proof. reflexivity. Qed.

End Response.

(** ** A reference JSON decoder

    The translators take [json.loads] as a parameter.  This decoder stands
    for it in the closed examples: it reads the JSON grammar (objects,
    arrays, strings with their escapes, numbers, [true], [false], [null])
    on texts whose characters and [\u] escapes are below 256. *)

Module Json.
Import PyStr Py.

(** The double quote, and a text with every apostrophe turned into a
    double quote: the JSON texts below are written with apostrophes. *)
Definition quote : ascii := ascii_of_nat 34.

Fixpoint dq (s : string) : string :=
  match s with
  | EmptyString => EmptyString
  | String c s' => String (if Ascii.eqb c "'" then quote else c) (dq s')
  end.

Definition is_ws (c : ascii) : bool :=
  let n := nat_of_ascii c in
  ((n =? 32) || (n =? 9) || (n =? 10) || (n =? 13))%nat.

Fixpoint skip_ws (s : string) : string :=
  match s with
  | String c s' => if is_ws c then skip_ws s' else s
  | EmptyString => s
  end.

Definition digit_of (c : ascii) : option Z :=
  let n := nat_of_ascii c in
  if ((48 <=? n) && (n <=? 57))%nat then Some (Z.of_nat (n - 48)) else None.

Definition hex_of (c : ascii) : option nat :=
  let n := nat_of_ascii c in
  if ((48 <=? n) && (n <=? 57))%nat then Some (n - 48)
  else if ((97 <=? n) && (n <=? 102))%nat then Some (n - 87)
  else if ((65 <=? n) && (n <=? 70))%nat then Some (n - 55)
  else None.

(** The four hex digits of a [\u] escape, for a code point below 256. *)
Definition unicode_escape (s : string) : option (ascii * string) :=
  match s with
  | String a (String b (String c (String d rest))) =>
      match hex_of a, hex_of b, hex_of c, hex_of d with
      | Some 0, Some 0, Some h, Some l => Some (ascii_of_nat (16 * h + l), rest)
      | _, _, _, _ => None
      end
  | _ => None
  end.

(** The characters of a string literal after its opening quote.  The
    fuel is the length of the text. *)
Fixpoint string_body (fuel : nat) (s : string) : option (string * string) :=
  match fuel with
  | O => None
  | S fuel' =>
      match s with
      | EmptyString => None
      | String c rest =>
          if Ascii.eqb c quote then Some (EmptyString, rest)
          else if Ascii.eqb c "\" then
            match rest with
            | String e rest' =>
                let plain (x : ascii) :=
                  match string_body fuel' rest' with
                  | Some (body, after) => Some (String x body, after)
                  | None => None
                  end in
                if Ascii.eqb e quote then plain quote
                else if Ascii.eqb e "\" then plain "\"%char
                else if Ascii.eqb e "/" then plain "/"%char
                else if Ascii.eqb e "b" then plain (ascii_of_nat 8)
                else if Ascii.eqb e "f" then plain (ascii_of_nat 12)
                else if Ascii.eqb e "n" then plain (ascii_of_nat 10)
                else if Ascii.eqb e "r" then plain (ascii_of_nat 13)
                else if Ascii.eqb e "t" then plain (ascii_of_nat 9)
                else if Ascii.eqb e "u" then
                  match unicode_escape rest' with
                  | Some (x, rest'') =>
                      match string_body fuel' rest'' with
                      | Some (body, after) => Some (String x body, after)
                      | None => None
                      end
                  | None => None
                  end
                else None
            | EmptyString => None
            end
          else if (nat_of_ascii c <? 32)%nat then None
          else
            match string_body fuel' rest with
            | Some (body, after) => Some (String c body, after)
            | None => None
            end
      end
  end.

(** A run of digits: its value, how many there are, and the rest. *)
Fixpoint digits (acc : Z) (n : nat) (s : string) : Z * nat * string :=
  match s with
  | String c rest =>
      match digit_of c with
      | Some d => digits (10 * acc + d) (S n) rest
      | None => (acc, n, s)
      end
  | EmptyString => (acc, n, s)
  end.

Definition starts_with_zero (s : string) : bool :=
  match s with String c _ => Ascii.eqb c "0" | EmptyString => false end.

(** A number without its sign: an [int] when it has neither fraction nor
    exponent, else a [float]. *)
Definition unsigned_number (sign : Z) (s : string) : option (pyval * string) :=
  let '(int_part, int_len, after_int) := digits 0 0 s in
  if (int_len =? 0)%nat then None
  else if starts_with_zero s && (1 <? int_len)%nat then None
  else
    let frac :=
      match after_int with
      | String "." rest =>
          let '(m, k, after) := digits int_part 0 rest in
          if (k =? 0)%nat then None else Some (m, k, after, true)
      | _ => Some (int_part, 0%nat, after_int, false)
      end in
    match frac with
    | None => None
    | Some (m, k, after_frac, has_frac) =>
        let with_exp (rest : string) (exp_sign : Z) :=
          let '(e, n, after) := digits 0 0 rest in
          if (n =? 0)%nat then None
          else Some (PFloat (sign * m) (exp_sign * e - Z.of_nat k), after) in
        match after_frac with
        | String c rest =>
            if Ascii.eqb c "e" || Ascii.eqb c "E" then
              match rest with
              | String "+" rest' => with_exp rest' 1%Z
              | String "-" rest' => with_exp rest' (-1)%Z
              | _ => with_exp rest 1%Z
              end
            else if has_frac then Some (PFloat (sign * m) (- Z.of_nat k), after_frac)
            else Some (PInt (sign * m), after_frac)
        | EmptyString =>
            if has_frac then Some (PFloat (sign * m) (- Z.of_nat k), after_frac)
            else Some (PInt (sign * m), after_frac)
        end
    end.

(** [d[k] = v] on a dict under construction: a repeated key keeps its
    place and takes the later value. *)
Fixpoint set_item (k : string) (v : pyval) (d : dict) : dict :=
  match d with
  | [] => [(k, v)]
  | (k', v') :: d' =>
      if String.eqb k k' then (k, v) :: d' else (k', v') :: set_item k v d'
  end.

Fixpoint value (fuel : nat) (s : string) {struct fuel} : option (pyval * string) :=
  match fuel with
  | O => None
  | S fuel' =>
      match skip_ws s with
      | String c rest =>
          if Ascii.eqb c "{" then
            match skip_ws rest with
            | String "}" after => Some (PDict [], after)
            | _ => members fuel' [] rest
            end
          else if Ascii.eqb c "[" then
            match skip_ws rest with
            | String "]" after => Some (PList [], after)
            | _ => elements fuel' [] rest
            end
          else if Ascii.eqb c quote then
            match string_body (String.length rest) rest with
            | Some (body, after) => Some (PStr body, after)
            | None => None
            end
          else if Ascii.eqb c "-" then unsigned_number (-1) rest
          else if startswith "true" (String c rest)
          then Some (PBool true, drop 4 (String c rest))
          else if startswith "false" (String c rest)
          then Some (PBool false, drop 5 (String c rest))
          else if startswith "null" (String c rest)
          then Some (PNone, drop 4 (String c rest))
          else unsigned_number 1 (String c rest)
      | EmptyString => None
      end
  end
with elements (fuel : nat) (acc : list pyval) (s : string) {struct fuel}
  : option (pyval * string) :=
  match fuel with
  | O => None
  | S fuel' =>
      match value fuel' s with
      | Some (v, after) =>
          match skip_ws after with
          | String "," rest => elements fuel' (acc ++ [v]) rest
          | String "]" rest => Some (PList (acc ++ [v]), rest)
          | _ => None
          end
      | None => None
      end
  end
with members (fuel : nat) (acc : dict) (s : string) {struct fuel}
  : option (pyval * string) :=
  match fuel with
  | O => None
  | S fuel' =>
      match skip_ws s with
      | String c rest =>
          if negb (Ascii.eqb c quote) then None else
          match string_body (String.length rest) rest with
          | Some (key, after_key) =>
              match skip_ws after_key with
              | String ":" rest' =>
                  match value fuel' rest' with
                  | Some (v, after) =>
                      match skip_ws after with
                      | String "," rest'' => members fuel' (set_item key v acc) rest''
                      | String "}" rest'' => Some (PDict (set_item key v acc), rest'')
                      | _ => None
                      end
                  | None => None
                  end
              | _ => None
              end
          | None => None
          end
      | EmptyString => None
      end
  end.

(** [json.loads(s)]: one value, then only whitespace. *)
Definition loads (s : string) : option pyval :=
  match value (S (String.length s)) s with
  | Some (v, after) =>
      match skip_ws after with
      | EmptyString => Some v
      | _ => None
      end
  | None => None
  end.

Example loads_chunk :
  loads (dq "{'choices':[{'delta':{'content':'Hello'},'finish_reason':null}]}") =
  Some (PDict [("choices",
                PList [PDict [("delta", PDict [("content", PStr "Hello")]);
                              ("finish_reason", PNone)]])]).
Proof. reflexivity. Qed.

Example loads_numbers :
  loads (dq " [1, -20, 2.50, 1e3, true, 'a\nb\u0041'] ") =
  Some (PList [PInt 1; PInt (-20); PFloat 250 (-2); PFloat 1 3; PBool true;
               PStr ("a" ++ String (ascii_of_nat 10) "bA")]).
Proof. reflexivity. Qed.

Example loads_truncated : loads (dq "{'choices':[{'delta':") = None.
Proof. reflexivity. Qed.

Example loads_trailing : loads "{} x" = None.
Proof. reflexivity. Qed.

End Json.

(** ** Error Classifier: [handle_quota_rate_limit_error] *)

Module ErrorClassifier.
Import PyStr Py.

(** [HTTPException(status_code=..., detail=...)] *)
Record HTTPException : Type := {
  status_code : Z;
  detail : pyval
}.

Definition ValueError (msg : string) : exn :=
  Exn ["ValueError"; "Exception"; "BaseException"] msg.

(** [str(n)] for an integer *)
Definition str_of_int (n : Z) : string := NilZero.string_of_int (Z.to_int n).

(** *** The text searches *)

(** [s[:-1]] *)
Fixpoint drop_last (s : string) : string :=
  match s with
  | EmptyString => EmptyString
  | String c s' =>
      match s' with
      | EmptyString => EmptyString
      | String _ _ => String c (drop_last s')
      end
  end.

(** [s.replace(old, new)] for the two-character [old] made of [a] and
    [b]: the occurrences are taken from the left and do not overlap. *)
Fixpoint replace2 (a b : ascii) (new : string) (s : string) : string :=
  match s with
  | EmptyString => EmptyString
  | String x s' =>
      match s' with
      | EmptyString => s
      | String y rest =>
          if Ascii.eqb x a && Ascii.eqb y b
          then new ++ replace2 a b new rest
          else String x (replace2 a b new s')
      end
  end.

(** The group of the first search of line 237, for the letter b, an
    apostrophe and an opening brace: from that brace to the end of the
    text. *)
Fixpoint bytes_group (s : string) : option string :=
  match s with
  | EmptyString => None
  | String _ s' => if startswith "b'{" s then Some (drop 2 s) else bytes_group s'
  end.

(** The text up to and including the last [c]. *)
Fixpoint upto_last (c : ascii) (s : string) : option string :=
  match s with
  | EmptyString => None
  | String a s' =>
      match upto_last c s' with
      | Some t => Some (String a t)
      | None => if Ascii.eqb a c then Some (String a EmptyString) else None
      end
  end.

(** [re.search(r'\{.*\}', s, re.DOTALL).group()]: from the first opening
    brace to the last closing brace after it. *)
Fixpoint braces_span (s : string) : option string :=
  match s with
  | EmptyString => None
  | String a s' =>
      if Ascii.eqb a "{" then
        match upto_last "}" s' with
        | Some t => Some (String a t)
        | None => None
        end
      else braces_span s'
  end.

(** [\d] on code points below 256. *)
Definition isdigit (c : ascii) : bool :=
  let n := nat_of_ascii c in ((48 <=? n) && (n <=? 57))%nat.

Fixpoint digits_prefix (s : string) : string :=
  match s with
  | EmptyString => EmptyString
  | String c s' => if isdigit c then String c (digits_prefix s') else EmptyString
  end.

(** [re.search(r'(\d+)', s).group(1)] *)
Fixpoint first_number (s : string) : option string :=
  match s with
  | EmptyString => None
  | String c s' => if isdigit c then Some (digits_prefix s) else first_number s'
  end.

Fixpoint int_digits (acc : Z) (s : string) : Z :=
  match s with
  | EmptyString => acc
  | String c s' => int_digits (10 * acc + Z.of_nat (nat_of_ascii c - 48)) s'
  end.

(** [int(digits)] on a run of digits: the conversion refuses more than
    4300 of them. *)
Definition py_int (digits : string) : res Z :=
  if (4300 <? String.length digits)%nat
  then Raise (ValueError
                ("Exceeds the limit (4300 digits) for integer string conversion: value has "
                 ++ str_of_int (Z.of_nat (String.length digits)) ++
                 " digits; use sys.set_int_max_str_digits() to increase the limit"))
  else Ok (int_digits 0 digits).

Definition is_quote (c : ascii) : bool :=
  Ascii.eqb c Json.quote || Ascii.eqb c "'".

(** The optional quote of the pattern. *)
Definition skip_quote (s : string) : string :=
  match s with
  | EmptyString => s
  | String c s' => if is_quote c then s' else s
  end.

(** The pattern of line 394 matched at the head of [s]: the word
    retryDelay in either case, an optional quote, white space, a colon,
    white space, an optional quote, and the run of digits that is its
    group. *)
Definition retry_match_here (s : string) : option string :=
  if String.eqb (lower (take 10 s)) "retrydelay" then
    match lstrip (skip_quote (drop 10 s)) with
    | EmptyString => None
    | String c s' =>
        if Ascii.eqb c ":" then
          match digits_prefix (skip_quote (lstrip s')) with
          | EmptyString => None
          | digits => Some digits
          end
        else None
    end
  else None.

(** [re.search] of that pattern: the first place where it matches. *)
Fixpoint retry_search (s : string) : option string :=
  match retry_match_here s with
  | Some digits => Some digits
  | None =>
      match s with
      | EmptyString => None
      | String _ s' => retry_search s'
      end
  end.

(** *** Operations on decoded values *)

(** [k in v] *)
Definition py_in (k : string) (v : pyval) : res bool :=
  match v with
  | PDict d => Ok (has_key k d)
  | PList l => Ok (existsb (fun x => eq_str x k) l)
  | PStr s => Ok (contains k s)
  | _ => Raise (TypeError ("argument of type '" ++ type_name v ++
                           "' is not iterable"))
  end.

(** [v[k]] for a string [k] *)
Definition subscript (v : pyval) (k : string) : res pyval :=
  match v with
  | PDict d =>
      match lookup k d with
      | Some x => Ok x
      | None => Raise (KeyError ("'" ++ k ++ "'"))
      end
  | PList _ => Raise (TypeError "list indices must be integers or slices, not str")
  | PStr _ => Raise (TypeError "string indices must be integers, not 'str'")
  | _ => Raise (TypeError ("'" ++ type_name v ++ "' object is not subscriptable"))
  end.

(** [for x in v]: the items that the loop visits. *)
Definition iterate (v : pyval) : res (list pyval) :=
  match v with
  | PList l => Ok l
  | PDict d => Ok (map (fun kv => PStr (fst kv)) d)
  | PStr s => Ok (map (fun c => PStr (String c EmptyString)) (list_ascii_of_string s))
  | _ => Raise (TypeError ("'" ++ type_name v ++ "' object is not iterable"))
  end.

(** [v.lower()]: only a [str] has [lower]. *)
Definition py_lower (v : pyval) : res string :=
  match v with
  | PStr s => Ok (lower s)
  | _ => Raise (AttributeError
                  ("'" ++ type_name v ++ "' object has no attribute 'lower'"))
  end.

Definition quota_failure : string := "type.googleapis.com/google.rpc.QuotaFailure".
Definition retry_info : string := "type.googleapis.com/google.rpc.RetryInfo".

Definition exhaustion_indicators : list string :=
  [ "requests_per_day";
    "generate_content_free_tier_requests";
    "tokens_per_day";
    "characters_per_day" ].

Definition rate_limit_indicators : list string :=
  [ "requests_per_minute";
    "tokens_per_minute";
    "characters_per_minute" ].

(** [for indicator in indicators: if indicator in metric: ... break] *)
Definition any_indicator (indicators : list string) (metric : string) : bool :=
  existsb (fun indicator => contains indicator metric) indicators.

Section Handler.

(** [json.loads] on a [str]: a value, a [JSONDecodeError], or another
    exception of the decoder. *)
Variable json_loads : string -> res pyval.

(** [str(v)] of a value that is not a [str]. *)
Variable py_str : pyval -> string.

(** *** [parse_gemini_error_details] *)

(** Lines 251-260: the prefixes of [json_str] that end in a closing
    brace, the longest first; [n] is one more than the index looked at. *)
Fixpoint retry_truncated (json_str : string) (n : nat) : res pyval :=
  match n with
  | O => Raise (JSONDecodeError
                  "Could not parse truncated JSON: line 1 column 1 (char 0)")
  | S i =>
      match String.get i json_str with
      | Some c =>
          if Ascii.eqb c "}" then
            match json_loads (take (S i) json_str) with
            | Ok error_json => Ok error_json
            | Raise e =>
                if isinstance_exn "JSONDecodeError" e
                then retry_truncated json_str i
                else Raise e
            end
          else retry_truncated json_str i
      | None => retry_truncated json_str i
      end
  end.

(** Lines 236-270: the JSON of the error text. *)
Definition find_error_json (error_msg : string) : res pyval :=
  match bytes_group error_msg with
  | Some json_str =>
      let json_str :=
        if endswith_char "'" json_str then drop_last json_str else json_str in
      let json_str :=
        replace2 "\" Json.quote (String Json.quote EmptyString)
          (replace2 "\" "n" (String (ascii_of_nat 10) EmptyString) json_str) in
      match json_loads json_str with
      | Ok error_json => Ok error_json
      | Raise e =>
          if isinstance_exn "JSONDecodeError" e
          then retry_truncated json_str (String.length json_str)
          else Raise e
      end
  | None =>
      match braces_span error_msg with
      | Some json_str => json_loads json_str
      | None => Raise (ValueError "No JSON found in error message")
      end
  end.

(** Lines 280-292: one turn of the loop over the details. *)
Definition detail_step (details : dict) (detail : pyval) : res dict :=
  type <- py_get detail "@type" PNone ;;
  if eq_str type quota_failure then
    violations <- py_get detail "violations" (PList []) ;;
    if truthy violations then
      violation <- first_item violations ;;
      quota_metric <- py_get violation "quotaMetric" (PStr "") ;;
      quota_id <- py_get violation "quotaId" (PStr "") ;;
      quota_value <- py_get violation "quotaValue" (PStr "") ;;
      dimensions <- py_get violation "quotaDimensions" (PDict []) ;;
      quota_model <- py_get dimensions "model" (PStr "") ;;
      Ok (Json.set_item "quota_model" quota_model
            (Json.set_item "quota_value" quota_value
               (Json.set_item "quota_id" quota_id
                  (Json.set_item "quota_metric" quota_metric details))))
    else Ok details
  else if eq_str type retry_info then
    retry_delay <- py_get detail "retryDelay" (PStr "") ;;
    Ok (Json.set_item "retry_delay" retry_delay details)
  else Ok details.

Fixpoint details_loop (details : dict) (items : list pyval) : res dict :=
  match items with
  | [] => Ok details
  | detail :: rest =>
      details <- detail_step details detail ;;
      details_loop details rest
  end.

(** Lines 226-294: the body of the [try]. *)
Definition parsed_details (error_msg : string) : res dict :=
  error_json <- find_error_json error_msg ;;
  error <- py_get error_json "error" (PDict []) ;;
  code <- py_get error "code" PNone ;;
  status <- py_get error "status" PNone ;;
  message <- py_get error "message" (PStr "") ;;
  listed <- py_get error "details" (PList []) ;;
  items <- iterate listed ;;
  details_loop [("error_code", code); ("error_status", status);
                ("message", message)] items.

(** [except (json.JSONDecodeError, KeyError, AttributeError, ValueError)] *)
Definition parser_catches (e : exn) : bool :=
  isinstance_exn "JSONDecodeError" e || isinstance_exn "KeyError" e ||
  isinstance_exn "AttributeError" e || isinstance_exn "ValueError" e.

Definition parse_gemini_error_details (error_msg : string) : res dict :=
  match parsed_details error_msg with
  | Ok details => Ok details
  | Raise e =>
      if parser_catches e then
        Ok [("parsing_failed", PBool true);
            ("raw_snippet",
             PStr (if (500 <? String.length error_msg)%nat
                   then take 500 error_msg ++ "..."
                   else error_msg))]
      else Raise e
  end.

(** *** [extract_retry_delay] *)

(** Lines 383-390: the loop over the details; [None] when it ends
    without a [return]. *)
Fixpoint retry_info_delay (items : list pyval) : res (option Z) :=
  match items with
  | [] => Ok None
  | detail :: rest =>
      type <- py_get detail "@type" PNone ;;
      if eq_str type retry_info then
        retry_delay_str <- py_get detail "retryDelay" (PStr "60s") ;;
        match retry_delay_str with
        | PStr s =>
            match first_number s with
            | Some digits => n <- py_int digits ;; Ok (Some n)
            | None => retry_info_delay rest
            end
        | v => Raise (TypeError ("expected string or bytes-like object, got '"
                                 ++ type_name v ++ "'"))
        end
      else retry_info_delay rest
  end.

(** Lines 377-390: the body of the [try]. *)
Definition json_retry_delay (error_msg : string) : res (option Z) :=
  match braces_span error_msg with
  | Some json_str =>
      error_json <- json_loads json_str ;;
      has_error <- py_in "error" error_json ;;
      if has_error then
        error <- subscript error_json "error" ;;
        has_details <- py_in "details" error ;;
        if has_details then
          listed <- subscript error "details" ;;
          items <- iterate listed ;;
          retry_info_delay items
        else Ok None
      else Ok None
  | None => Ok None
  end.

(** [except (json.JSONDecodeError, KeyError, ValueError)] *)
Definition extractor_catches (e : exn) : bool :=
  isinstance_exn "JSONDecodeError" e || isinstance_exn "KeyError" e ||
  isinstance_exn "ValueError" e.

(** Lines 394-399: the delay written in the text, or sixty. *)
Definition text_retry_delay (error_msg : string) : res Z :=
  match retry_search error_msg with
  | Some digits => py_int digits
  | None => Ok 60%Z
  end.

Definition extract_retry_delay (error_msg : string) : res Z :=
  match json_retry_delay error_msg with
  | Ok (Some n) => Ok n
  | Ok None => text_retry_delay error_msg
  | Raise e =>
      if extractor_catches e then text_retry_delay error_msg else Raise e
  end.

(** *** [handle_quota_rate_limit_error] *)

(** [f"{v}"] *)
Definition format_value (v : pyval) : string :=
  match v with
  | PStr s => s
  | _ => py_str v
  end.

(** The value of [is_quota_exhausted] after the two loops. *)
Definition is_quota_exhausted (quota_metric error_str : string) : bool :=
  if any_indicator exhaustion_indicators quota_metric then true
  else if any_indicator rate_limit_indicators quota_metric then false
  else contains "quota" (lower error_str) ||
       contains "free_tier" (lower error_str).

(** [handle_quota_rate_limit_error], on [error_str = str(error)]; the
    request and the configuration only feed the log lines. *)
Definition handle_quota_rate_limit_error (error_str : string)
  : res HTTPException :=
  quota_details <- parse_gemini_error_details error_str ;;
  retry_delay <- extract_retry_delay error_str ;;
  quota_metric <- py_lower (get "quota_metric" (PStr "") quota_details) ;;
  if is_quota_exhausted quota_metric error_str then
    let google_message :=
      get "message" (PStr "Quota exhausted. Please check your quota limits.")
          quota_details in
    Ok {| status_code := 400; detail := google_message |}
  else
    let google_message :=
      get "message" (PStr "Rate limited. Too many requests.") quota_details in
    Ok {| status_code := 500;
          detail := PStr (format_value google_message ++
                          " (Google suggests waiting " ++
                          str_of_int retry_delay ++
                          "s, but Claude Code will retry faster)") |}.

Lemma any_exhaustion_indicator (m : string) :
  any_indicator exhaustion_indicators m =
  contains "requests_per_day" m ||
  contains "generate_content_free_tier_requests" m ||
  contains "tokens_per_day" m ||
  contains "characters_per_day" m.
Proof.
  unfold any_indicator, exhaustion_indicators. cbn [existsb].
  now rewrite orb_false_r, !orb_assoc.
Qed.

Lemma any_rate_limit_indicator (m : string) :
  any_indicator rate_limit_indicators m =
  contains "requests_per_minute" m ||
  contains "tokens_per_minute" m ||
  contains "characters_per_minute" m.
Proof.
  unfold any_indicator, rate_limit_indicators. cbn [existsb].
  now rewrite orb_false_r, !orb_assoc.
Qed.

End Handler.

(** *** Sample error texts *)

(** A decoder for the examples: the reference decoder, with a
    [JSONDecodeError] where it gives nothing. *)
Definition reference_loads (s : string) : res pyval :=
  match Json.loads s with
  | Some v => Ok v
  | None => Raise (JSONDecodeError "Expecting value: line 1 column 1 (char 0)")
  end.

(** The text of a backend error whose body is [body]. *)
Definition vertex_error (body : string) : string :=
  "litellm.RateLimitError: VertexAIException - b'" ++ body ++ "'".

(** The first two payloads of [test_rate_limit_response.py], each
    written on one line. *)
Definition free_tier_error : string :=
  vertex_error (Json.dq
    "{'error': {'code': 429, 'message': 'You exceeded your current quota, please check your plan and billing details.', 'status': 'RESOURCE_EXHAUSTED', 'details': [{'@type': 'type.googleapis.com/google.rpc.QuotaFailure', 'violations': [{'quotaMetric': 'generativelanguage.googleapis.com/generate_content_free_tier_requests', 'quotaId': 'GenerateRequestsPerDayPerProjectPerModel-FreeTier', 'quotaValue': '50'}]}]}}").

Definition per_minute_error : string :=
  vertex_error (Json.dq
    "{'error': {'code': 429, 'message': 'Rate limit exceeded. Please slow down your requests.', 'status': 'RESOURCE_EXHAUSTED', 'details': [{'@type': 'type.googleapis.com/google.rpc.QuotaFailure', 'violations': [{'quotaMetric': 'generativelanguage.googleapis.com/generate_content_requests_per_minute', 'quotaId': 'RequestsPerMinute', 'quotaValue': '60'}]}, {'@type': 'type.googleapis.com/google.rpc.RetryInfo', 'retryDelay': '5s'}]}}").

(** A daily quota failure whose suggested delay is a number. *)
Definition numeric_delay_error : string :=
  "429 RESOURCE_EXHAUSTED " ++ Json.dq
    "{'error': {'code': 429, 'message': 'Quota exceeded', 'status': 'RESOURCE_EXHAUSTED', 'details': [{'@type': 'type.googleapis.com/google.rpc.QuotaFailure', 'violations': [{'quotaMetric': 'generativelanguage.googleapis.com/generate_requests_per_day'}]}, {'@type': 'type.googleapis.com/google.rpc.RetryInfo', 'retryDelay': 30}]}}".

(** A quota failure whose metric is [null]. *)
Definition null_metric_error : string :=
  "429 " ++ Json.dq
    "{'error': {'code': 429, 'message': 'Quota exceeded', 'details': [{'@type': 'type.googleapis.com/google.rpc.QuotaFailure', 'violations': [{'quotaMetric': null}]}]}}".

(** An error whose details hold a string. *)
Definition string_detail_error : string :=
  "429 quota " ++ Json.dq
    "{'error': {'code': 429, 'message': 'Quota exceeded', 'details': ['x']}}".

(** C1.  When both parsers return and the parsed metric is a [str], the
    handler returns what the claim says: on a metric that contains
    [requests_per_day], [generate_content_free_tier_requests],
    [tokens_per_day] or [characters_per_day], in either case, 400 with
    the parsed message; otherwise, on one that contains
    [requests_per_minute], [tokens_per_minute] or
    [characters_per_minute], 500 with the extracted delay in its detail;
    otherwise 400 when the text mentions [quota] or [free_tier], in
    either case, and 500 when it does not.  The code departs from the
    claim where an exception leaves the handler: on a daily metric with a
    numeric [retryDelay] the metric is parsed and the extraction of the
    delay raises [TypeError]; on a [null] metric line 319 raises
    [AttributeError]; on a detail that is a string the parser falls back
    as its [except] provides and the extraction of the delay, whose
    [except] lacks [AttributeError], raises it. *)
Theorem handle_quota_rate_limit_error_spec
    (json_loads : string -> res pyval) (py_str : pyval -> string)
    (error_str : string) (details : dict) (retry_delay : Z) (metric : string) :
  (parse_gemini_error_details json_loads error_str = Ok details ->
   extract_retry_delay json_loads error_str = Ok retry_delay ->
   get "quota_metric" (PStr "") details = PStr metric ->
   let m := lower metric in
   let daily :=
     contains "requests_per_day" m ||
     contains "generate_content_free_tier_requests" m ||
     contains "tokens_per_day" m ||
     contains "characters_per_day" m in
   let per_minute :=
     contains "requests_per_minute" m ||
     contains "tokens_per_minute" m ||
     contains "characters_per_minute" m in
   let in_text :=
     contains "quota" (lower error_str) ||
     contains "free_tier" (lower error_str) in
   let exhausted :=
     {| status_code := 400;
        detail := get "message"
                    (PStr "Quota exhausted. Please check your quota limits.")
                    details |} in
   let transient :=
     {| status_code := 500;
        detail := PStr (format_value py_str
                          (get "message" (PStr "Rate limited. Too many requests.")
                               details) ++
                        " (Google suggests waiting " ++ str_of_int retry_delay ++
                        "s, but Claude Code will retry faster)") |} in
   (daily = true ->
    handle_quota_rate_limit_error json_loads py_str error_str = Ok exhausted) /\
   (daily = false -> per_minute = true ->
    handle_quota_rate_limit_error json_loads py_str error_str = Ok transient) /\
   (daily = false -> per_minute = false ->
    (in_text = true ->
     handle_quota_rate_limit_error json_loads py_str error_str = Ok exhausted) /\
    (in_text = false ->
     handle_quota_rate_limit_error json_loads py_str error_str = Ok transient))) /\
  (parse_gemini_error_details reference_loads numeric_delay_error =
     Ok [("error_code", PInt 429);
         ("error_status", PStr "RESOURCE_EXHAUSTED");
         ("message", PStr "Quota exceeded");
         ("quota_metric",
          PStr "generativelanguage.googleapis.com/generate_requests_per_day");
         ("quota_id", PStr ""); ("quota_value", PStr "");
         ("quota_model", PStr ""); ("retry_delay", PInt 30)] /\
   handle_quota_rate_limit_error reference_loads py_str numeric_delay_error =
     Raise (TypeError "expected string or bytes-like object, got 'int'")) /\
  handle_quota_rate_limit_error reference_loads py_str null_metric_error =
    Raise (AttributeError "'NoneType' object has no attribute 'lower'") /\
  (parse_gemini_error_details reference_loads string_detail_error =
     Ok [("parsing_failed", PBool true);
         ("raw_snippet", PStr string_detail_error)] /\
   handle_quota_rate_limit_error reference_loads py_str string_detail_error =
     Raise (AttributeError "'str' object has no attribute 'get'")).
Proof.
  split; [|repeat split; vm_compute; reflexivity].
  intros P X Q m daily per_minute in_text exhausted transient.
  unfold handle_quota_rate_limit_error. rewrite P, X. cbn [bind].
  rewrite Q. cbn [py_lower bind]. fold m.
  unfold is_quota_exhausted.
  rewrite any_exhaustion_indicator, any_rate_limit_indicator.
  fold daily. fold per_minute. fold in_text.
  split; [|split].
  - intros D. rewrite D. reflexivity.
  - intros D R. rewrite D, R. reflexivity.
  - intros D R. rewrite D, R. split; intros T; rewrite T; reflexivity.
Qed.

(** The two sample payloads: the free-tier one gives 400 with the
    backend's message, the per-minute one 500 with the delay of five
    seconds. *)
Lemma handle_quota_rate_limit_error_spec_witness :
  handle_quota_rate_limit_error reference_loads (fun _ => "") free_tier_error =
    Ok {| status_code := 400;
          detail := PStr "You exceeded your current quota, please check your plan and billing details." |} /\
  handle_quota_rate_limit_error reference_loads (fun _ => "") per_minute_error =
    Ok {| status_code := 500;
          detail := PStr "Rate limit exceeded. Please slow down your requests. (Google suggests waiting 5s, but Claude Code will retry faster)" |}.
Proof.
  split.
  - assert (P : parse_gemini_error_details reference_loads free_tier_error =
                Ok [("error_code", PInt 429);
                    ("error_status", PStr "RESOURCE_EXHAUSTED");
                    ("message", PStr "You exceeded your current quota, please check your plan and billing details.");
                    ("quota_metric", PStr "generativelanguage.googleapis.com/generate_content_free_tier_requests");
                    ("quota_id", PStr "GenerateRequestsPerDayPerProjectPerModel-FreeTier");
                    ("quota_value", PStr "50");
                    ("quota_model", PStr "")])
      by (vm_compute; reflexivity).
    assert (X : extract_retry_delay reference_loads free_tier_error = Ok 60%Z)
      by (vm_compute; reflexivity).
    exact (proj1 (proj1 (handle_quota_rate_limit_error_spec
                           reference_loads (fun _ => "") free_tier_error _ 60
                           "generativelanguage.googleapis.com/generate_content_free_tier_requests")
                        P X eq_refl) eq_refl).
  - assert (P : parse_gemini_error_details reference_loads per_minute_error =
                Ok [("error_code", PInt 429);
                    ("error_status", PStr "RESOURCE_EXHAUSTED");
                    ("message", PStr "Rate limit exceeded. Please slow down your requests.");
                    ("quota_metric", PStr "generativelanguage.googleapis.com/generate_content_requests_per_minute");
                    ("quota_id", PStr "RequestsPerMinute");
                    ("quota_value", PStr "60");
                    ("quota_model", PStr "");
                    ("retry_delay", PStr "5s")])
      by (vm_compute; reflexivity).
    assert (X : extract_retry_delay reference_loads per_minute_error = Ok 5%Z)
      by (vm_compute; reflexivity).
    exact (proj1 (proj2 (proj1 (handle_quota_rate_limit_error_spec
                                  reference_loads (fun _ => "") per_minute_error _ 5
                                  "generativelanguage.googleapis.com/generate_content_requests_per_minute")
                               P X eq_refl)) eq_refl eq_refl).
Defined.

(** Without a payload the text decides. *)
Example unparsed_quota_text :
  handle_quota_rate_limit_error reference_loads (fun _ => "") "429 Quota exceeded" =
  Ok {| status_code := 400;
        detail := PStr "Quota exhausted. Please check your quota limits." |}.
Proof. vm_compute. reflexivity. Qed.

Example unparsed_other_text :
  handle_quota_rate_limit_error reference_loads (fun _ => "")
    "429 Too Many Requests, retryDelay: 7s" =
  Ok {| status_code := 500;
        detail := PStr "Rate limited. Too many requests. (Google suggests waiting 7s, but Claude Code will retry faster)" |}.
Proof. vm_compute. reflexivity. Qed.

End ErrorClassifier.

(** ** Streaming Reassembler: [handle_streaming_with_recovery] *)

Module Streaming.
Import PyStr Py.

(** *** Chunks

    A chunk object of the backend library is a record with the attribute
    types of that library's streaming classes; an absent attribute and a
    [None] one are both [None].  Any other chunk is a value: a [str]
    fragment, a [dict], or something the loop skips. *)
Record Function : Type := {
  name : option string;
  arguments : option string
}.

Record ToolCallDelta : Type := {
  id : option string;
  function : option Function
}.

Record Delta : Type := {
  content : option string;
  tool_calls : option (list ToolCallDelta)
}.

Record Choice : Type := {
  delta : option Delta;
  finish_reason : option string
}.

Record UsageSnapshot : Type := {
  prompt_tokens : Z;
  completion_tokens : Z
}.

Record ModelResponse : Type := {
  choices : list Choice;
  usage : option UsageSnapshot
}.

Inductive chunk : Type :=
| Value (v : pyval)
| Response (o : ModelResponse).

(** What [await anext(stream_iterator)] gives: a chunk, or an exception.
    The end of the list is [StopAsyncIteration]. *)
Inductive fetch : Type :=
| Got (c : chunk)
| Failed (e : exn).

(** *** Events *)

Inductive event : Type :=
| message_start (model : string) (input_tokens : Z)
| content_block_start_text (index : nat)
| ping
| text_delta (index : nat) (text : string)
| content_block_start_tool_use (index : nat) (id : option string) (name : string)
| input_json_delta (index : nat) (partial_json : string)
| content_block_stop (index : nat)
| message_delta (stop_reason : Response.StopReason) (input_tokens output_tokens : pyval)
| message_stop.

(** *** State *)

Record tool_entry : Type := {
  index : nat;
  entry_name : string;
  args_buffer : string
}.

Record state : Type := {
  all_chunks : list chunk;
  accumulated_text : string;
  tool_block_counter : nat;
  current_tool_calls : list (option string * tool_entry);
  input_tokens : pyval;
  output_tokens : pyval;
  final_stop_reason : Response.StopReason;
  consecutive_errors : nat;
  stream_terminated_early : bool;
  malformed_chunks_count : nat;
  chunk_buffer : string
}.

Definition text_block_index : nat := 0.
Definition max_consecutive_errors : nat := 10.
Definition max_malformed_chunks : nat := 20.

(** The state after lines 937-954: the running input-token count starts
    at zero, whatever the caller has passed. *)
Definition initial : state :=
  {| all_chunks := [];
     accumulated_text := "";
     tool_block_counter := 0;
     current_tool_calls := [];
     input_tokens := PInt 0;
     output_tokens := PInt 0;
     final_stop_reason := Response.end_turn;
     consecutive_errors := 0;
     stream_terminated_early := false;
     malformed_chunks_count := 0;
     chunk_buffer := "" |}.

(** Assignments to the variables of the handler. *)
Definition set_all_chunks (x : list chunk) (st : state) : state :=
  {| all_chunks := x; accumulated_text := accumulated_text st;
     tool_block_counter := tool_block_counter st;
     current_tool_calls := current_tool_calls st;
     input_tokens := input_tokens st; output_tokens := output_tokens st;
     final_stop_reason := final_stop_reason st;
     consecutive_errors := consecutive_errors st;
     stream_terminated_early := stream_terminated_early st;
     malformed_chunks_count := malformed_chunks_count st;
     chunk_buffer := chunk_buffer st |}.

Definition set_accumulated_text (x : string) (st : state) : state :=
  {| all_chunks := all_chunks st; accumulated_text := x;
     tool_block_counter := tool_block_counter st;
     current_tool_calls := current_tool_calls st;
     input_tokens := input_tokens st; output_tokens := output_tokens st;
     final_stop_reason := final_stop_reason st;
     consecutive_errors := consecutive_errors st;
     stream_terminated_early := stream_terminated_early st;
     malformed_chunks_count := malformed_chunks_count st;
     chunk_buffer := chunk_buffer st |}.

Definition set_tool_calls (counter : nat)
    (calls : list (option string * tool_entry)) (st : state) : state :=
  {| all_chunks := all_chunks st; accumulated_text := accumulated_text st;
     tool_block_counter := counter;
     current_tool_calls := calls;
     input_tokens := input_tokens st; output_tokens := output_tokens st;
     final_stop_reason := final_stop_reason st;
     consecutive_errors := consecutive_errors st;
     stream_terminated_early := stream_terminated_early st;
     malformed_chunks_count := malformed_chunks_count st;
     chunk_buffer := chunk_buffer st |}.

Definition set_tokens (i o : pyval) (st : state) : state :=
  {| all_chunks := all_chunks st; accumulated_text := accumulated_text st;
     tool_block_counter := tool_block_counter st;
     current_tool_calls := current_tool_calls st;
     input_tokens := i; output_tokens := o;
     final_stop_reason := final_stop_reason st;
     consecutive_errors := consecutive_errors st;
     stream_terminated_early := stream_terminated_early st;
     malformed_chunks_count := malformed_chunks_count st;
     chunk_buffer := chunk_buffer st |}.

Definition set_final_stop_reason (x : Response.StopReason) (st : state) : state :=
  {| all_chunks := all_chunks st; accumulated_text := accumulated_text st;
     tool_block_counter := tool_block_counter st;
     current_tool_calls := current_tool_calls st;
     input_tokens := input_tokens st; output_tokens := output_tokens st;
     final_stop_reason := x;
     consecutive_errors := consecutive_errors st;
     stream_terminated_early := stream_terminated_early st;
     malformed_chunks_count := malformed_chunks_count st;
     chunk_buffer := chunk_buffer st |}.

Definition set_consecutive_errors (x : nat) (st : state) : state :=
  {| all_chunks := all_chunks st; accumulated_text := accumulated_text st;
     tool_block_counter := tool_block_counter st;
     current_tool_calls := current_tool_calls st;
     input_tokens := input_tokens st; output_tokens := output_tokens st;
     final_stop_reason := final_stop_reason st;
     consecutive_errors := x;
     stream_terminated_early := stream_terminated_early st;
     malformed_chunks_count := malformed_chunks_count st;
     chunk_buffer := chunk_buffer st |}.

Definition set_stream_terminated_early (x : bool) (st : state) : state :=
  {| all_chunks := all_chunks st; accumulated_text := accumulated_text st;
     tool_block_counter := tool_block_counter st;
     current_tool_calls := current_tool_calls st;
     input_tokens := input_tokens st; output_tokens := output_tokens st;
     final_stop_reason := final_stop_reason st;
     consecutive_errors := consecutive_errors st;
     stream_terminated_early := x;
     malformed_chunks_count := malformed_chunks_count st;
     chunk_buffer := chunk_buffer st |}.

Definition set_malformed_chunks_count (x : nat) (st : state) : state :=
  {| all_chunks := all_chunks st; accumulated_text := accumulated_text st;
     tool_block_counter := tool_block_counter st;
     current_tool_calls := current_tool_calls st;
     input_tokens := input_tokens st; output_tokens := output_tokens st;
     final_stop_reason := final_stop_reason st;
     consecutive_errors := consecutive_errors st;
     stream_terminated_early := stream_terminated_early st;
     malformed_chunks_count := x;
     chunk_buffer := chunk_buffer st |}.

Definition set_chunk_buffer (x : string) (st : state) : state :=
  {| all_chunks := all_chunks st; accumulated_text := accumulated_text st;
     tool_block_counter := tool_block_counter st;
     current_tool_calls := current_tool_calls st;
     input_tokens := input_tokens st; output_tokens := output_tokens st;
     final_stop_reason := final_stop_reason st;
     consecutive_errors := consecutive_errors st;
     stream_terminated_early := stream_terminated_early st;
     malformed_chunks_count := malformed_chunks_count st;
     chunk_buffer := x |}.

(** *** Malformed fragments *)

Definition malformed_singles : list string :=
  ["{"; "}"; "["; "]"; ","; ":"; Json.dq "'"; "'"].

Definition malformed_patterns : list string :=
  [Json.dq "{'"; Json.dq "'}"; "[{"; "}]"; "{}"; "[]";
   "null"; Json.dq "''"; "''"; " "; "";
   "{,"; ",}"; "[,"; ",]"].

(** [is_malformed_chunk], on a [str]. *)
Definition is_malformed_chunk (chunk_str : string) : bool :=
  if String.eqb chunk_str "" then true
  else
    let chunk_stripped := strip chunk_str in
    if String.eqb chunk_stripped "" then true
    else if mem chunk_stripped malformed_singles then true
    else if mem chunk_stripped malformed_patterns then true
    else if startswith "{" chunk_stripped &&
            negb (endswith_char "}" chunk_stripped) &&
            (String.length chunk_stripped <? 15)%nat then true
    else if startswith "[" chunk_stripped &&
            negb (endswith_char "]" chunk_stripped) &&
            (String.length chunk_stripped <? 10)%nat then true
    else if negb (count "{" chunk_stripped =? count "}" chunk_stripped)%nat &&
            (String.length chunk_stripped <? 20)%nat then true
    else if negb (count "[" chunk_stripped =? count "]" chunk_stripped)%nat &&
            (String.length chunk_stripped <? 20)%nat then true
    else false.

(** *** The loop body *)

(** How one turn of [while True] ends. *)
Inductive status : Type :=
| Continue
| Break
| Propagate (e : exn).

(** What [litellm.stream_chunk_builder(all_chunks)] gives to the final
    block: an exception, a response without a usable [usage], or the
    completion tokens of its usage. *)
Inductive built : Type :=
| BuilderRaises (e : exn)
| BuilderNoUsage
| BuilderUsage (completion_tokens : Z).

(** The chunk-level finish reason, mapped at lines 1159-1167. *)
Definition map_chunk_finish_reason (chunk_finish_reason : pyval)
  : Response.StopReason :=
  if eq_str chunk_finish_reason "length" then Response.max_tokens
  else if eq_str chunk_finish_reason "tool_calls" then Response.tool_use
  else if eq_str chunk_finish_reason "stop" then Response.end_turn
  else Response.end_turn.

(** The values of [delta_tool_calls]: nothing, a JSON value read from a
    dict chunk, or the tool-call objects of a chunk object. *)
Inductive tool_deltas : Type :=
| NoToolCalls
| JsonToolCalls (v : pyval)
| ObjectToolCalls (l : list ToolCallDelta).

Definition opt_str (o : option string) : pyval :=
  match o with Some s => PStr s | None => PNone end.

Definition key_eqb (a b : option string) : bool :=
  match a, b with
  | Some x, Some y => String.eqb x y
  | None, None => true
  | _, _ => false
  end.

(** [current_tool_calls.get(key)] *)
Fixpoint find_call (key : option string)
    (calls : list (option string * tool_entry)) : option tool_entry :=
  match calls with
  | [] => None
  | (k, e) :: rest => if key_eqb key k then Some e else find_call key rest
  end.

(** [current_tool_calls[key]["args_buffer"] += a] *)
Fixpoint append_args (key : option string) (a : string)
    (calls : list (option string * tool_entry))
  : list (option string * tool_entry) :=
  match calls with
  | [] => []
  | (k, e) :: rest =>
      if key_eqb key k
      then (k, {| index := index e; entry_name := entry_name e;
                  args_buffer := args_buffer e ++ a |}) :: rest
      else (k, e) :: append_args key a rest
  end.

(** One turn of [for tc_chunk in delta_tool_calls] on a tool-call object. *)
Definition tool_call_step (acc : state * list event) (tc_chunk : ToolCallDelta)
  : state * list event :=
  match function tc_chunk with
  | None => acc
  | Some f =>
      match name f with
      | None => acc
      | Some n =>
          if String.eqb n "" then acc
          else
            let '(st, ev) := acc in
            let tool_call_id := id tc_chunk in
            let '(st1, ev1) :=
              match find_call tool_call_id (current_tool_calls st) with
              | Some _ => (st, ev)
              | None =>
                  let counter := S (tool_block_counter st) in
                  let tool_index := text_block_index + counter in
                  let entry :=
                    {| index := tool_index; entry_name := n;
                       args_buffer := match arguments f with
                                      | Some a => a
                                      | None => ""
                                      end |} in
                  (set_tool_calls counter
                     (current_tool_calls st ++ [(tool_call_id, entry)])%list st,
                   (ev ++ [content_block_start_tool_use tool_index tool_call_id n])%list)
              end in
            match arguments f with
            | None => (st1, ev1)
            | Some a =>
                if String.eqb a "" then (st1, ev1)
                else
                  let calls := append_args tool_call_id a (current_tool_calls st1) in
                  (set_tool_calls (tool_block_counter st1) calls st1,
                   (ev1 ++ [input_json_delta
                              (match find_call tool_call_id calls with
                               | Some e => index e
                               | None => 0
                               end) a])%list)
            end
      end
  end.

Section Handler.

(** [json.loads]: [None] is a [JSONDecodeError]. *)
Variable json_loads : string -> option pyval.

Variable stream_chunk_builder : list chunk -> built.

(** The loop of [try_parse_buffered_chunk]: [rest] is [buffer[i:]]. *)
Fixpoint scan (buffer rest : string) (i : nat) (brace_count : Z)
    (start_pos : option nat) : pyval * string :=
  match rest with
  | EmptyString => (PNone, buffer)
  | String char rest' =>
      if Ascii.eqb char "{" then
        scan buffer rest' (S i) (brace_count + 1)
             (match start_pos with None => Some i | Some _ => start_pos end)
      else if Ascii.eqb char "}" then
        let brace_count := (brace_count - 1)%Z in
        match start_pos with
        | Some start =>
            if (brace_count =? 0)%Z then
              match json_loads (take (S i - start) (drop start buffer)) with
              | Some parsed => (parsed, drop (S i) buffer)
              | None => scan buffer rest' (S i) brace_count start_pos
              end
            else scan buffer rest' (S i) brace_count start_pos
        | None => scan buffer rest' (S i) brace_count start_pos
        end
      else scan buffer rest' (S i) brace_count start_pos
  end.

(** [try_parse_buffered_chunk]; [PNone] is its [None]. *)
Definition try_parse_buffered_chunk (buffer : string) : pyval * string :=
  if String.eqb (strip buffer) "" then (PNone, "")
  else scan buffer buffer 0 0%Z None.

(** Lines 1103-1118: the two deltas and the finish reason of a chunk. *)
Definition extract_deltas (c : chunk) : res (pyval * tool_deltas * pyval) :=
  match c with
  | Response o =>
      match choices o with
      | choice :: _ =>
          let '(text, calls) :=
            match delta choice with
            | Some d =>
                (opt_str (content d),
                 match tool_calls d with
                 | Some l => ObjectToolCalls l
                 | None => NoToolCalls
                 end)
            | None => (PNone, NoToolCalls)
            end in
          Ok (text, calls, opt_str (finish_reason choice))
      | [] => Ok (PNone, NoToolCalls, PNone)
      end
  | Value (PDict d) =>
      let choices := get "choices" (PList []) d in
      if truthy choices then
        choice <- first_item choices ;;
        delta <- py_get choice "delta" (PDict []) ;;
        text <- py_get delta "content" PNone ;;
        calls <- py_get delta "tool_calls" PNone ;;
        finish <- py_get choice "finish_reason" PNone ;;
        Ok (text, JsonToolCalls calls, finish)
      else Ok (PNone, NoToolCalls, PNone)
  | Value _ => Ok (PNone, NoToolCalls, PNone)
  end.

(** Lines 1120-1126: a usage snapshot overwrites the running counts. *)
Definition read_usage (st : state) (c : chunk) : res state :=
  match c with
  | Response o =>
      match usage o with
      | Some u => Ok (set_tokens (PInt (prompt_tokens u))
                                 (PInt (completion_tokens u)) st)
      | None => Ok st
      end
  | Value (PDict d) =>
      if has_key "usage" d then
        let usage := get "usage" PNone d in
        i <- py_get usage "prompt_tokens" (PInt 0) ;;
        o <- py_get usage "completion_tokens" (PInt 0) ;;
        Ok (set_tokens i o st)
      else Ok st
  | Value _ => Ok st
  end.

(** Lines 1129-1131. *)
Definition text_delta_step (st : state) (delta_content_text : pyval)
  : res (state * list event) :=
  if truthy delta_content_text then
    match delta_content_text with
    | PStr t =>
        Ok (set_accumulated_text (accumulated_text st ++ t) st,
            [text_delta text_block_index t])
    | v => Raise (TypeError (Json.dq ("can only concatenate str (not '" ++
                                      type_name v ++ "') to str")))
    end
  else Ok (st, []).

(** Lines 1134-1156.  The items of a JSON value have no attribute
    [function], so the loop over them does nothing; a value that cannot
    be iterated raises. *)
Definition tool_calls_step (st : state) (delta_tool_calls : tool_deltas)
  : res (state * list event) :=
  match delta_tool_calls with
  | NoToolCalls => Ok (st, [])
  | JsonToolCalls v =>
      if truthy v then
        match v with
        | PStr _ | PList _ | PDict _ => Ok (st, [])
        | _ => Raise (TypeError ("'" ++ type_name v ++ "' object is not iterable"))
        end
      else Ok (st, [])
  | ObjectToolCalls l => Ok (fold_left tool_call_step l (st, []))
  end.

(** Lines 1159-1168. *)
Definition finish_step (st : state) (chunk_finish_reason : pyval)
  : state * status :=
  if truthy chunk_finish_reason
  then (set_final_stop_reason (map_chunk_finish_reason chunk_finish_reason) st,
        Break)
  else (st, Continue).

(** Lines 1098-1168, on the chunk that has passed the shape tests. *)
Definition process_structured (st : state) (c : chunk)
  : state * list event * res status :=
  match extract_deltas c with
  | Raise e => (st, [], Raise e)
  | Ok (text, calls, finish) =>
      match read_usage st c with
      | Raise e => (st, [], Raise e)
      | Ok st1 =>
          match text_delta_step st1 text with
          | Raise e => (st1, [], Raise e)
          | Ok (st2, ev1) =>
              match tool_calls_step st2 calls with
              | Raise e => (st2, ev1, Raise e)
              | Ok (st3, ev2) =>
                  let '(st4, s) := finish_step st3 finish in
                  (st4, (ev1 ++ ev2)%list, Ok s)
              end
          end
      end
  end.

(** Lines 1079-1096, then the extraction; the last component is the chunk
    that reaches line 1098, if one does. *)
Definition process_parsed (st : state) (c : chunk)
  : state * list event * res status * option chunk :=
  match c with
  | Value (PDict _) | Response _ => (process_structured st c, Some c)
  | Value (PStr s) =>
      match json_loads s with
      | Some v => (process_structured st (Value v), Some (Value v))
      | None => (st, [], Ok Continue, None)
      end
  | Value _ => (st, [], Ok Continue, None)
  end.

(** Lines 1046-1168: the body of the [try] for a retrieved chunk. *)
Definition process_chunk (st : state) (c : chunk)
  : state * list event * res status * option chunk :=
  let st := set_all_chunks (all_chunks st ++ [c])
              (set_consecutive_errors 0 st) in
  match c with
  | Value (PStr s) =>
      if String.eqb (strip s) "[DONE]" then (st, [], Ok Break, None)
      else if is_malformed_chunk s then
        let st := set_malformed_chunks_count (S (malformed_chunks_count st)) st in
        if (max_malformed_chunks <? malformed_chunks_count st)%nat
        then (set_stream_terminated_early true st, [], Ok Break, None)
        else (st, [], Ok Continue, None)
      else
        let '(parsed_chunk, buffer) :=
          try_parse_buffered_chunk (chunk_buffer st ++ s) in
        let st := set_chunk_buffer buffer st in
        match parsed_chunk with
        | PNone =>
            if (10000 <? Z.of_nat (String.length (chunk_buffer st)))%Z
            then (set_chunk_buffer "" st, [], Ok Continue, None)
            else (st, [], Ok Continue, None)
        | _ => process_parsed st (Value parsed_chunk)
        end
  | _ => process_parsed st c
  end.

(** [except (json.JSONDecodeError, ValueError)], [except
    (APIConnectionError, RuntimeError)] and [except Exception] of the
    loop; an exception that none of them takes leaves the generator. *)
Definition rate_limit_signature (e : exn) : bool :=
  let error_str := exn_msg e in
  contains "RateLimitError" error_str ||
  contains "RateLimitError" (hd "" (exn_mro e)) ||
  contains "rate limit" (lower error_str) ||
  contains "quota" (lower error_str) ||
  contains "429" error_str ||
  contains "RESOURCE_EXHAUSTED" error_str.

(** The warning sent after too many malformed-chunk errors (its leading
    warning sign is left out). *)
Definition malformed_warning : string :=
  String (ascii_of_nat 10)
    " Gemini streaming encountered repeated malformed chunks. This is a known API issue."
  ++ String (ascii_of_nat 10) "".

Definition count_error (st : state) : state * status :=
  let st := set_consecutive_errors (S (consecutive_errors st)) st in
  if (max_consecutive_errors <=? consecutive_errors st)%nat
  then (set_stream_terminated_early true st, Break)
  else (st, Continue).

Definition on_exception (st : state) (e : exn) : state * list event * status :=
  if isinstance_exn "JSONDecodeError" e || isinstance_exn "ValueError" e then
    let '(st, s) := count_error st in (st, [], s)
  else if isinstance_exn "APIConnectionError" e || isinstance_exn "RuntimeError" e then
    let st := set_consecutive_errors (S (consecutive_errors st)) st in
    if contains "Error parsing chunk" (exn_msg e) &&
       contains "Expecting property name enclosed in double quotes" (exn_msg e)
    then
      if (max_consecutive_errors <=? consecutive_errors st)%nat
      then (set_stream_terminated_early true st,
            [text_delta text_block_index malformed_warning], Break)
      else (st, [], Continue)
    else (set_stream_terminated_early true st, [], Break)
  else if isinstance_exn "Exception" e then
    if rate_limit_signature e
    then (* the [HTTPException] raised here is taken by the outer
            [except Exception] *)
      (set_stream_terminated_early true st, [], Break)
    else let '(st, s) := count_error st in (st, [], s)
  else (st, [], Propagate e).

(** The end of the [try] body: an exception raised in it goes to the
    [except] clauses, with the state and the events it has left. *)
Definition settle (t : state * list event * res status * option chunk)
  : state * list event * status * option chunk :=
  let '(st1, ev, r, seen) := t in
  match r with
  | Ok s => (st1, ev, s, seen)
  | Raise e =>
      let '(st2, ev2, s) := on_exception st1 e in
      (st2, (ev ++ ev2)%list, s, seen)
  end.

(** One turn of [while True]. *)
Definition iteration (st : state) (f : fetch)
  : state * list event * status * option chunk :=
  match f with
  | Failed e =>
      if isinstance_exn "StopAsyncIteration" e then (st, [], Break, None)
      else if isinstance_exn "TimeoutError" e
      then (set_stream_terminated_early true st, [], Break, None)
      else (on_exception st e, None)
  | Got c => settle (process_chunk st c)
  end.

(** What the loop leaves: the state, the events sent, an exception that
    has left the generator, and the chunks that reached line 1098. *)
Record looped : Type := {
  final : state;
  sent : list event;
  propagated : option exn;
  extracted : list chunk
}.

Definition seen_list (seen : option chunk) : list chunk :=
  match seen with Some c => [c] | None => [] end.

Fixpoint stream_loop (st : state) (stream : list fetch) : looped :=
  match stream with
  | [] => {| final := st; sent := []; propagated := None; extracted := [] |}
  | f :: rest =>
      let '(st1, ev, s, seen) := iteration st f in
      match s with
      | Continue =>
          let r := stream_loop st1 rest in
          {| final := final r; sent := (ev ++ sent r)%list;
             propagated := propagated r;
             extracted := (seen_list seen ++ extracted r)%list |}
      | Break =>
          {| final := st1; sent := ev; propagated := None;
             extracted := seen_list seen |}
      | Propagate e =>
          {| final := st1; sent := ev; propagated := Some e;
             extracted := seen_list seen |}
      end
  end.

(** Lines 1245-1268: the final events. *)
Definition finalize (st : state) : list event * option exn :=
  let stops :=
    content_block_stop text_block_index ::
    map (fun kv => content_block_stop (index (snd kv))) (current_tool_calls st) in
  let reason :=
    match final_stop_reason st with
    | Response.end_turn =>
        if stream_terminated_early st then Response.error else Response.end_turn
    | r => r
    end in
  match stream_chunk_builder (all_chunks st) with
  | BuilderRaises e =>
      if isinstance_exn "Exception" e then (stops, None) else (stops, Some e)
  | BuilderNoUsage =>
      ((stops ++ [message_delta reason (input_tokens st) (output_tokens st);
                  message_stop])%list, None)
  | BuilderUsage n =>
      ((stops ++ [message_delta reason (input_tokens st) (PInt n);
                  message_stop])%list, None)
  end.

(** [handle_streaming_with_recovery]: the events yielded, and the
    exception that leaves the generator, if any. *)
Definition handle_streaming_with_recovery
    (stream : list fetch) (model : string) (input_tokens : Z)
  : list event * option exn :=
  let opening :=
    [message_start model input_tokens;
     content_block_start_text text_block_index;
     ping] in
  let r := stream_loop initial stream in
  match propagated r with
  | Some e => ((opening ++ sent r)%list, Some e)
  | None =>
      let '(closing, p) := finalize (final r) in
      ((opening ++ sent r ++ closing)%list, p)
  end.

(** Two states that differ at most in the accumulated text and in the
    tool-call table. *)
Definition output_only (st st' : state) : Prop :=
  st' = set_tool_calls (tool_block_counter st') (current_tool_calls st')
          (set_accumulated_text (accumulated_text st') st).

Lemma output_only_refl (st : state) : output_only st st.
Proof. now destruct st. Qed.

Lemma output_only_trans (a b c : state) :
  output_only a b -> output_only b c -> output_only a c.
Proof. unfold output_only. intros H1 H2. rewrite H2, H1. reflexivity. Qed.

Lemma tool_call_step_output (acc : state * list event) (tc : ToolCallDelta) :
  output_only (fst acc) (fst (tool_call_step acc tc)).
Proof.
  unfold tool_call_step.
  destruct (function tc) as [f|]; [|apply output_only_refl].
  destruct (name f) as [n|]; [|apply output_only_refl].
  destruct (String.eqb n ""); [apply output_only_refl|].
  destruct acc as [st ev]. simpl fst.
  destruct (find_call (id tc) (current_tool_calls st));
    destruct (arguments f) as [a|]; try destruct (String.eqb a "");
    simpl; now destruct st.
Qed.

Lemma tool_calls_fold_output (l : list ToolCallDelta) (acc : state * list event) :
  output_only (fst acc) (fst (fold_left tool_call_step l acc)).
Proof.
  revert acc. induction l as [|tc l IH]; intros acc; [apply output_only_refl|].
  simpl. eapply output_only_trans; [apply tool_call_step_output|apply IH].
Qed.

(** *** The running input-token count *)

(** A chunk carries a usage snapshot. *)
Definition carries_usage (c : chunk) : bool :=
  match c with
  | Response o => match usage o with Some _ => true | None => false end
  | Value (PDict d) => has_key "usage" d
  | Value _ => false
  end.

(** The events that the loop sends. *)
Definition loop_event (e : event) : bool :=
  match e with
  | text_delta _ _ | content_block_start_tool_use _ _ _ | input_json_delta _ _ => true
  | _ => false
  end.

Lemma read_usage_without (st st' : state) (c : chunk) :
  carries_usage c = false -> read_usage st c = Ok st' -> st' = st.
Proof.
  destruct c as [v|o]; simpl.
  - destruct v; simpl; try (intros _ E; now inversion E).
    intros H. rewrite H. intros E. now inversion E.
  - destruct (usage o); [discriminate|]. intros _ E. now inversion E.
Qed.

Lemma text_delta_step_tokens (st st' : state) (text : pyval) (ev : list event) :
  text_delta_step st text = Ok (st', ev) ->
  input_tokens st' = input_tokens st /\ forallb loop_event ev = true.
Proof.
  unfold text_delta_step. destruct (truthy text).
  - destruct text; try discriminate. intros E. inversion E; subst. now split.
  - intros E. inversion E; subst. now split.
Qed.

Lemma tool_call_step_tokens (acc : state * list event) (tc : ToolCallDelta) :
  forallb loop_event (snd acc) = true ->
  input_tokens (fst (tool_call_step acc tc)) = input_tokens (fst acc) /\
  forallb loop_event (snd (tool_call_step acc tc)) = true.
Proof.
  intros F. unfold tool_call_step.
  destruct (function tc) as [f|]; [|now split].
  destruct (name f) as [n|]; [|now split].
  destruct (String.eqb n ""); [now split|].
  destruct acc as [st ev]. simpl in F.
  destruct (find_call (id tc) (current_tool_calls st)).
  - destruct (arguments f) as [a|]; [|now split].
    destruct (String.eqb a ""); [now split|]. simpl. split; [reflexivity|].
    rewrite forallb_app, F. reflexivity.
  - destruct (arguments f) as [a|].
    + destruct (String.eqb a ""); simpl.
      * split; [reflexivity|]. rewrite forallb_app, F. reflexivity.
      * split; [reflexivity|]. rewrite !forallb_app, F. reflexivity.
    + simpl. split; [reflexivity|]. rewrite forallb_app, F. reflexivity.
Qed.

Lemma tool_calls_fold_tokens (l : list ToolCallDelta) (acc : state * list event) :
  forallb loop_event (snd acc) = true ->
  input_tokens (fst (fold_left tool_call_step l acc)) = input_tokens (fst acc) /\
  forallb loop_event (snd (fold_left tool_call_step l acc)) = true.
Proof.
  revert acc. induction l as [|tc l IH]; intros acc F; [now split|].
  simpl. destruct (tool_call_step_tokens acc tc F) as [T E].
  destruct (IH _ E) as [T' E']. split; [congruence|assumption].
Qed.

Lemma tool_calls_step_tokens (st st' : state) (calls : tool_deltas)
    (ev : list event) :
  tool_calls_step st calls = Ok (st', ev) ->
  input_tokens st' = input_tokens st /\ forallb loop_event ev = true.
Proof.
  unfold tool_calls_step. destruct calls as [|v|l].
  - intros E. inversion E; subst. now split.
  - destruct (truthy v).
    + destruct v; try discriminate; intros E; inversion E; subst; now split.
    + intros E. inversion E; subst. now split.
  - intros E. inversion E as [E1].
    destruct (tool_calls_fold_tokens l (st, []) eq_refl) as [T F].
    rewrite E1 in T, F. now split.
Qed.

Lemma process_structured_tokens (st : state) (c : chunk) :
  carries_usage c = false ->
  input_tokens (fst (fst (process_structured st c))) = input_tokens st /\
  forallb loop_event (snd (fst (process_structured st c))) = true.
Proof.
  intros H. unfold process_structured.
  destruct (extract_deltas c) as [[[text calls] finish]|e]; [|now split].
  destruct (read_usage st c) as [st1|e] eqn:U; [|now split].
  apply (read_usage_without st st1 c H) in U. subst st1.
  destruct (text_delta_step st text) as [[st2 ev1]|e] eqn:T; [|now split].
  apply text_delta_step_tokens in T as [T1 T2].
  destruct (tool_calls_step st2 calls) as [[st3 ev2]|e] eqn:C; [|now split].
  apply tool_calls_step_tokens in C as [C1 C2].
  unfold finish_step. destruct (truthy finish); simpl.
  - split; [congruence|]. now rewrite forallb_app, T2, C2.
  - split; [congruence|]. now rewrite forallb_app, T2, C2.
Qed.

Lemma on_exception_tokens (st : state) (e : exn) :
  input_tokens (fst (fst (on_exception st e))) = input_tokens st /\
  forallb loop_event (snd (fst (on_exception st e))) = true.
Proof.
  unfold on_exception, count_error.
  repeat match goal with
         | |- context [if ?b then _ else _] => destruct b
         end; simpl; now split.
Qed.

(** The outcome of a turn, by its four parts. *)
Definition turn_state (t : state * list event * status * option chunk) : state :=
  fst (fst (fst t)).
Definition turn_events (t : state * list event * status * option chunk)
  : list event := snd (fst (fst t)).
Definition turn_status (t : state * list event * status * option chunk)
  : status := snd (fst t).
Definition turn_seen (t : state * list event * status * option chunk)
  : option chunk := snd t.

Definition no_usage_seen (seen : option chunk) : Prop :=
  match seen with Some c => carries_usage c = false | None => True end.

Lemma process_parsed_tokens (st : state) (c : chunk) :
  no_usage_seen (snd (process_parsed st c)) ->
  input_tokens (fst (fst (fst (process_parsed st c)))) = input_tokens st /\
  forallb loop_event (snd (fst (fst (process_parsed st c)))) = true.
Proof.
  unfold process_parsed. destruct c as [v|o].
  - destruct v; simpl; try (intros _; now split).
    + destruct (json_loads s) as [v|]; simpl; [|intros _; now split].
      intros H. now apply process_structured_tokens.
    + intros H. now apply (process_structured_tokens st (Value (PDict d))).
  - simpl. intros H. now apply process_structured_tokens.
Qed.

Lemma process_chunk_tokens (st : state) (c : chunk) :
  no_usage_seen (snd (process_chunk st c)) ->
  input_tokens (fst (fst (fst (process_chunk st c)))) = input_tokens st /\
  forallb loop_event (snd (fst (fst (process_chunk st c)))) = true.
Proof.
  unfold process_chunk.
  set (st0 := set_all_chunks (all_chunks st ++ [c]) (set_consecutive_errors 0 st)).
  assert (E0 : input_tokens st0 = input_tokens st) by reflexivity.
  destruct c as [v|o].
  2:{ intros H. rewrite <- E0. now apply process_parsed_tokens. }
  destruct v; try (intros H; rewrite <- E0; now apply process_parsed_tokens).
  destruct (String.eqb (strip s) "[DONE]"); [intros _; now split|].
  destruct (is_malformed_chunk s).
  { destruct (max_malformed_chunks <? _)%nat; intros _; now split. }
  destruct (try_parse_buffered_chunk (chunk_buffer st0 ++ s)) as [parsed buffer].
  destruct parsed;
    try (intros H; rewrite <- E0;
         now apply (process_parsed_tokens (set_chunk_buffer buffer st0))).
  destruct (10000 <? _)%Z; intros _; now split.
Qed.

Lemma iteration_tokens (st : state) (f : fetch) :
  no_usage_seen (turn_seen (iteration st f)) ->
  input_tokens (turn_state (iteration st f)) = input_tokens st /\
  forallb loop_event (turn_events (iteration st f)) = true.
Proof.
  unfold turn_seen, turn_state, turn_events, iteration, settle.
  destruct f as [c|e].
  - pose proof (process_chunk_tokens st c) as P.
    destruct (process_chunk st c) as [[[st1 ev] r] seen]. simpl in P.
    destruct r as [s|e]; simpl; [exact P|].
    pose proof (on_exception_tokens st1 e) as O.
    destruct (on_exception st1 e) as [[st2 ev2] s]. simpl in O |- *.
    intros H. destruct (P H) as [P1 P2]. destruct O as [O1 O2].
    split; [congruence|]. now rewrite forallb_app, P2, O2.
  - destruct (isinstance_exn "StopAsyncIteration" e); [intros _; now split|].
    destruct (isinstance_exn "TimeoutError" e); [intros _; now split|].
    intros _. simpl. apply on_exception_tokens.
Qed.

Lemma stream_loop_tokens (stream : list fetch) (st : state) :
  Forall (fun c => carries_usage c = false) (extracted (stream_loop st stream)) ->
  input_tokens (final (stream_loop st stream)) = input_tokens st /\
  forallb loop_event (sent (stream_loop st stream)) = true.
Proof.
  revert st. induction stream as [|f rest IH]; intros st; [now split|].
  simpl. pose proof (iteration_tokens st f) as I.
  unfold turn_seen, turn_state, turn_events in I.
  destruct (iteration st f) as [[[st1 ev] s] seen]. simpl in I.
  assert (S : Forall (fun c => carries_usage c = false) (seen_list seen) ->
              no_usage_seen seen).
  { destruct seen; simpl; [|trivial]. intros F. now inversion F. }
  destruct s; simpl.
  - intros F. apply Forall_app in F as [F1 F2].
    destruct (I (S F1)) as [I1 I2]. destruct (IH st1 F2) as [H1 H2].
    split; [congruence|]. now rewrite forallb_app, I2, H2.
  - intros F. exact (I (S F)).
  - intros F. exact (I (S F)).
Qed.

Lemma finalize_message_delta (st : state) (reason : Response.StopReason)
    (i o : pyval) :
  In (message_delta reason i o) (fst (finalize st)) -> i = input_tokens st.
Proof.
  unfold finalize.
  set (stops := content_block_stop text_block_index ::
                map (fun kv => content_block_stop (index (snd kv)))
                    (current_tool_calls st)).
  assert (N : ~ In (message_delta reason i o) stops).
  { subst stops. intros [H|H]; [discriminate H|].
    apply in_map_iff in H as [kv [H _]]. discriminate H. }
  clearbody stops.
  destruct (stream_chunk_builder (all_chunks st)) as [e| |n]; simpl.
  - destruct (isinstance_exn "Exception" e); simpl; intros H; now elim N.
  - intros H. apply in_app_or in H as [H|[H|[H|[]]]]; [now elim N| |discriminate H].
    now inversion H.
  - intros H. apply in_app_or in H as [H|[H|[H|[]]]]; [now elim N| |discriminate H].
    now inversion H.
Qed.

(** C10.  The opening [message_start] carries the caller's count, the
    running count starts at zero, and on a stream none of whose chunks
    carries a usage snapshot every [message_delta] sent reports zero
    input tokens; one is sent when no exception leaves the generator and
    the chunk builder returns. *)
Theorem message_delta_input_tokens_zero
    (stream : list fetch) (model : string) (caller_input_tokens : Z) :
  let events := fst (handle_streaming_with_recovery stream model
                       caller_input_tokens) in
  let r := stream_loop initial stream in
  hd_error events = Some (message_start model caller_input_tokens) /\
  input_tokens initial = PInt 0 /\
  (Forall (fun c => carries_usage c = false) (extracted r) ->
   (forall reason i o, In (message_delta reason i o) events -> i = PInt 0) /\
   (propagated r = None ->
    (forall e, stream_chunk_builder (all_chunks (final r)) <> BuilderRaises e) ->
    exists reason o, In (message_delta reason (PInt 0) o) events)).
Proof.
  intros events r. subst events. unfold handle_streaming_with_recovery.
  fold r. split; [|split; [reflexivity|]].
  { destruct (propagated r); [reflexivity|].
    destruct (finalize (final r)); reflexivity. }
  intros F. destruct (stream_loop_tokens stream initial F) as [T L].
  fold r in T, L. change (input_tokens initial) with (PInt 0) in T.
  split.
  - intros reason i o H.
    assert (NL : ~ In (message_delta reason i o) (sent r)).
    { intros X. rewrite forallb_forall in L. specialize (L _ X). discriminate L. }
    destruct (propagated r).
    + simpl in H. destruct H as [H|[H|[H|H]]]; try discriminate H. now elim NL.
    + pose proof (finalize_message_delta (final r) reason i o) as Fin.
      destruct (finalize (final r)) as [closing p]. simpl in H, Fin.
      destruct H as [H|[H|[H|H]]]; try discriminate H.
      apply in_app_or in H as [H|H]; [now elim NL|].
      rewrite (Fin H). exact T.
  - intros P B. rewrite P. unfold finalize.
    destruct (stream_chunk_builder (all_chunks (final r))) as [e| |n] eqn:SB.
    + now elim (B e).
    + rewrite T. do 2 eexists. cbn [fst].
      apply in_or_app. right. apply in_or_app. right.
      apply in_or_app. right. left. reflexivity.
    + rewrite T. do 2 eexists. cbn [fst].
      apply in_or_app. right. apply in_or_app. right.
      apply in_or_app. right. left. reflexivity.
Qed.

(** *** Reassembly of string fragments *)

Definition depth_after_char (depth : Z) (c : ascii) : Z :=
  if Ascii.eqb c "{" then (depth + 1)%Z
  else if Ascii.eqb c "}" then (depth - 1)%Z
  else depth.

(** Reading [rest] from brace depth [depth], counting every brace, the
    depth stays positive up to the last character, which is a closing
    brace that brings it to zero. *)
Fixpoint closes_at_end (depth : Z) (rest : string) : bool :=
  match rest with
  | EmptyString => false
  | String c rest' =>
      let depth' := depth_after_char depth c in
      match rest' with
      | EmptyString => Ascii.eqb c "}" && (depth' =? 0)%Z
      | String _ _ => (0 <? depth')%Z && closes_at_end depth' rest'
      end
  end.

(** Reading [rest] from [depth], the depth stays positive throughout. *)
Fixpoint stays_open (depth : Z) (rest : string) : bool :=
  match rest with
  | EmptyString => true
  | String c rest' =>
      let depth' := depth_after_char depth c in
      (0 <? depth')%Z && stays_open depth' rest'
  end.

Fixpoint depth_after (depth : Z) (s : string) : Z :=
  match s with
  | EmptyString => depth
  | String c s' => depth_after (depth_after_char depth c) s'
  end.

(** A text whose brace depth first returns to zero at its last
    character: the shape in which the scan sees one whole object. *)
Definition balanced_object (text : string) : bool := closes_at_end 0 text.

Lemma closes_split (f1 f2 : string) (depth : Z) :
  f2 <> "" ->
  closes_at_end depth (f1 ++ f2) = true ->
  stays_open depth f1 = true /\ closes_at_end (depth_after depth f1) f2 = true.
Proof.
  intros N. revert depth. induction f1 as [|c f1 IH]; intros depth H.
  - now split.
  - simpl in H. destruct (f1 ++ f2) as [|c' r] eqn:E.
    + destruct f1; simpl in E; [now elim N|discriminate E].
    + apply andb_prop in H as [H1 H2].
      destruct (IH _ H2) as [I1 I2]. simpl. rewrite H1, I1. now split.
Qed.

Lemma closes_head (text : string) :
  balanced_object text = true -> exists rest, text = String "{" rest.
Proof.
  unfold balanced_object. destruct text as [|c rest]; [discriminate|].
  simpl. unfold depth_after_char.
  destruct (Ascii.eqb c "{") eqn:O.
  { apply Ascii.eqb_eq in O. subst c. eauto. }
  destruct (Ascii.eqb c "}"); destruct rest; simpl; discriminate.
Qed.

Lemma closes_count (text : string) (depth : Z) :
  closes_at_end depth text = true -> 1 <= count "}" text.
Proof.
  revert depth. induction text as [|c rest IH]; intros depth; [discriminate|].
  simpl. destruct rest as [|c' r].
  - intros H. apply andb_prop in H as [H _]. rewrite H. simpl. lia.
  - intros H. apply andb_prop in H as [_ H]. apply IH in H. lia.
Qed.

Lemma stays_open_head (c : ascii) (rest : string) :
  stays_open 0 (String c rest) = true -> c = "{"%char.
Proof.
  simpl. unfold depth_after_char. destruct (Ascii.eqb c "{") eqn:O.
  - intros _. now apply Ascii.eqb_eq in O.
  - destruct (Ascii.eqb c "}"); discriminate.
Qed.

(** While the depth stays positive the scan decodes nothing. *)
Lemma scan_stays_open (buffer rest : string) (i : nat) (brace_count : Z)
    (start_pos : option nat) :
  stays_open brace_count rest = true ->
  scan buffer rest i brace_count start_pos = (PNone, buffer).
Proof.
  revert i brace_count start_pos.
  induction rest as [|c rest IH]; intros i bc sp H; [reflexivity|].
  simpl in H. apply andb_prop in H as [P H]. unfold depth_after_char in P, H.
  simpl. destruct (Ascii.eqb c "{"); [now apply IH|].
  destruct (Ascii.eqb c "}"); [|now apply IH].
  destruct sp as [start|]; [|now apply IH].
  destruct (bc - 1 =? 0)%Z eqn:Z0; [|now apply IH].
  apply Z.eqb_eq in Z0. rewrite Z0 in P. discriminate P.
Qed.

(** On a buffer that is one balanced object the scan hands the whole
    buffer to the decoder, and nothing remains. *)
Lemma scan_closes (pre rest : string) (brace_count : Z) (start_pos : option nat) :
  closes_at_end brace_count rest = true ->
  match start_pos with
  | Some p => p = 0
  | None => brace_count = 0%Z /\ pre = ""
  end ->
  scan (pre ++ rest) rest (String.length pre) brace_count start_pos =
  match json_loads (pre ++ rest) with
  | Some parsed => (parsed, "")
  | None => (PNone, pre ++ rest)
  end.
Proof.
  revert pre brace_count start_pos.
  induction rest as [|c rest IH]; intros pre bc sp H I; [discriminate|].
  assert (Step : pre ++ String c rest = (pre ++ String c "") ++ rest).
  { now rewrite append_assoc. }
  assert (Len : String.length (pre ++ String c "") = S (String.length pre)).
  { rewrite length_append. simpl. lia. }
  cbn [closes_at_end] in H. cbv zeta in H.
  destruct rest as [|c' r].
  - apply andb_prop in H as [Hc Hz]. apply Ascii.eqb_eq in Hc. subst c.
    change (depth_after_char bc "}") with (bc - 1)%Z in Hz.
    destruct sp as [p|].
    2:{ destruct I as [I _]. subst bc. discriminate Hz. }
    subst p. cbn [scan].
    change (Ascii.eqb "}" "{") with false. change (Ascii.eqb "}" "}") with true.
    cbv match. cbv zeta. rewrite Hz.
    replace (S (String.length pre) - 0) with
      (String.length (pre ++ String "}" "")) by lia.
    change (drop 0 (pre ++ String "}" "")) with (pre ++ String "}" "").
    rewrite take_all. rewrite <- Len. rewrite drop_all.
    now destruct (json_loads (pre ++ String "}" "")).
  - remember (String c' r) as R eqn:ER in *. clear ER.
    apply andb_prop in H as [P H].
    cbn [scan]. unfold depth_after_char in P, H.
    destruct (Ascii.eqb c "{") eqn:O.
    + rewrite Step, <- Len. apply IH; [exact H|].
      destruct sp as [p|]; [exact I|].
      destruct I as [_ I]. subst pre. reflexivity.
    + destruct (Ascii.eqb c "}") eqn:C.
      * cbv zeta. destruct sp as [p|].
        2:{ destruct I as [I _]. subst bc. discriminate P. }
        destruct (bc - 1 =? 0)%Z eqn:Z0.
        { apply Z.eqb_eq in Z0. rewrite Z0 in P. discriminate P. }
        rewrite Step, <- Len. apply IH; assumption.
      * destruct sp as [p|].
        2:{ destruct I as [I _]. subst bc. discriminate P. }
        rewrite Step, <- Len. apply IH; assumption.
Qed.

Lemma try_parse_balanced (text : string) :
  balanced_object text = true ->
  try_parse_buffered_chunk text =
  match json_loads text with
  | Some parsed => (parsed, "")
  | None => (PNone, text)
  end.
Proof.
  intros B. unfold try_parse_buffered_chunk.
  destruct (closes_head text B) as [rest E].
  destruct (strip_cons "{" rest eq_refl) as [r S]. rewrite <- E in S.
  rewrite S. change (String.eqb (String "{" r) "") with false. cbv match.
  exact (scan_closes "" text 0 None B (conj eq_refl eq_refl)).
Qed.

Lemma try_parse_open (text : string) :
  text <> "" -> stays_open 0 text = true ->
  try_parse_buffered_chunk text = (PNone, text).
Proof.
  intros N O. unfold try_parse_buffered_chunk.
  destruct text as [|c rest]; [now elim N|].
  pose proof (stays_open_head c rest O) as E. subst c.
  destruct (strip_cons "{" rest eq_refl) as [r S]. rewrite S.
  change (String.eqb (String "{" r) "") with false. cbv match.
  now apply scan_stays_open.
Qed.

(** *** Malformed fragments in the loop *)

(** A string chunk as the stream delivers it. *)
Definition fragment (s : string) : fetch := Got (Value (PStr s)).

(** Rejection as the specification words it, on the fragment with its
    surrounding whitespace removed; [Json.quote] is the double quote. *)
Definition spec_rejects (chunk_str : string) : Prop :=
  let t := strip chunk_str in
  chunk_str = "" \/ t = "" \/
  In t ["{"; "}"; "["; "]"; ","; ":"; String Json.quote ""; "'"] \/
  In t [String "{" (String Json.quote ""); String Json.quote "}";
        "[{"; "}]"; "{}"; "[]"; "null";
        String Json.quote (String Json.quote ""); "''"; " "; "";
        "{,"; ",}"; "[,"; ",]"] \/
  (startswith "{" t = true /\ endswith_char "}" t = false /\
   String.length t < 15) \/
  (startswith "[" t = true /\ endswith_char "]" t = false /\
   String.length t < 10) \/
  (String.length t < 20 /\
   (count "{" t <> count "}" t \/ count "[" t <> count "]" t)).

Lemma is_malformed_chunk_iff (chunk_str : string) :
  is_malformed_chunk chunk_str = true <-> spec_rejects chunk_str.
Proof.
  unfold is_malformed_chunk, spec_rejects.
  change ["{"; "}"; "["; "]"; ","; ":"; String Json.quote ""; "'"]
    with malformed_singles.
  change [String "{" (String Json.quote ""); String Json.quote "}";
          "[{"; "}]"; "{}"; "[]"; "null";
          String Json.quote (String Json.quote ""); "''"; " "; "";
          "{,"; ",}"; "[,"; ",]"]
    with malformed_patterns.
  destruct (String.eqb chunk_str "") eqn:E0.
  { apply String.eqb_eq in E0. tauto. }
  apply String.eqb_neq in E0.
  set (t := strip chunk_str).
  destruct (String.eqb t "") eqn:E1.
  { apply String.eqb_eq in E1. tauto. }
  apply String.eqb_neq in E1.
  destruct (mem t malformed_singles) eqn:M1.
  { apply mem_In in M1. tauto. }
  assert (N1 : ~ In t malformed_singles).
  { intros X. apply mem_In in X. congruence. }
  destruct (mem t malformed_patterns) eqn:M2.
  { apply mem_In in M2. tauto. }
  assert (N2 : ~ In t malformed_patterns).
  { intros X. apply mem_In in X. congruence. }
  destruct (startswith "{" t && negb (endswith_char "}" t) &&
            (String.length t <? 15)%nat) eqn:A.
  { split; [intros _|reflexivity].
    apply andb_prop in A as [A A3]. apply andb_prop in A as [A1 A2].
    apply negb_true_iff in A2. apply Nat.ltb_lt in A3.
    right; right; right; right; left. auto. }
  destruct (startswith "[" t && negb (endswith_char "]" t) &&
            (String.length t <? 10)%nat) eqn:B.
  { split; [intros _|reflexivity].
    apply andb_prop in B as [B B3]. apply andb_prop in B as [B1 B2].
    apply negb_true_iff in B2. apply Nat.ltb_lt in B3.
    right; right; right; right; right; left. auto. }
  destruct (negb (count "{" t =? count "}" t)%nat &&
            (String.length t <? 20)%nat) eqn:C.
  { split; [intros _|reflexivity].
    apply andb_prop in C as [C1 C2]. apply negb_true_iff in C1.
    apply Nat.eqb_neq in C1. apply Nat.ltb_lt in C2.
    do 6 right. auto. }
  destruct (negb (count "[" t =? count "]" t)%nat &&
            (String.length t <? 20)%nat) eqn:D.
  { split; [intros _|reflexivity].
    apply andb_prop in D as [D1 D2]. apply negb_true_iff in D1.
    apply Nat.eqb_neq in D1. apply Nat.ltb_lt in D2.
    do 6 right. auto. }
  split; [discriminate|]. intros X. exfalso.
  destruct X as [X|[X|[X|[X|[[X1 [X2 X3]]|[[X1 [X2 X3]]|[X1 [X2|X2]]]]]]]];
    try contradiction.
  - apply Nat.ltb_lt in X3. rewrite X1, X2, X3 in A. discriminate A.
  - apply Nat.ltb_lt in X3. rewrite X1, X2, X3 in B. discriminate B.
  - apply Nat.ltb_lt in X1. apply Nat.eqb_neq in X2.
    rewrite X1, X2 in C. discriminate C.
  - apply Nat.ltb_lt in X1. apply Nat.eqb_neq in X2.
    rewrite X1, X2 in D. discriminate D.
Qed.

Lemma done_not_malformed (s : string) :
  strip s = "[DONE]" -> is_malformed_chunk s = false.
Proof.
  intros H. unfold is_malformed_chunk.
  destruct (String.eqb s "") eqn:E.
  { apply String.eqb_eq in E. subst s. discriminate H. }
  rewrite H. reflexivity.
Qed.

(** A malformed fragment: counted, nothing sent, the buffer untouched;
    the loop ends, flagged as terminated early, when the count passes
    twenty. *)
Lemma malformed_fragment_step (st : state) (s : string) :
  is_malformed_chunk s = true ->
  iteration st (fragment s) =
  let st1 := set_malformed_chunks_count (S (malformed_chunks_count st))
               (set_all_chunks (all_chunks st ++ [Value (PStr s)])
                  (set_consecutive_errors 0 st)) in
  if (max_malformed_chunks <? S (malformed_chunks_count st))%nat
  then (set_stream_terminated_early true st1, [], Break, None)
  else (st1, [], Continue, None).
Proof.
  intros M. unfold fragment, iteration, settle, process_chunk.
  destruct (String.eqb (strip s) "[DONE]") eqn:D.
  { apply String.eqb_eq in D. apply done_not_malformed in D. congruence. }
  rewrite M. cbv zeta.
  change (malformed_chunks_count
            (set_malformed_chunks_count
               (S (malformed_chunks_count
                     (set_all_chunks (all_chunks st ++ [Value (PStr s)])
                        (set_consecutive_errors 0 st))))
               (set_all_chunks (all_chunks st ++ [Value (PStr s)])
                  (set_consecutive_errors 0 st))))
    with (S (malformed_chunks_count st)).
  change (malformed_chunks_count
            (set_all_chunks (all_chunks st ++ [Value (PStr s)])
               (set_consecutive_errors 0 st)))
    with (malformed_chunks_count st).
  now destruct (max_malformed_chunks <? S (malformed_chunks_count st))%nat.
Qed.

(** *** Decoded fragments *)

(** The text delta of a dict chunk, when it has one. *)
Definition text_delta_of (d : dict) : option string :=
  match extract_deltas (Value (PDict d)) with
  | Ok (PStr t, _, _) => if String.eqb t "" then None else Some t
  | _ => None
  end.

(** The usage of a dict chunk, if any, is a dict: reading it does not
    raise. *)
Definition usage_readable (d : dict) : bool :=
  negb (has_key "usage" d) ||
  match get "usage" PNone d with PDict _ => true | _ => false end.

Lemma extract_deltas_dict (d : dict) (text fin : pyval) (calls : tool_deltas) :
  extract_deltas (Value (PDict d)) = Ok (text, calls, fin) ->
  calls = NoToolCalls \/ exists v, calls = JsonToolCalls v.
Proof.
  unfold extract_deltas.
  destruct (truthy (get "choices" (PList []) d)).
  2:{ intros E. inversion E. now left. }
  destruct (first_item (get "choices" (PList []) d)) as [choice|]; simpl;
    [|discriminate].
  destruct (py_get choice "delta" (PDict [])) as [dl|]; simpl; [|discriminate].
  destruct (py_get dl "content" PNone) as [x|]; simpl; [|discriminate].
  destruct (py_get dl "tool_calls" PNone) as [v|]; simpl; [|discriminate].
  destruct (py_get choice "finish_reason" PNone) as [y|]; simpl; [|discriminate].
  intros E. inversion E. right. eauto.
Qed.

(** The [TypeError] of a value that cannot be iterated is counted and
    sends nothing. *)
Lemma not_iterable_settled (st : state) (v : pyval) :
  snd (fst (on_exception st
              (TypeError ("'" ++ type_name v ++ "' object is not iterable")))) = [].
Proof.
  destruct v; unfold on_exception, count_error;
    match goal with
    | |- context [rate_limit_signature ?e] =>
        let b := eval vm_compute in (rate_limit_signature e) in
        change (rate_limit_signature e) with b
    end;
    cbn [isinstance_exn exn_mro TypeError mem existsb orb];
    repeat match goal with
           | |- context [String.eqb ?a ?b] =>
               let r := eval vm_compute in (String.eqb a b) in
               change (String.eqb a b) with r
           end;
    cbn [orb]; cbv match;
    match goal with
    | |- context [if ?b then _ else _] => destruct b
    end; reflexivity.
Qed.

Lemma settle_raise (st : state) (ev : list event) (e : exn)
    (seen : option chunk) :
  turn_events (settle (st, ev, Raise e, seen)) =
  (ev ++ snd (fst (on_exception st e)))%list.
Proof.
  unfold settle, turn_events. now destruct (on_exception st e) as [[a b] c].
Qed.

(** A dict chunk with a text delta sends that one delta, whatever else
    it carries. *)
Lemma settle_text_delta (st : state) (d : dict) (t : string) (seen : option chunk) :
  text_delta_of d = Some t -> usage_readable d = true ->
  turn_events (settle (process_structured st (Value (PDict d)), seen)) =
  [text_delta text_block_index t].
Proof.
  unfold text_delta_of, usage_readable. intros T U.
  unfold process_structured.
  destruct (extract_deltas (Value (PDict d))) as [[[text calls] fin]|e] eqn:X;
    [|discriminate T].
  destruct text as [| | | |t0| | |]; try discriminate T.
  destruct (String.eqb t0 "") eqn:E; [discriminate T|]. inversion T; subst t0.
  assert (R : exists st1, read_usage st (Value (PDict d)) = Ok st1).
  { simpl. destruct (has_key "usage" d); simpl in U; [|eauto].
    destruct (get "usage" PNone d); try discriminate U. simpl. eauto. }
  destruct R as [st1 R]. rewrite R.
  unfold text_delta_step. simpl truthy. rewrite E. simpl negb. cbv match.
  destruct (extract_deltas_dict d _ _ _ X) as [C|[v C]]; subst calls.
  - simpl. unfold finish_step. now destruct (truthy fin).
  - unfold tool_calls_step. destruct (truthy v).
    + destruct v; try (unfold finish_step; now destruct (truthy fin));
        cbv match; rewrite settle_raise, not_iterable_settled; reflexivity.
    + unfold finish_step. now destruct (truthy fin).
Qed.

(** The extraction and the [except] clauses leave the buffer alone. *)
Lemma on_exception_buffer (st : state) (e : exn) :
  chunk_buffer (fst (fst (on_exception st e))) = chunk_buffer st.
Proof.
  unfold on_exception, count_error.
  repeat match goal with
         | |- context [if ?b then _ else _] => destruct b
         end; reflexivity.
Qed.

Lemma process_structured_buffer (st : state) (c : chunk) :
  chunk_buffer (fst (fst (process_structured st c))) = chunk_buffer st.
Proof.
  unfold process_structured.
  destruct (extract_deltas c) as [[[text calls] fin]|e]; [|reflexivity].
  assert (R : forall st1, read_usage st c = Ok st1 ->
                          chunk_buffer st1 = chunk_buffer st).
  { intros st1. destruct c as [v|o]; simpl.
    - destruct v; try (intros E; now inversion E).
      destruct (has_key "usage" d); [|intros E; now inversion E].
      destruct (py_get (get "usage" PNone d) "prompt_tokens" (PInt 0)); simpl;
        [|discriminate].
      destruct (py_get (get "usage" PNone d) "completion_tokens" (PInt 0)); simpl;
        [|discriminate].
      intros E. now inversion E.
    - destruct (usage o); intros E; now inversion E. }
  destruct (read_usage st c) as [st1|e]; [|reflexivity].
  specialize (R st1 eq_refl).
  assert (T : forall st2 ev, text_delta_step st1 text = Ok (st2, ev) ->
                             chunk_buffer st2 = chunk_buffer st1).
  { intros st2 ev. unfold text_delta_step. destruct (truthy text).
    - destruct text; try discriminate. intros E. now inversion E.
    - intros E. now inversion E. }
  destruct (text_delta_step st1 text) as [[st2 ev1]|e]; [|simpl; congruence].
  specialize (T st2 ev1 eq_refl).
  assert (K : forall st3 ev, tool_calls_step st2 calls = Ok (st3, ev) ->
                             chunk_buffer st3 = chunk_buffer st2).
  { intros st3 ev. unfold tool_calls_step. destruct calls as [|v|l].
    - intros E. now inversion E.
    - destruct (truthy v); [|intros E; now inversion E].
      destruct v; try discriminate; intros E; now inversion E.
    - intros E. inversion E as [E1].
      pose proof (tool_calls_fold_output l (st2, [])) as O.
      rewrite E1 in O. simpl in O. rewrite O. reflexivity. }
  destruct (tool_calls_step st2 calls) as [[st3 ev2]|e]; [|simpl; congruence].
  specialize (K st3 ev2 eq_refl).
  unfold finish_step. destruct (truthy fin); simpl; congruence.
Qed.

Lemma settled_buffer (st : state) (c : chunk) (seen : option chunk) :
  chunk_buffer (turn_state (settle (process_structured st c, seen))) =
  chunk_buffer st.
Proof.
  pose proof (process_structured_buffer st c) as P.
  unfold settle, turn_state.
  destruct (process_structured st c) as [[a b] [s|e]]; simpl in P |- *;
    [exact P|].
  pose proof (on_exception_buffer a e) as O.
  destruct (on_exception a e) as [[x y] z]. simpl in O |- *. congruence.
Qed.

Lemma balanced_not_done (s : string) :
  balanced_object s = true ->
  String.eqb (strip s) "[DONE]" = false /\ String.eqb (strip s) "" = false.
Proof.
  intros B. destruct (closes_head s B) as [rest E].
  destruct (strip_cons "{" rest eq_refl) as [r S]. rewrite <- E in S.
  rewrite S. now split.
Qed.

(** *** Early termination on string fragments *)

(** A view of the state that the extraction cannot change: one that no
    assignment to the tokens, the text, the tool calls or the stop reason
    changes. *)
Definition untouched {A : Type} (f : state -> A) : Prop :=
  forall st,
    (forall i o, f (set_tokens i o st) = f st) /\
    (forall x, f (set_accumulated_text x st) = f st) /\
    (forall n calls, f (set_tool_calls n calls st) = f st) /\
    (forall r, f (set_final_stop_reason r st) = f st).

Lemma process_structured_untouched {A : Type} (f : state -> A)
    (st : state) (c : chunk) :
  untouched f -> f (fst (fst (process_structured st c))) = f st.
Proof.
  intros U. unfold process_structured.
  destruct (extract_deltas c) as [[[text calls] fin]|e]; [|reflexivity].
  assert (R : forall st1, read_usage st c = Ok st1 -> f st1 = f st).
  { intros st1. destruct c as [v|o]; simpl.
    - destruct v; try (intros E; now inversion E).
      destruct (has_key "usage" d); [|intros E; now inversion E].
      destruct (py_get (get "usage" PNone d) "prompt_tokens" (PInt 0)); simpl;
        [|discriminate].
      destruct (py_get (get "usage" PNone d) "completion_tokens" (PInt 0)); simpl;
        [|discriminate].
      intros E. inversion E. apply U.
    - destruct (usage o); intros E; inversion E; [apply U|reflexivity]. }
  destruct (read_usage st c) as [st1|e]; [|reflexivity].
  specialize (R st1 eq_refl).
  assert (T : forall st2 ev, text_delta_step st1 text = Ok (st2, ev) ->
                             f st2 = f st1).
  { intros st2 ev. unfold text_delta_step. destruct (truthy text).
    - destruct text; try discriminate. intros E. inversion E. apply U.
    - intros E. now inversion E. }
  destruct (text_delta_step st1 text) as [[st2 ev1]|e]; [|simpl; congruence].
  specialize (T st2 ev1 eq_refl).
  assert (K : forall st3 ev, tool_calls_step st2 calls = Ok (st3, ev) ->
                             f st3 = f st2).
  { intros st3 ev. unfold tool_calls_step. destruct calls as [|v|l].
    - intros E. now inversion E.
    - destruct (truthy v); [|intros E; now inversion E].
      destruct v; try discriminate; intros E; now inversion E.
    - intros E. inversion E as [E1].
      pose proof (tool_calls_fold_output l (st2, [])) as O.
      rewrite E1 in O. simpl in O. rewrite O.
      destruct (U (set_accumulated_text (accumulated_text st3) st2)) as [_ [_ [U3 _]]].
      rewrite U3. apply U. }
  destruct (tool_calls_step st2 calls) as [[st3 ev2]|e]; [|simpl; congruence].
  specialize (K st3 ev2 eq_refl).
  unfold finish_step. destruct (truthy fin); simpl; [|congruence].
  destruct (U st3) as [_ [_ [_ U4]]]. rewrite U4. congruence.
Qed.

(** The flags and counters of the recovery logic. *)
Definition control (st : state) : bool * nat * nat :=
  (stream_terminated_early st, malformed_chunks_count st, consecutive_errors st).

Lemma control_untouched : untouched control.
Proof. intros st. repeat split. Qed.

(** An exception that [except Exception] counts and that does nothing
    more: not a [ValueError], not a connection or runtime error, without
    the marks of a rate limit. *)
Definition benign (e : exn) : bool :=
  negb (isinstance_exn "JSONDecodeError" e || isinstance_exn "ValueError" e) &&
  negb (isinstance_exn "APIConnectionError" e || isinstance_exn "RuntimeError" e) &&
  isinstance_exn "Exception" e && negb (rate_limit_signature e).

Lemma py_get_benign (v : pyval) (k : string) (dflt : pyval) (e : exn) :
  py_get v k dflt = Raise e -> benign e = true.
Proof.
  destruct v; simpl; intros E; inversion E; subst; vm_compute; reflexivity.
Qed.

Lemma first_item_benign (v : pyval) (e : exn) :
  first_item v = Raise e -> benign e = true.
Proof.
  destruct v as [| | | |s|l| |]; simpl; try destruct s; try destruct l;
    intros E; inversion E; subst; vm_compute; reflexivity.
Qed.

Lemma extract_deltas_benign (v : pyval) (e : exn) :
  extract_deltas (Value v) = Raise e -> benign e = true.
Proof.
  destruct v; simpl; try discriminate.
  destruct (truthy (get "choices" (PList []) d)); [|discriminate].
  destruct (first_item (get "choices" (PList []) d)) as [choice|e0] eqn:F; simpl.
  2:{ intros E. inversion E; subst. exact (first_item_benign _ _ F). }
  destruct (py_get choice "delta" (PDict [])) as [dl|e0] eqn:G1; simpl.
  2:{ intros E. inversion E; subst. exact (py_get_benign _ _ _ _ G1). }
  destruct (py_get dl "content" PNone) as [x|e0] eqn:G2; simpl.
  2:{ intros E. inversion E; subst. exact (py_get_benign _ _ _ _ G2). }
  destruct (py_get dl "tool_calls" PNone) as [y|e0] eqn:G3; simpl.
  2:{ intros E. inversion E; subst. exact (py_get_benign _ _ _ _ G3). }
  destruct (py_get choice "finish_reason" PNone) as [z|e0] eqn:G4; simpl.
  2:{ intros E. inversion E; subst. exact (py_get_benign _ _ _ _ G4). }
  discriminate.
Qed.

Lemma read_usage_benign (st : state) (v : pyval) (e : exn) :
  read_usage st (Value v) = Raise e -> benign e = true.
Proof.
  destruct v; simpl; try discriminate.
  destruct (has_key "usage" d); [|discriminate].
  destruct (py_get (get "usage" PNone d) "prompt_tokens" (PInt 0))
    as [x|e0] eqn:G1; simpl.
  2:{ intros E. inversion E; subst. exact (py_get_benign _ _ _ _ G1). }
  destruct (py_get (get "usage" PNone d) "completion_tokens" (PInt 0))
    as [y|e0] eqn:G2; simpl.
  2:{ intros E. inversion E; subst. exact (py_get_benign _ _ _ _ G2). }
  discriminate.
Qed.

Lemma text_delta_step_benign (st : state) (text : pyval) (e : exn) :
  text_delta_step st text = Raise e -> benign e = true.
Proof.
  unfold text_delta_step. destruct (truthy text); [|discriminate].
  destruct text; try discriminate;
    intros E; inversion E; subst; vm_compute; reflexivity.
Qed.

Lemma tool_calls_step_benign (st : state) (calls : tool_deltas) (e : exn) :
  tool_calls_step st calls = Raise e -> benign e = true.
Proof.
  unfold tool_calls_step. destruct calls as [|v|l]; try discriminate.
  destruct (truthy v); [|discriminate].
  destruct v; try discriminate;
    intros E; inversion E; subst; vm_compute; reflexivity.
Qed.

Lemma process_structured_benign (st : state) (v : pyval) (e : exn) :
  snd (process_structured st (Value v)) = Raise e -> benign e = true.
Proof.
  unfold process_structured.
  destruct (extract_deltas (Value v)) as [[[text calls] fin]|e0] eqn:X.
  2:{ simpl. intros E. inversion E; subst. exact (extract_deltas_benign _ _ X). }
  destruct (read_usage st (Value v)) as [st1|e0] eqn:R.
  2:{ simpl. intros E. inversion E; subst. exact (read_usage_benign _ _ _ R). }
  destruct (text_delta_step st1 text) as [[st2 ev1]|e0] eqn:T.
  2:{ simpl. intros E. inversion E; subst. exact (text_delta_step_benign _ _ _ T). }
  destruct (tool_calls_step st2 calls) as [[st3 ev2]|e0] eqn:K.
  2:{ simpl. intros E. inversion E; subst. exact (tool_calls_step_benign _ _ _ K). }
  unfold finish_step. destruct (truthy fin); discriminate.
Qed.

Lemma on_exception_benign (st : state) (e : exn) :
  benign e = true -> consecutive_errors st = 0 ->
  on_exception st e = (set_consecutive_errors 1 st, [], Continue).
Proof.
  unfold benign. intros B Z.
  apply andb_prop in B as [B B4]. apply andb_prop in B as [B B3].
  apply andb_prop in B as [B1 B2].
  apply negb_true_iff in B1, B2, B4.
  unfold on_exception, count_error. rewrite B1, B2, B3, B4.
  change (consecutive_errors
            (set_consecutive_errors (S (consecutive_errors st)) st))
    with (S (consecutive_errors st)).
  rewrite Z. reflexivity.
Qed.

Lemma process_structured_status (st : state) (c : chunk) (s : status) :
  snd (process_structured st c) = Ok s -> s = Continue \/ s = Break.
Proof.
  unfold process_structured.
  destruct (extract_deltas c) as [[[text calls] fin]|e]; [|discriminate].
  destruct (read_usage st c) as [st1|e]; [|discriminate].
  destruct (text_delta_step st1 text) as [[st2 ev1]|e]; [|discriminate].
  destruct (tool_calls_step st2 calls) as [[st3 ev2]|e]; [|discriminate].
  unfold finish_step. destruct (truthy fin); simpl; intros E; inversion E; auto.
Qed.

(** A decoded value at the extraction, after [consecutive_errors] was
    reset: the turn ends in [continue] or [break], and neither the early
    termination flag nor the malformed count moves. *)
Lemma settle_value_control (st : state) (v : pyval) (seen : option chunk) :
  consecutive_errors st = 0 ->
  let t := settle (process_structured st (Value v), seen) in
  (turn_status t = Continue \/ turn_status t = Break) /\
  stream_terminated_early (turn_state t) = stream_terminated_early st /\
  malformed_chunks_count (turn_state t) = malformed_chunks_count st.
Proof.
  intros Z t. subst t.
  pose proof (process_structured_untouched control st (Value v)
                control_untouched) as C.
  pose proof (process_structured_benign st v) as B.
  pose proof (process_structured_status st (Value v)) as S.
  unfold settle, turn_status, turn_state.
  destruct (process_structured st (Value v)) as [[st1 ev] [s|e]];
    simpl in C, B, S |- *; unfold control in C; inversion C as [[C1 C2 C3]].
  - split; [exact (S s eq_refl)|now split].
  - rewrite (on_exception_benign st1 e (B e eq_refl)) by congruence.
    simpl. split; [now left|now split].
Qed.

(** *** Malformed fragments among whole objects *)

(** The finish reason that line 1116 reads from a dict chunk. *)
Definition finish_reason_of (d : dict) : pyval :=
  match extract_deltas (Value (PDict d)) with
  | Ok (_, _, finish) => finish
  | Raise _ => PNone
  end.

(** What the loop sends for a dict chunk: its text delta, when the usage
    entry read before it is a dict or absent. *)
Definition dict_chunk_events (d : dict) : list event :=
  match text_delta_of d with
  | Some t => if usage_readable d then [text_delta text_block_index t] else []
  | None => []
  end.

Lemma on_exception_benign_events (st : state) (e : exn) :
  benign e = true -> snd (fst (on_exception st e)) = [].
Proof.
  unfold benign. intros B.
  apply andb_prop in B as [B B4]. apply andb_prop in B as [B B3].
  apply andb_prop in B as [B1 B2].
  apply negb_true_iff in B1, B2, B4.
  unfold on_exception, count_error. rewrite B1, B2, B3, B4.
  now destruct (Nat.leb _ _).
Qed.

(** The [except] clauses add nothing to what the extraction of a decoded
    value has sent. *)
Lemma settle_events (st : state) (v : pyval) (seen : option chunk) :
  turn_events (settle (process_structured st (Value v), seen)) =
  snd (fst (process_structured st (Value v))).
Proof.
  pose proof (process_structured_benign st v) as B.
  unfold settle, turn_events.
  destruct (process_structured st (Value v)) as [[st1 ev] [s|e]];
    simpl in B |- *; [reflexivity|].
  pose proof (on_exception_benign_events st1 e (B e eq_refl)) as O.
  destruct (on_exception st1 e) as [[a b] c]. simpl in O |- *. subst b.
  apply app_nil_r.
Qed.

Lemma process_structured_events (st : state) (d : dict) :
  snd (fst (process_structured st (Value (PDict d)))) = dict_chunk_events d.
Proof.
  unfold process_structured, dict_chunk_events, text_delta_of, usage_readable.
  destruct (extract_deltas (Value (PDict d))) as [[[text calls] fin]|e] eqn:X;
    [|reflexivity].
  assert (K : forall st2 ev1,
            snd (fst (match tool_calls_step st2 calls with
                      | Raise e => (st2, ev1, Raise e)
                      | Ok (st3, ev2) =>
                          let '(st4, s) := finish_step st3 fin in
                          (st4, (ev1 ++ ev2)%list, Ok s)
                      end)) = ev1).
  { intros st2 ev1.
    destruct (extract_deltas_dict d _ _ _ X) as [C|[v C]]; subst calls.
    - simpl. unfold finish_step. destruct (truthy fin); simpl; apply app_nil_r.
    - unfold tool_calls_step. destruct (truthy v).
      + destruct v; try reflexivity;
          unfold finish_step; destruct (truthy fin); simpl; apply app_nil_r.
      + unfold finish_step. destruct (truthy fin); simpl; apply app_nil_r. }
  assert (T : forall st1,
            snd (fst (match text_delta_step st1 text with
                      | Raise e => (st1, [], Raise e)
                      | Ok (st2, ev1) =>
                          match tool_calls_step st2 calls with
                          | Raise e => (st2, ev1, Raise e)
                          | Ok (st3, ev2) =>
                              let '(st4, s) := finish_step st3 fin in
                              (st4, (ev1 ++ ev2)%list, Ok s)
                          end
                      end)) =
            match text with
            | PStr t => if String.eqb t "" then []
                        else [text_delta text_block_index t]
            | _ => []
            end).
  { intros st1. unfold text_delta_step.
    destruct text as [|b|n|m x|t|l|dd|a]; simpl truthy; cbv match;
      try destruct (String.eqb t ""); simpl negb; cbv match;
      repeat match goal with
             | |- context [if ?c then _ else _] => destruct c
             end;
      try reflexivity; apply K. }
  simpl read_usage. destruct (has_key "usage" d); simpl negb; simpl orb.
  - destruct (get "usage" PNone d); simpl py_get; cbv match;
      try (destruct text as [| | | |t| | |]; try reflexivity;
           destruct (String.eqb t ""); reflexivity).
    simpl. rewrite T. destruct text as [| | | |t| | |]; try reflexivity.
    now destruct (String.eqb t "").
  - rewrite T. destruct text as [| | | |t| | |]; try reflexivity.
    now destruct (String.eqb t "").
Qed.

Lemma settle_seen (p : state * list event * res status) (seen : option chunk) :
  turn_seen (settle (p, seen)) = seen.
Proof.
  destruct p as [[st ev] [s|e]]; [reflexivity|].
  unfold settle, turn_seen. now destruct (on_exception st e) as [[a b] c].
Qed.

(** Without a finish reason the loop goes on after a dict chunk,
    whatever else the chunk holds. *)
Lemma settle_no_finish (st : state) (d : dict) (seen : option chunk) :
  consecutive_errors st = 0 ->
  truthy (finish_reason_of d) = false ->
  turn_status (settle (process_structured st (Value (PDict d)), seen)) = Continue.
Proof.
  intros Z F.
  pose proof (process_structured_untouched control st (Value (PDict d))
                control_untouched) as C.
  pose proof (process_structured_benign st (PDict d)) as B.
  assert (G : forall s, snd (process_structured st (Value (PDict d))) = Ok s ->
                        s = Continue).
  { unfold process_structured. unfold finish_reason_of in F.
    destruct (extract_deltas (Value (PDict d))) as [[[text calls] fin]|e];
      [|discriminate].
    destruct (read_usage st (Value (PDict d))) as [st1|e]; [|discriminate].
    destruct (text_delta_step st1 text) as [[st2 ev1]|e]; [|discriminate].
    destruct (tool_calls_step st2 calls) as [[st3 ev2]|e]; [|discriminate].
    unfold finish_step. rewrite F. simpl. intros s E. now inversion E. }
  unfold settle, turn_status.
  destruct (process_structured st (Value (PDict d))) as [[st1 ev] [s|e]];
    simpl in C, B, G |- *; unfold control in C; inversion C as [[C1 C2 C3]].
  - exact (G s eq_refl).
  - rewrite (on_exception_benign st1 e (B e eq_refl)) by congruence.
    reflexivity.
Qed.

(** A fragment that is one whole object, met with an empty buffer:
    decoded at once, it reaches the extraction, its events are sent and
    the buffer is empty again; the loop goes on when the object has no
    finish reason. *)
Lemma whole_fragment_step (st : state) (s : string) (d : dict) :
  chunk_buffer st = "" ->
  is_malformed_chunk s = false ->
  balanced_object s = true ->
  json_loads s = Some (PDict d) ->
  let t := iteration st (fragment s) in
  turn_events t = dict_chunk_events d /\
  (turn_status t = Continue \/ turn_status t = Break) /\
  (truthy (finish_reason_of d) = false -> turn_status t = Continue) /\
  turn_seen t = Some (Value (PDict d)) /\
  chunk_buffer (turn_state t) = "" /\
  malformed_chunks_count (turn_state t) = malformed_chunks_count st /\
  stream_terminated_early (turn_state t) = stream_terminated_early st.
Proof.
  intros Hb M B J t. subst t. unfold fragment, iteration, process_chunk.
  destruct (balanced_not_done s B) as [D _]. rewrite D, M.
  change (chunk_buffer (set_all_chunks (all_chunks st ++ [Value (PStr s)])
                          (set_consecutive_errors 0 st)))
    with (chunk_buffer st).
  rewrite Hb. change ("" ++ s) with s.
  rewrite (try_parse_balanced s B), J.
  unfold process_parsed.
  set (st1 := set_chunk_buffer ""
                (set_all_chunks (all_chunks st ++ [Value (PStr s)])
                   (set_consecutive_errors 0 st))).
  destruct (settle_value_control st1 (PDict d) (Some (Value (PDict d))) eq_refl)
    as [G1 [G2 G3]].
  split; [rewrite settle_events; apply process_structured_events|].
  split; [exact G1|]. split; [intros F; now apply settle_no_finish|].
  repeat split.
  - apply settle_seen.
  - now rewrite settled_buffer.
  - now rewrite G3.
  - now rewrite G2.
Qed.

(** A fragment with what the loop makes of it: [None] for a malformed
    one, the decoded dict for one that is a whole object. *)
Inductive fragment_is : string -> option dict -> Prop :=
| is_malformed (s : string) :
    is_malformed_chunk s = true -> fragment_is s None
| is_whole_object (s : string) (d : dict) :
    is_malformed_chunk s = false ->
    balanced_object s = true ->
    json_loads s = Some (PDict d) ->
    fragment_is s (Some d).

(** No object but the last fragment of all carries a finish reason. *)
Fixpoint finish_only_last (l : list (string * option dict)) : bool :=
  match l with
  | [] => true
  | p :: rest =>
      match snd p, rest with
      | Some d, _ :: _ => negb (truthy (finish_reason_of d)) && finish_only_last rest
      | _, _ => finish_only_last rest
      end
  end.

Definition malformed_among (l : list (string * option dict)) : nat :=
  List.length (filter (fun p => match snd p with None => true | Some _ => false end) l).

Definition decoded_among (l : list (string * option dict)) : list dict :=
  flat_map (fun p => match snd p with Some d => [d] | None => [] end) l.

Definition fragments (l : list (string * option dict)) : list fetch :=
  map (fun p => fragment (fst p)) l.

(** Malformed fragments and whole objects in any order, with at most
    twenty malformed ones in all and a finish reason at most on the last
    fragment: every object reaches the extraction and has its events
    sent, every malformed fragment is counted, and the stream is not cut
    short. *)
Lemma fragments_processed (l : list (string * option dict)) (st : state) :
  chunk_buffer st = "" ->
  Forall (fun p => fragment_is (fst p) (snd p)) l ->
  finish_only_last l = true ->
  malformed_chunks_count st + malformed_among l <= 20 ->
  extracted (stream_loop st (fragments l)) =
    map (fun d => Value (PDict d)) (decoded_among l) /\
  sent (stream_loop st (fragments l)) =
    flat_map dict_chunk_events (decoded_among l) /\
  malformed_chunks_count (final (stream_loop st (fragments l))) =
    malformed_chunks_count st + malformed_among l /\
  stream_terminated_early (final (stream_loop st (fragments l))) =
    stream_terminated_early st /\
  propagated (stream_loop st (fragments l)) = None.
Proof.
  revert st. induction l as [|[s k] l IH]; intros st Hb F L Le.
  - simpl. rewrite Nat.add_0_r. repeat split.
  - inversion F as [|? ? Hs Hl]; subst. simpl in Hs.
    cbn [fragments map fst stream_loop]. fold (fragments l).
    inversion Hs as [s0 M|s0 d M B J]; subst.
    + assert (L1 : finish_only_last l = true).
      { cbn [finish_only_last snd] in L. exact L. }
      rewrite (malformed_fragment_step st s M). cbv zeta.
      unfold malformed_among in Le |- *. cbn [filter snd List.length] in Le |- *.
      fold (malformed_among l) in Le |- *.
      destruct (max_malformed_chunks <? S (malformed_chunks_count st))%nat eqn:X.
      { apply Nat.ltb_lt in X. unfold max_malformed_chunks in X. lia. }
      set (st1 := set_malformed_chunks_count (S (malformed_chunks_count st))
                    (set_all_chunks (all_chunks st ++ [Value (PStr s)])
                       (set_consecutive_errors 0 st))).
      assert (Le1 : malformed_chunks_count st1 + malformed_among l <= 20).
      { subst st1. simpl. lia. }
      destruct (IH st1 Hb Hl L1 Le1) as [I1 [I2 [I3 [I4 I5]]]].
      cbn [final sent propagated extracted seen_list app decoded_among flat_map snd].
      fold (decoded_among l). repeat split; try assumption.
      rewrite I3. subst st1. simpl. lia.
    + pose proof (whole_fragment_step st s d Hb M B J) as W. cbv zeta in W.
      unfold turn_events, turn_status, turn_seen, turn_state in W.
      destruct (iteration st (fragment s)) as [[[st1 ev] status1] seen].
      simpl in W. destruct W as [W1 [W2 [W3 [W4 [W5 [W6 W7]]]]]]. subst ev seen.
      unfold malformed_among in Le |- *. cbn [filter snd] in Le |- *.
      fold (malformed_among l) in Le |- *.
      destruct l as [|q l].
      * (* the last fragment of all *)
        cbn [fragments map stream_loop decoded_among flat_map snd app
             malformed_among filter List.length].
        rewrite Nat.add_0_r.
        destruct W2 as [W2|W2]; subst status1;
          cbn [final sent propagated extracted seen_list app];
          rewrite ?app_nil_r; repeat split; assumption.
      * cbn [finish_only_last snd] in L. apply andb_prop in L as [N L1].
        apply negb_true_iff in N. rewrite (W3 N).
        assert (Le1 : malformed_chunks_count st1 + malformed_among (q :: l) <= 20)
          by (rewrite W6; exact Le).
        destruct (IH st1 W5 Hl L1 Le1) as [I1 [I2 [I3 [I4 I5]]]].
        cbn [final sent propagated extracted seen_list app].
        change (decoded_among ((s, Some d) :: q :: l))
          with (d :: decoded_among (q :: l)).
        cbn [map flat_map]. repeat split.
        -- now rewrite I1.
        -- now rewrite I2.
        -- now rewrite I3, W6.
        -- now rewrite I4, W7.
        -- exact I5.
Qed.

(** A run of malformed fragments that keeps the count at twenty or
    below: nothing is sent, nothing reaches the extraction, each fragment
    is counted and the stream is not cut short. *)
Lemma malformed_run (l : list string) (st : state) :
  Forall (fun s => is_malformed_chunk s = true) l ->
  malformed_chunks_count st + List.length l <= 20 ->
  sent (stream_loop st (map fragment l)) = [] /\
  extracted (stream_loop st (map fragment l)) = [] /\
  malformed_chunks_count (final (stream_loop st (map fragment l))) =
    malformed_chunks_count st + List.length l /\
  stream_terminated_early (final (stream_loop st (map fragment l))) =
    stream_terminated_early st /\
  propagated (stream_loop st (map fragment l)) = None.
Proof.
  revert st. induction l as [|s l IH]; intros st F Le.
  - simpl. rewrite Nat.add_0_r. repeat split.
  - inversion F as [|? ? M Hl]; subst.
    cbn [map stream_loop List.length] in Le |- *.
    rewrite (malformed_fragment_step st s M). cbv zeta.
    destruct (max_malformed_chunks <? S (malformed_chunks_count st))%nat eqn:L.
    { apply Nat.ltb_lt in L. unfold max_malformed_chunks in L. lia. }
    set (st1 := set_malformed_chunks_count (S (malformed_chunks_count st))
                  (set_all_chunks (all_chunks st ++ [Value (PStr s)])
                     (set_consecutive_errors 0 st))).
    assert (Le1 : malformed_chunks_count st1 + List.length l <= 20).
    { subst st1. simpl. lia. }
    destruct (IH st1 Hl Le1) as [I1 [I2 [I3 [I4 I5]]]].
    cbn [final sent propagated extracted seen_list app].
    repeat split; try assumption.
    rewrite I3. subst st1. simpl. lia.
Qed.

(** C5, as amended.  The detector rejects exactly the fragments the
    claim lists, tested with the surrounding whitespace removed: the
    empty and the blank ones, the eight single characters, the fifteen
    literals, an opened brace left unclosed in fewer than 15 characters,
    an opened bracket left unclosed in fewer than 10, unequal brace or
    bracket counts in fewer than 20.  A rejected fragment is dropped and
    counted, and ends the stream early exactly when the count passes 20;
    a run of rejected fragments that keeps the count at 20 or below sends
    nothing and does not end the stream.  Five rejected fragments among
    five whole objects, in any order, met with an empty buffer and with
    a finish reason at most on the last fragment of all: all five
    objects reach the extraction, in order, their text deltas are sent,
    the count is five and the stream is not ended early. *)
Theorem malformed_fragments_dropped (st : state) :
  (forall s, is_malformed_chunk s = true <-> spec_rejects s) /\
  (forall s, is_malformed_chunk s = true ->
     turn_events (iteration st (fragment s)) = [] /\
     turn_seen (iteration st (fragment s)) = None /\
     malformed_chunks_count (turn_state (iteration st (fragment s))) =
       S (malformed_chunks_count st) /\
     chunk_buffer (turn_state (iteration st (fragment s))) = chunk_buffer st /\
     (20 < S (malformed_chunks_count st) ->
      turn_status (iteration st (fragment s)) = Break /\
      stream_terminated_early (turn_state (iteration st (fragment s))) = true) /\
     (S (malformed_chunks_count st) <= 20 ->
      turn_status (iteration st (fragment s)) = Continue /\
      stream_terminated_early (turn_state (iteration st (fragment s))) =
        stream_terminated_early st)) /\
  (forall l : list string,
     Forall (fun s => is_malformed_chunk s = true) l ->
     malformed_chunks_count st + List.length l <= 20 ->
     sent (stream_loop st (map fragment l)) = [] /\
     extracted (stream_loop st (map fragment l)) = [] /\
     malformed_chunks_count (final (stream_loop st (map fragment l))) =
       malformed_chunks_count st + List.length l /\
     stream_terminated_early (final (stream_loop st (map fragment l))) =
       stream_terminated_early st /\
     propagated (stream_loop st (map fragment l)) = None) /\
  (forall l,
     Forall (fun p => fragment_is (fst p) (snd p)) l ->
     finish_only_last l = true ->
     malformed_among l = 5 -> List.length (decoded_among l) = 5 ->
     extracted (stream_loop initial (fragments l)) =
       map (fun d => Value (PDict d)) (decoded_among l) /\
     sent (stream_loop initial (fragments l)) =
       flat_map dict_chunk_events (decoded_among l) /\
     malformed_chunks_count (final (stream_loop initial (fragments l))) = 5 /\
     stream_terminated_early (final (stream_loop initial (fragments l))) = false /\
     propagated (stream_loop initial (fragments l)) = None).
Proof.
  split; [exact is_malformed_chunk_iff|]. split.
  - intros s M. rewrite (malformed_fragment_step st s M). cbv zeta.
    destruct (max_malformed_chunks <? S (malformed_chunks_count st))%nat eqn:L.
    + apply Nat.ltb_lt in L. unfold max_malformed_chunks in L.
      repeat split; try reflexivity; lia.
    + apply Nat.ltb_ge in L. unfold max_malformed_chunks in L.
      repeat split; try reflexivity; lia.
  - split; [exact (fun l => malformed_run l st)|].
    intros l F L M5 T5.
    assert (Le : malformed_chunks_count initial + malformed_among l <= 20).
    { rewrite M5. simpl. lia. }
    destruct (fragments_processed l initial eq_refl F L Le) as [I1 [I2 [I3 [I4 I5]]]].
    repeat split; try assumption.
    rewrite I3, M5. reflexivity.
Qed.

Lemma malformed_empty : is_malformed_chunk "" = true.
Proof. reflexivity. Qed.

(** C4, as amended.  A chunk whose text is one balanced object, decoded
    by [json.loads] to a dict with a text delta and a readable usage,
    arrives in two fragments that are not malformed, the first of at
    most 10000 characters, while the buffer is empty: the first is held
    and nothing is sent; the second completes the object, which is
    decoded, and exactly one text delta with the whole text is sent. *)
Theorem split_chunk_reassembled
    (st : state) (f1 f2 : string) (d : dict) (t : string) :
  chunk_buffer st = "" ->
  is_malformed_chunk f1 = false ->
  is_malformed_chunk f2 = false ->
  (Z.of_nat (String.length f1) <= 10000)%Z ->
  balanced_object (f1 ++ f2) = true ->
  json_loads (f1 ++ f2) = Some (PDict d) ->
  text_delta_of d = Some t ->
  usage_readable d = true ->
  let first := iteration st (fragment f1) in
  let second := iteration (turn_state first) (fragment f2) in
  turn_events first = [] /\
  turn_status first = Continue /\
  turn_seen first = None /\
  chunk_buffer (turn_state first) = f1 /\
  turn_events second = [text_delta text_block_index t] /\
  turn_seen second = Some (Value (PDict d)) /\
  chunk_buffer (turn_state second) = "".
Proof.
  intros Hb M1 M2 Len B J T U.
  assert (N1 : f1 <> "").
  { intros E. subst f1. rewrite malformed_empty in M1. discriminate M1. }
  assert (N2 : f2 <> "").
  { intros E. subst f2. rewrite malformed_empty in M2. discriminate M2. }
  destruct (closes_split f1 f2 0 N2 B) as [O C].
  (* neither fragment is the end marker *)
  assert (D1 : String.eqb (strip f1) "[DONE]" = false).
  { destruct f1 as [|c r]; [now elim N1|].
    pose proof (stays_open_head c r O) as E. subst c.
    destruct (strip_cons "{" r eq_refl) as [r' S]. now rewrite S. }
  assert (D2 : String.eqb (strip f2) "[DONE]" = false).
  { destruct (String.eqb (strip f2) "[DONE]") eqn:E; [|reflexivity].
    apply String.eqb_eq in E. apply closes_count in C.
    rewrite <- (count_strip "}" f2 eq_refl), E in C. simpl in C. lia. }
  (* the first fragment *)
  assert (S1 : iteration st (fragment f1) =
               (set_chunk_buffer f1
                  (set_all_chunks (all_chunks st ++ [Value (PStr f1)])
                     (set_consecutive_errors 0 st)),
                [], Continue, None)).
  { unfold fragment, iteration, process_chunk. rewrite D1, M1.
    change (chunk_buffer (set_all_chunks (all_chunks st ++ [Value (PStr f1)])
                            (set_consecutive_errors 0 st)))
      with (chunk_buffer st).
    rewrite Hb. change ("" ++ f1) with f1.
    rewrite (try_parse_open f1 N1 O). cbv zeta. cbv match.
    change (chunk_buffer (set_chunk_buffer f1 _)) with f1.
    destruct (10000 <? Z.of_nat (String.length f1))%Z eqn:L.
    { apply Z.ltb_lt in L. lia. }
    reflexivity. }
  intros first second. subst second first. rewrite S1.
  unfold turn_events, turn_status, turn_seen, turn_state. cbn [fst snd].
  repeat split.
  - (* the second fragment: events *)
    unfold fragment, iteration, process_chunk. rewrite D2, M2.
    change (chunk_buffer (set_all_chunks _ (set_consecutive_errors 0
              (set_chunk_buffer f1 _)))) with f1.
    rewrite (try_parse_balanced (f1 ++ f2) B), J. cbv zeta. cbv match.
    unfold process_parsed.
    exact (settle_text_delta _ d t _ T U).
  - unfold fragment, iteration, process_chunk. rewrite D2, M2.
    change (chunk_buffer (set_all_chunks _ (set_consecutive_errors 0
              (set_chunk_buffer f1 _)))) with f1.
    rewrite (try_parse_balanced (f1 ++ f2) B), J. cbv zeta. cbv match.
    unfold process_parsed, settle.
    destruct (process_structured _ (Value (PDict d))) as [[a b] [c|e]];
      [reflexivity|].
    now destruct (on_exception a e) as [[x y] z].
  - unfold fragment, iteration, process_chunk. rewrite D2, M2.
    change (chunk_buffer (set_all_chunks _ (set_consecutive_errors 0
              (set_chunk_buffer f1 _)))) with f1.
    rewrite (try_parse_balanced (f1 ++ f2) B), J. cbv zeta. cbv match.
    unfold process_parsed.
    apply settled_buffer.
Qed.

(** *** The finish reason *)

(** A chunk object never makes the extraction raise: what it does to the
    stop reason is decided by its finish reason alone. *)
Lemma process_response_finish (st : state) (o : ModelResponse)
    (choice : Choice) (rest : list Choice) :
  choices o = choice :: rest ->
  let t := process_structured st (Response o) in
  match finish_reason choice with
  | Some f =>
      if String.eqb f "" then
        snd t = Ok Continue /\
        final_stop_reason (fst (fst t)) = final_stop_reason st
      else
        snd t = Ok Break /\
        final_stop_reason (fst (fst t)) = map_chunk_finish_reason (PStr f)
  | None =>
      snd t = Ok Continue /\
      final_stop_reason (fst (fst t)) = final_stop_reason st
  end.
Proof.
  intros C t. subst t. unfold process_structured, extract_deltas. rewrite C.
  set (text := match delta choice with
               | Some d => opt_str (content d) | None => PNone end).
  set (calls := match delta choice with
                | Some d => match tool_calls d with
                            | Some l => ObjectToolCalls l
                            | None => NoToolCalls
                            end
                | None => NoToolCalls end).
  assert (E : (let '(text, calls) :=
                 match delta choice with
                 | Some d => (opt_str (content d),
                              match tool_calls d with
                              | Some l => ObjectToolCalls l
                              | None => NoToolCalls
                              end)
                 | None => (PNone, NoToolCalls)
                 end in
               Ok (text, calls, opt_str (finish_reason choice))) =
              Ok (text, calls, opt_str (finish_reason choice))).
  { subst text calls. now destruct (delta choice). }
  rewrite E. clear E.
  assert (U : exists st1, read_usage st (Response o) = Ok st1 /\
                          final_stop_reason st1 = final_stop_reason st).
  { simpl. destruct (usage o); eexists; split; reflexivity. }
  destruct U as [st1 [U R1]]. rewrite U.
  assert (T : exists st2 ev1, text_delta_step st1 text = Ok (st2, ev1) /\
                              final_stop_reason st2 = final_stop_reason st1).
  { unfold text_delta_step. subst text.
    destruct (delta choice) as [d|]; [|do 2 eexists; split; reflexivity].
    destruct (content d) as [x|]; simpl; [|do 2 eexists; split; reflexivity].
    destruct (negb (String.eqb x "")); do 2 eexists; split; reflexivity. }
  destruct T as [st2 [ev1 [T R2]]]. rewrite T.
  assert (K : exists st3 ev2, tool_calls_step st2 calls = Ok (st3, ev2) /\
                              final_stop_reason st3 = final_stop_reason st2).
  { unfold tool_calls_step. subst calls.
    destruct (delta choice) as [d|]; [|do 2 eexists; split; reflexivity].
    destruct (tool_calls d) as [l|]; [|do 2 eexists; split; reflexivity].
    pose proof (tool_calls_fold_output l (st2, [])) as O. simpl fst in O.
    destruct (fold_left tool_call_step l (st2, [])) as [st3 ev2].
    do 2 eexists. split; [reflexivity|]. simpl in O. rewrite O. reflexivity. }
  destruct K as [st3 [ev2 [K R3]]]. rewrite K.
  unfold finish_step.
  destruct (finish_reason choice) as [f|]; simpl.
  - destruct (String.eqb f ""); simpl; split; try reflexivity; congruence.
  - split; [reflexivity|congruence].
Qed.

(** The two mappings as functions.  Without streaming: [length] gives
    [max_tokens], [tool_calls] gives [tool_use], [stop] gives
    [end_turn], an absent reason with tool calls gives [tool_use],
    anything else [end_turn].  The mapping of the streaming loop:
    [length] gives [max_tokens], [tool_calls] gives [tool_use], [stop]
    and any other give [end_turn]; it runs only on a truthy finish
    reason, so that a chunk without one leaves the stop reason as it is,
    tool calls or not. *)
Theorem finish_reason_mapping :
  (forall calls,
     Response.map_finish_reason (PStr "length") calls = Response.max_tokens /\
     Response.map_finish_reason (PStr "tool_calls") calls = Response.tool_use /\
     Response.map_finish_reason (PStr "stop") calls = Response.end_turn) /\
  (forall calls, truthy calls = true ->
     Response.map_finish_reason PNone calls = Response.tool_use) /\
  (forall reason calls,
     eq_str reason "length" = false -> eq_str reason "tool_calls" = false ->
     (reason = PNone -> truthy calls = false) ->
     Response.map_finish_reason reason calls = Response.end_turn) /\
  map_chunk_finish_reason (PStr "length") = Response.max_tokens /\
  map_chunk_finish_reason (PStr "tool_calls") = Response.tool_use /\
  map_chunk_finish_reason (PStr "stop") = Response.end_turn /\
  (forall reason,
     eq_str reason "length" = false -> eq_str reason "tool_calls" = false ->
     map_chunk_finish_reason reason = Response.end_turn) /\
  (forall st reason, truthy reason = true ->
     finish_step st reason =
     (set_final_stop_reason (map_chunk_finish_reason reason) st, Break)) /\
  (forall st reason, truthy reason = false ->
     finish_step st reason = (st, Continue)) /\
  (forall st o choice rest, choices o = choice :: rest ->
     finish_reason choice = None ->
     snd (process_structured st (Response o)) = Ok Continue /\
     final_stop_reason (fst (fst (process_structured st (Response o)))) =
     final_stop_reason st).
Proof.
  repeat split.
  - intros calls T. unfold Response.map_finish_reason. simpl. now rewrite T.
  - intros reason calls L T N. unfold Response.map_finish_reason.
    rewrite L, T. destruct reason; try reflexivity.
    now rewrite (N eq_refl).
  - intros reason L T. unfold map_chunk_finish_reason. rewrite L, T.
    now destruct (eq_str reason "stop").
  - intros st reason T. unfold finish_step. now rewrite T.
  - intros st reason T. unfold finish_step. now rewrite T.
  - pose proof (process_response_finish st o choice rest H) as P.
    simpl in P. rewrite H0 in P. apply P.
  - pose proof (process_response_finish st o choice rest H) as P.
    simpl in P. rewrite H0 in P. apply P.
Qed.

End Handler.

(** A chunk object with one text delta, as the backend library sends it. *)
Definition text_chunk (text : string) (finish : option string) : chunk :=
  Response {| choices := [{| delta := Some {| content := Some text;
                                              tool_calls := None |};
                             finish_reason := finish |}];
              usage := None |}.

(** The caller counts 42 input tokens; the stream carries no usage; the
    opening event says 42 and the closing one 0. *)
Lemma message_delta_input_tokens_zero_witness :
  fst (handle_streaming_with_recovery Json.loads (fun _ => BuilderNoUsage)
         [Got (text_chunk "Hi" None); Got (text_chunk "" (Some "stop"))]
         "claude-3-5-sonnet-20241022" 42) =
  [message_start "claude-3-5-sonnet-20241022" 42;
   content_block_start_text 0;
   ping;
   text_delta 0 "Hi";
   content_block_stop 0;
   message_delta Response.end_turn (PInt 0) (PInt 0);
   message_stop] /\
  (forall reason i o,
     In (message_delta reason i o)
        (fst (handle_streaming_with_recovery Json.loads (fun _ => BuilderNoUsage)
                [Got (text_chunk "Hi" None); Got (text_chunk "" (Some "stop"))]
                "claude-3-5-sonnet-20241022" 42)) -> i = PInt 0).
Proof.
  split; [reflexivity|].
  refine (proj1 (proj2 (proj2 (message_delta_input_tokens_zero Json.loads
                  (fun _ => BuilderNoUsage)
                  [Got (text_chunk "Hi" None); Got (text_chunk "" (Some "stop"))]
                  "claude-3-5-sonnet-20241022" 42)) _)).
  repeat constructor.
Defined.

(** *** The reassembler on concrete streams *)

(** The text of a chunk with one text delta. *)
Definition chunk_text (text : string) : string :=
  Json.dq "{'choices':[{'delta':{'content':'" ++ text ++ Json.dq "'}}]}".

Definition decoded_chunk (text : string) : dict :=
  [("choices", PList [PDict [("delta", PDict [("content", PStr text)])]])].

Definition no_usage : list chunk -> built := fun _ => BuilderNoUsage.

Lemma split_chunk_reassembled_witness :
  turn_events (iteration Json.loads initial
                 (fragment (Json.dq "{'choices':[{'delta':{'con"))) = [] /\
  turn_events
    (iteration Json.loads
       (turn_state (iteration Json.loads initial
                      (fragment (Json.dq "{'choices':[{'delta':{'con"))))
       (fragment (Json.dq "tent':'Hello world'}}]}"))) =
  [text_delta 0 "Hello world"].
Proof.
  assert (L : (Z.of_nat (String.length (Json.dq "{'choices':[{'delta':{'con"))
               <= 10000)%Z) by (vm_compute; discriminate).
  pose proof (split_chunk_reassembled Json.loads initial
                (Json.dq "{'choices':[{'delta':{'con")
                (Json.dq "tent':'Hello world'}}]}")
                (decoded_chunk "Hello world") "Hello world"
                eq_refl eq_refl eq_refl L eq_refl eq_refl eq_refl eq_refl) as W.
  cbv zeta in W. destruct W as [W1 [_ [_ [_ [W2 _]]]]]. split; assumption.
Defined.

Fixpoint replicate (n : nat) (c : ascii) : string :=
  match n with
  | O => EmptyString
  | S n' => String c (replicate n' c)
  end.

(** A chunk whose text delta is 10020 letters long, cut after 10000 of
    them: both fragments pass the detector. *)
Definition long_first : string :=
  Json.dq "{'choices':[{'delta':{'content':'" ++ replicate (N.to_nat 10000) "a".
Definition long_second : string :=
  replicate 20 "a" ++ Json.dq "'}}]}".

(** C4 as stated fails when the first fragment is longer than 10000
    characters: held in the buffer, it is dropped as too large, the
    second fragment alone holds no object, and no text delta is sent. *)
Lemma split_chunk_long_first_fragment :
  is_malformed_chunk long_first = false /\
  is_malformed_chunk long_second = false /\
  Json.loads (long_first ++ long_second) =
    Some (PDict (decoded_chunk (replicate (N.to_nat 10020) "a"))) /\
  fst (handle_streaming_with_recovery Json.loads no_usage
         [fragment long_first; fragment long_second] "gemini-pro" 7) =
  [message_start "gemini-pro" 7;
   content_block_start_text 0;
   ping;
   content_block_stop 0;
   message_delta Response.end_turn (PInt 0) (PInt 0);
   message_stop].
Proof. vm_compute. repeat split. Qed.

(** The scan counts the braces inside string values too: a text delta
    with a brace in it is never decoded, whole or split. *)
Example brace_in_text_delta :
  Json.loads (chunk_text "hello {") = Some (PDict (decoded_chunk "hello {")) /\
  is_malformed_chunk (chunk_text "hello {") = false /\
  fst (handle_streaming_with_recovery Json.loads no_usage
         [fragment (chunk_text "hello {")] "gemini-pro" 7) =
  [message_start "gemini-pro" 7;
   content_block_start_text 0;
   ping;
   content_block_stop 0;
   message_delta Response.end_turn (PInt 0) (PInt 0);
   message_stop].
Proof. vm_compute. repeat split. Qed.

(** A chunk with a usage entry, one with a null finish reason, one with
    a role, and the last chunk of a completion, which carries the finish
    reason. *)
Definition usage_chunk_text : string :=
  Json.dq "{'choices':[{'delta':{'content':'b'}}],'usage':{'prompt_tokens':3,'completion_tokens':4}}".

Definition null_finish_chunk_text : string :=
  Json.dq "{'choices':[{'index':0,'delta':{'content':'c'},'finish_reason':null}]}".

Definition role_chunk_text : string :=
  Json.dq "{'choices':[{'index':0,'delta':{'role':'assistant','content':'d'}}]}".

Definition finish_chunk_text (text : string) : string :=
  Json.dq "{'choices':[{'delta':{'content':'" ++ text ++
  Json.dq "'},'finish_reason':'stop'}]}".

Definition decoded (s : string) : option dict :=
  match Json.loads s with
  | Some (PDict d) => Some d
  | _ => None
  end.

(** Five malformed fragments among five whole chunks, the last of which
    ends the completion. *)
Definition five_and_five : list (string * option dict) :=
  [ ("{", None);
    (chunk_text "a", decoded (chunk_text "a"));
    ("", None);
    (usage_chunk_text, decoded usage_chunk_text);
    ("null", None);
    (null_finish_chunk_text, decoded null_finish_chunk_text);
    ("[]", None);
    (role_chunk_text, decoded role_chunk_text);
    ("  ", None);
    (finish_chunk_text "e", decoded (finish_chunk_text "e")) ].

Lemma malformed_fragments_dropped_witness :
  (is_malformed_chunk "{" = true /\
   iteration Json.loads (set_malformed_chunks_count 20 initial) (fragment "{") =
     (set_stream_terminated_early true
        (set_malformed_chunks_count 21
           (set_all_chunks [Value (PStr "{")] initial)), [], Break, None) /\
   turn_status (iteration Json.loads (set_malformed_chunks_count 19 initial)
                  (fragment "{")) = Continue) /\
  malformed_chunks_count
    (final (stream_loop Json.loads initial
              (map fragment ["{"; ""; "null"; "[]"; "  "]))) = 5 /\
  map fst five_and_five =
    ["{"; chunk_text "a"; ""; usage_chunk_text; "null"; null_finish_chunk_text;
     "[]"; role_chunk_text; "  "; finish_chunk_text "e"] /\
  List.length (extracted (stream_loop Json.loads initial
                            (fragments five_and_five))) = 5 /\
  sent (stream_loop Json.loads initial (fragments five_and_five)) =
    [text_delta 0 "a"; text_delta 0 "b"; text_delta 0 "c";
     text_delta 0 "d"; text_delta 0 "e"] /\
  malformed_chunks_count (final (stream_loop Json.loads initial
                                   (fragments five_and_five))) = 5 /\
  stream_terminated_early (final (stream_loop Json.loads initial
                                    (fragments five_and_five))) = false /\
  propagated (stream_loop Json.loads initial (fragments five_and_five)) = None.
Proof.
  assert (F : Forall (fun p => fragment_is Json.loads (fst p) (snd p))
                     five_and_five).
  { unfold five_and_five.
    repeat (apply Forall_cons;
            [first [apply is_malformed; reflexivity
                   |apply is_whole_object; reflexivity]|]).
    apply Forall_nil. }
  assert (M : Forall (fun s => is_malformed_chunk s = true)
                     ["{"; ""; "null"; "[]"; "  "]).
  { repeat (apply Forall_cons; [reflexivity|]). apply Forall_nil. }
  pose proof (malformed_fragments_dropped Json.loads
                (set_malformed_chunks_count 20 initial)) as [_ [T20 _]].
  pose proof (malformed_fragments_dropped Json.loads
                (set_malformed_chunks_count 19 initial)) as [_ [T19 _]].
  pose proof (malformed_fragments_dropped Json.loads initial) as [_ [_ [R W]]].
  specialize (T20 "{" eq_refl). specialize (T19 "{" eq_refl).
  specialize (R ["{"; ""; "null"; "[]"; "  "] M).
  specialize (W five_and_five F eq_refl eq_refl eq_refl).
  destruct T20 as [_ [_ [_ [_ [T20 _]]]]]. destruct T19 as [_ [_ [_ [_ [_ T19]]]]].
  split; [split; [reflexivity|split; [reflexivity|]]|].
  - apply T19. simpl. lia.
  - split; [apply R; simpl; lia|]. split; [reflexivity|].
    destruct W as [W1 [W2 [W3 [W4 W5]]]].
    split; [rewrite W1; reflexivity|].
    split; [exact W2|]. split; [exact W3|]. split; [exact W4|exact W5].
Defined.

(** The chunk with the finish reason comes first among the valid ones;
    or it comes last among them, with one malformed fragment after it. *)
Definition five_and_five_stop : list string :=
  ["{"; finish_chunk_text "a"; ""; chunk_text "b"; "null"; chunk_text "c";
   "[]"; chunk_text "d"; "  "; chunk_text "e"].

Definition five_and_five_late : list string :=
  [chunk_text "a"; "{"; chunk_text "b"; ""; chunk_text "c"; "null";
   chunk_text "d"; "[]"; finish_chunk_text "e"; "  "].

(** C5 as stated fails when a valid chunk that carries a finish reason
    is not the last fragment of all: the loop ends at that chunk (line
    1168), so the valid chunks after it are not processed and the
    malformed fragments after it are not counted. *)
Lemma finish_reason_ends_interleaving :
  map is_malformed_chunk five_and_five_stop =
    [true; false; true; false; true; false; true; false; true; false] /\
  map decoded (filter (fun s => negb (is_malformed_chunk s)) five_and_five_stop) =
    [Some [("choices",
            PList [PDict [("delta", PDict [("content", PStr "a")]);
                          ("finish_reason", PStr "stop")]])];
     Some (decoded_chunk "b"); Some (decoded_chunk "c");
     Some (decoded_chunk "d"); Some (decoded_chunk "e")] /\
  sent (stream_loop Json.loads initial (map fragment five_and_five_stop)) =
    [text_delta 0 "a"] /\
  List.length (extracted (stream_loop Json.loads initial
                            (map fragment five_and_five_stop))) = 1 /\
  malformed_chunks_count
    (final (stream_loop Json.loads initial (map fragment five_and_five_stop))) = 1 /\
  malformed_chunks_count
    (final (stream_loop Json.loads initial (map fragment five_and_five_stop))) <> 5 /\
  map is_malformed_chunk five_and_five_late =
    [false; true; false; true; false; true; false; true; false; true] /\
  List.length (extracted (stream_loop Json.loads initial
                            (map fragment five_and_five_late))) = 5 /\
  malformed_chunks_count
    (final (stream_loop Json.loads initial (map fragment five_and_five_late))) = 4 /\
  malformed_chunks_count
    (final (stream_loop Json.loads initial (map fragment five_and_five_late))) <> 5.
Proof. vm_compute. repeat split; discriminate. Qed.

(** A chunk object that opens a tool call and carries no finish reason. *)
Definition tool_call_chunk : chunk :=
  Response
    {| choices :=
         [{| delta :=
               Some {| content := None;
                       tool_calls :=
                         Some [{| id := Some "call_1";
                                  function :=
                                    Some {| name := Some "get_weather";
                                            arguments := Some "{}" |} |}] |};
             finish_reason := None |}];
       usage := None |}.

(** A dict chunk that carries the finish reason [length], with a [null]
    usage entry or with none. *)
Definition length_chunk (usage : list (string * pyval)) : chunk :=
  Value (PDict ([("choices",
                  PList [PDict [("delta", PDict [("content", PStr "Hi")]);
                                ("finish_reason", PStr "length")]])]
                ++ usage)%list).

(** C9.  The streaming path departs from the claim.  A stream that ends
    after a tool call without a finish reason sends the stop reason
    [end_turn], where the claim, and the path without streaming on the
    same absent reason with tool calls, give [tool_use].  And a chunk
    with the finish reason [length] whose usage entry is [null] raises
    before the mapping is reached: the loop goes on and [end_turn] is
    sent, where the same chunk without the usage entry gives
    [max_tokens]. *)
Theorem streaming_absent_finish_reason :
  fst (handle_streaming_with_recovery Json.loads no_usage
         [Got tool_call_chunk] "gemini-pro" 7) =
  [message_start "gemini-pro" 7;
   content_block_start_text 0;
   ping;
   content_block_start_tool_use 1 (Some "call_1") "get_weather";
   input_json_delta 1 "{}";
   content_block_stop 0;
   content_block_stop 1;
   message_delta Response.end_turn (PInt 0) (PInt 0);
   message_stop] /\
  Response.map_finish_reason PNone (PList [PDict [("id", PStr "call_1")]]) =
  Response.tool_use /\
  fst (handle_streaming_with_recovery Json.loads no_usage
         [Got (length_chunk [("usage", PNone)])] "gemini-pro" 7) =
  [message_start "gemini-pro" 7;
   content_block_start_text 0;
   ping;
   content_block_stop 0;
   message_delta Response.end_turn (PInt 0) (PInt 0);
   message_stop] /\
  fst (handle_streaming_with_recovery Json.loads no_usage
         [Got (length_chunk [])] "gemini-pro" 7) =
  [message_start "gemini-pro" 7;
   content_block_start_text 0;
   ping;
   text_delta 0 "Hi";
   content_block_stop 0;
   message_delta Response.max_tokens (PInt 0) (PInt 0);
   message_stop].
Proof. repeat split; reflexivity. Qed.

Lemma finish_reason_mapping_witness :
  finish_step initial (PStr "length") =
  (set_final_stop_reason Response.max_tokens initial, Break) /\
  finish_step initial PNone = (initial, Continue).
Proof.
  destruct finish_reason_mapping as [_ [_ [_ [_ [_ [_ [_ [T [F _]]]]]]]]].
  split; [exact (T initial (PStr "length") eq_refl)|exact (F initial PNone eq_refl)].
Defined.

End Streaming.

(** ** More on Python strings *)

Module StrFacts.
Import PyStr.




End StrFacts.

(** ** More on the model resolver *)

Module ModelFacts.
Import PyStr ModelManager.

Section WithConfig.

Variables big_model small_model : string.

Lemma add_env_model_in (models : list string) (model m : string) :
  In m (add_env_model models model) <->
  In m models \/ (m = model /\ startswith "gemini" model = true).
Proof.
  unfold add_env_model.
  destruct (startswith "gemini" model) eqn:G; simpl.
  - destruct (mem model models) eqn:M; simpl.
    + apply mem_In in M. split; [now left|]. intros [H|[-> _]]; assumption.
    + rewrite in_app_iff. simpl. split.
      * intros [H|[H|[]]]; [now left|right; now split].
      * intros [H|[-> _]]; [now left|right; now left].
  - split; [now left|]. intros [H|[_ H]]; [assumption|discriminate].
Qed.

Lemma add_env_model_nodup (models : list string) (model : string) :
  NoDup models -> NoDup (add_env_model models model).
Proof.
  intros N. unfold add_env_model.
  destruct (startswith "gemini" model && negb (mem model models)) eqn:C;
    [|assumption].
  apply andb_prop in C as [_ C]. apply negb_true_iff in C.
  apply NoDup_app; [assumption|repeat constructor; intros []|].
  intros x Hx [<-|[]]. apply mem_In in Hx. congruence.
Qed.

(** X2.  The known models are the base models and the configured ids that
    start with [gemini], each once; every known model starts with
    [gemini]. *)
Theorem known_models_characterised :
  NoDup (_gemini_models big_model small_model) /\
  (forall m, In m (_gemini_models big_model small_model) <->
             In m base_gemini_models \/
             ((m = big_model \/ m = small_model) /\ startswith "gemini" m = true)) /\
  (forall m, In m (_gemini_models big_model small_model) ->
             startswith "gemini" m = true).
Proof.
  assert (C : forall m, In m (_gemini_models big_model small_model) <->
             In m base_gemini_models \/
             ((m = big_model \/ m = small_model) /\ startswith "gemini" m = true)).
  { intros m. unfold _gemini_models, _add_env_models. simpl fold_left.
    rewrite !add_env_model_in. split.
    - intros [[H|[-> G]]|[-> G]]; auto.
    - intros [H|[[->| ->] G]]; auto. }
  split; [|split; [exact C|]].
  - unfold _gemini_models, _add_env_models. simpl fold_left.
    apply add_env_model_nodup, add_env_model_nodup.
    unfold base_gemini_models.
    repeat (constructor; [simpl; intuition discriminate|]). constructor.
  - intros m H. apply C in H as [H|[_ H]]; [|exact H].
    unfold base_gemini_models in H. simpl in H.
    repeat (destruct H as [<-|H]; [reflexivity|]). destruct H.
Qed.

Lemma tagged_fst (b : bool) (a c : string * bool) :
  startswith "gemini/" (fst a) = true -> startswith "gemini/" (fst c) = true ->
  startswith "gemini/" (fst (if b then a else c)) = true.
Proof. now destruct b. Qed.

(** X1.  Whatever the input, the resolved name carries the provider tag. *)
Theorem resolved_name_tagged (original : string) :
  startswith "gemini/"
    (fst (validate_and_map_model big_model small_model original)) = true.
Proof.
  rewrite validate_and_map_model_eq.
  apply tagged_fst; [apply (startswith_app "gemini/")|].
  apply tagged_fst; [apply (startswith_app "gemini/")|].
  destruct (startswith "gemini/" original) eqn:G.
  - exact G.
  - apply (startswith_app "gemini/").
Qed.

Lemma clean_anthropic (r : string) : _clean_model_name ("anthropic/" ++ r) = r.
Proof.
  unfold _clean_model_name.
  change (startswith "gemini/" ("anthropic/" ++ r)) with false.
  now rewrite (startswith_app "anthropic/" r).
Qed.

Lemma clean_openai (r : string) : _clean_model_name ("openai/" ++ r) = r.
Proof.
  unfold _clean_model_name.
  change (startswith "gemini/" ("openai/" ++ r)) with false.
  change (startswith "anthropic/" ("openai/" ++ r)) with false.
  now rewrite (startswith_app "openai/" r).
Qed.

Lemma mapped_by_clean (a b : string) :
  _clean_model_name a = _clean_model_name b ->
  snd (validate_and_map_model big_model small_model a) = true ->
  validate_and_map_model big_model small_model b =
  validate_and_map_model big_model small_model a.
Proof.
  intros E. rewrite !validate_and_map_model_eq. rewrite E.
  destruct (negb (String.eqb _ _)); [reflexivity|].
  destruct (mem _ _); [reflexivity|].
  destruct (negb (startswith "gemini/" a)); discriminate.
Qed.

(** X3.  When a name under the [anthropic/] prefix resolves to a mapped or
    known model, the same name under [openai/] or [gemini/] resolves to
    the same result. *)
Theorem provider_prefix_irrelevant (name : string) :
  snd (validate_and_map_model big_model small_model ("anthropic/" ++ name)) = true ->
  validate_and_map_model big_model small_model ("openai/" ++ name) =
    validate_and_map_model big_model small_model ("anthropic/" ++ name) /\
  validate_and_map_model big_model small_model ("gemini/" ++ name) =
    validate_and_map_model big_model small_model ("anthropic/" ++ name).
Proof.
  intros H. split; apply mapped_by_clean; try exact H.
  - now rewrite clean_openai, clean_anthropic.
  - now rewrite clean_gemini, clean_anthropic.
Qed.

End WithConfig.

Lemma provider_prefix_irrelevant_witness :
  validate_and_map_model default_big_model default_small_model
    "openai/claude-3-haiku" =
  validate_and_map_model default_big_model default_small_model
    "anthropic/claude-3-haiku".
Proof.
  exact (proj1 (provider_prefix_irrelevant default_big_model default_small_model
                  "claude-3-haiku" eq_refl)).
Defined.

End ModelFacts.

(** ** More on the schema sanitizer *)

Module SchemaFacts.
Import PyStr Py Schema.

Lemma lookup_in (k : string) (v : pyval) (d : dict) :
  In (k, v) d -> has_key k d = true.
Proof.
  unfold has_key. induction d as [|[k0 v0] d IH]; [intros []|].
  intros [H|H]; simpl.
  - inversion H; subst. now rewrite String.eqb_refl.
  - destruct (String.eqb k k0); [reflexivity|]. now apply IH.
Qed.

(** A supported mapping loses no key to the sanitizer. *)
Lemma supported_keeps (m : dict) (k : string) (v : pyval) :
  supported m -> In (k, v) m -> spec_deleted m k = false.
Proof.
  intros [Ha [Hd Hf]] Hin. pose proof (lookup_in k v m Hin) as Hk.
  unfold spec_deleted.
  destruct (String.eqb k "additionalProperties") eqn:E1.
  { apply String.eqb_eq in E1. subst k. congruence. }
  destruct (String.eqb k "default") eqn:E2.
  { apply String.eqb_eq in E2. subst k. congruence. }
  destruct (String.eqb k "format") eqn:E3; [|now rewrite andb_false_r].
  apply String.eqb_eq in E3. subst k. simpl. rewrite andb_true_r.
  unfold spec_deletes_format.
  destruct (eq_str (get "type" PNone m) "string") eqn:T; [|reflexivity].
  rewrite Hk. simpl. destruct (Hf eq_refl Hk) as [F|F]; rewrite F; reflexivity.
Qed.

Lemma spec_items_kept (m l : dict) :
  (forall k v, In (k, v) l -> spec_deleted m k = false) ->
  spec_items m l = map (fun kv => (fst kv, sanitize_spec (snd kv))) l.
Proof.
  induction l as [|[k v] l IH]; intros H; [reflexivity|].
  change (spec_items m ((k, v) :: l)) with
    (if spec_deleted m k then spec_items m l
     else (k, sanitize_spec v) :: spec_items m l).
  rewrite (H k v (or_introl eq_refl)). simpl. f_equal.
  apply IH. intros k' v' Hin. apply (H k' v'). now right.
Qed.

Lemma sanitizable_items_forall (m l : dict) :
  Forall (fun kv => sanitizable (snd kv) = true) l ->
  sanitizable_items m l = true.
Proof.
  induction 1 as [|[k v] l Hv Hl IH]; [reflexivity|].
  change (sanitizable_items m ((k, v) :: l)) with
    ((spec_deleted m k || sanitizable v) && sanitizable_items m l).
  simpl in Hv. rewrite Hv, IH. now rewrite orb_true_r.
Qed.

Lemma supported_format_hashable (m : dict) :
  supported m -> format_hashable m = true.
Proof.
  intros [_ [_ Hf]]. unfold format_hashable.
  destruct (eq_str (get "type" PNone m) "string") eqn:T; [|reflexivity].
  destruct (has_key "format" m) eqn:F; [|reflexivity].
  simpl. destruct (Hf eq_refl eq_refl) as [E|E]; rewrite E; reflexivity.
Qed.

(** What the sanitizer returns is a value it accepts and keeps. *)
Lemma sanitize_spec_fixed (schema : pyval) :
  sanitizable (sanitize_spec schema) = true /\
  sanitize_spec (sanitize_spec schema) = sanitize_spec schema.
Proof.
  induction schema as [| | | | |l IH|d IH|a IH] using pyval_rect';
    try (split; reflexivity).
  - simpl. split.
    + rewrite forallb_forall. intros x Hx.
      apply in_map_iff in Hx as [y [<- Hy]].
      rewrite Forall_forall in IH. apply (IH y Hy).
    + f_equal. rewrite map_map. apply map_ext_in. intros y Hy.
      rewrite Forall_forall in IH. apply (IH y Hy).
  - rewrite sanitize_dict_eq.
    pose proof (spec_items_supported d) as Sup.
    assert (V : forall k v, In (k, v) (spec_items d d) ->
                  sanitizable v = true /\ sanitize_spec v = v).
    { intros k v Hin. apply in_spec_items in Hin as [v0 [Hin ->]].
      rewrite Forall_forall in IH. exact (IH (k, v0) Hin). }
    split.
    + rewrite sanitizable_dict_eq, (supported_format_hashable _ Sup).
      apply sanitizable_items_forall. rewrite Forall_forall.
      intros [k v] Hin. exact (proj1 (V k v Hin)).
    + rewrite sanitize_dict_eq. f_equal.
      rewrite spec_items_kept
        by (intros k v Hin; exact (supported_keeps _ k v Sup Hin)).
      rewrite <- (map_id (spec_items d d)) at 2.
      apply map_ext_in. intros [k v] Hin. simpl.
      now rewrite (proj2 (V k v Hin)).
Qed.

(** X4.  Cleaning is idempotent: a schema that the sanitizer has returned is
    returned unchanged when it is cleaned again. *)
Theorem clean_gemini_schema_idempotent (schema cleaned : pyval) :
  clean_gemini_schema schema = Ok cleaned ->
  clean_gemini_schema cleaned = Ok cleaned.
Proof.
  intros H. destruct (sanitizable schema) eqn:S.
  - rewrite (clean_refines_spec schema S) in H. inversion H; subst cleaned.
    destruct (sanitize_spec_fixed schema) as [S' E].
    rewrite (clean_refines_spec _ S'). now rewrite E.
  - destruct (clean_raises schema S) as [e He]. congruence.
Qed.

Lemma clean_gemini_schema_idempotent_witness :
  clean_gemini_schema (PDict [("type", PStr "string")]) =
  Ok (PDict [("type", PStr "string")]).
Proof.
  exact (clean_gemini_schema_idempotent example_schema
           (PDict [("type", PStr "string")]) eq_refl).
Defined.

(** Whatever the sanitizer returns holds supported mappings only. *)
Lemma cleaned_supported (schema cleaned : pyval) (m : dict) :
  clean_gemini_schema schema = Ok cleaned -> occurs m cleaned -> supported m.
Proof.
  intros H O. destruct (sanitizable schema) eqn:S.
  - rewrite (clean_refines_spec schema S) in H. inversion H; subst cleaned.
    exact (sanitize_spec_supported schema m O).
  - destruct (clean_raises schema S) as [e He]. congruence.
Qed.

End SchemaFacts.

(** ** More on the translation of messages *)

Module RequestFacts.
Import PyStr Py Request.

Section Translator.

Variable json_dumps : pyval -> res string.
Variable py_str : pyval -> string.


(** The tool results of a message, in block order. *)
Fixpoint tool_results (blocks : list ContentBlock) : list (string * pyval) :=
  match blocks with
  | [] => []
  | ContentBlockToolResult tool_use_id c :: rest => (tool_use_id, c) :: tool_results rest
  | _ :: rest => tool_results rest
  end.

Definition is_user_message (m : pyval) : Prop :=
  exists c, m = PDict [("role", PStr "user"); ("content", c)].

(** [m] is the tool message of the tool result [r]. *)
Definition tool_message_of (m : pyval) (r : string * pyval) : Prop :=
  exists p, parse_tool_result_content json_dumps py_str (snd r) = Ok p /\ m = tool_message (fst r) p.

Lemma user_blocks_loop (blocks : list ContentBlock) :
  forall a a', blocks_loop json_dumps py_str user a blocks = Ok a' ->
  exists users tools,
    appended a' = (appended a ++ users)%list /\
    pending_tool_messages a' = (pending_tool_messages a ++ tools)%list /\
    Forall is_user_message users /\
    Forall2 tool_message_of tools (tool_results blocks) /\
    List.length users <= List.length (tool_results blocks).
Proof.
  induction blocks as [|b blocks IH]; intros a a' H.
  - simpl in H. inversion H; subst. exists [], []. rewrite !app_nil_r.
    repeat split; constructor.
  - change (blocks_loop json_dumps py_str user a (b :: blocks)) with
      (x <- block_step json_dumps py_str user a b ;; blocks_loop json_dumps py_str user x blocks) in H.
    destruct b as [text|source|i n input|tool_use_id c].
    + apply IH in H. exact H.
    + cbn [Request.block_step] in H. destruct (image_accepted source);
        apply IH in H; exact H.
    + apply IH in H. exact H.
    + cbn [Request.block_step] in H.
      destruct (parse_tool_result_content json_dumps py_str c) as [p|e] eqn:P;
        [|discriminate H].
      cbn [bind] in H. apply IH in H.
      destruct H as [users [tools [Ha [Hp [Hu [Ht Hl]]]]]].
      cbn [appended pending_tool_messages] in Ha, Hp.
      destruct (has_parts a).
      * cbn [appended pending_tool_messages] in Ha, Hp.
        exists (user_message (text_parts a) (image_parts a) :: users),
               (tool_message tool_use_id p :: tools).
        rewrite Ha, Hp, <- !app_assoc. repeat split.
        -- constructor; [eexists; reflexivity|exact Hu].
        -- constructor; [exists p; now split|exact Ht].
        -- simpl. lia.
      * exists users, (tool_message tool_use_id p :: tools).
        rewrite Ha, Hp, <- !app_assoc. repeat split.
        -- exact Hu.
        -- constructor; [exists p; now split|exact Ht].
        -- simpl. lia.
Qed.

(** X5.  A user message becomes its user-role messages followed by one tool
    message for each of its tool results, in block order. *)
Theorem user_tool_messages_last (blocks : list ContentBlock) (out : list pyval) :
  convert_message json_dumps py_str {| role := user; content := ContentBlocks blocks |} = Ok out ->
  exists users tools,
    out = (users ++ tools)%list /\
    Forall is_user_message users /\
    Forall2 tool_message_of tools (tool_results blocks) /\
    List.length users <= S (List.length (tool_results blocks)).
Proof.
  unfold Request.convert_message. cbn [content role].
  destruct (blocks_loop json_dumps py_str user start blocks) as [a|e] eqn:L; [|discriminate].
  cbn [bind]. intros H. inversion H; subst out; clear H.
  destruct (user_blocks_loop blocks start a L)
    as [users [tools [Ha [Hp [Hu [Ht Hl]]]]]].
  cbn [appended pending_tool_messages start app] in Ha, Hp.
  unfold finalize. rewrite Ha, Hp.
  destruct (has_parts a).
  - exists (users ++ [user_message (text_parts a) (image_parts a)])%list, tools.
    repeat split; try assumption.
    + apply Forall_app. split; [exact Hu|].
      constructor; [eexists; reflexivity|constructor].
    + rewrite length_app. simpl. lia.
  - exists users, tools. rewrite app_nil_r. repeat split; try assumption. lia.
Qed.

(** The tool uses of a message, in block order. *)
Fixpoint tool_uses (blocks : list ContentBlock) : list (string * string * dict) :=
  match blocks with
  | [] => []
  | ContentBlockToolUse id name input :: rest => (id, name, input) :: tool_uses rest
  | _ :: rest => tool_uses rest
  end.

(** [c] is the backend tool call of the tool use [u]. *)
Definition tool_call_of (c : pyval) (u : string * string * dict) : Prop :=
  let '(id, name, input) := u in
  exists arguments,
    json_dumps (PDict input) = Ok arguments /\
    c = PDict [("id", PStr id); ("type", PStr "function");
               ("function", PDict [("name", PStr name);
                                   ("arguments", PStr arguments)])].

Lemma assistant_blocks_loop (blocks : list ContentBlock) :
  forall a a', blocks_loop json_dumps py_str assistant a blocks = Ok a' ->
  text_parts a' = (text_parts a ++ texts_of blocks)%list /\
  image_parts a' = (image_parts a ++ images_of py_str blocks)%list /\
  pending_tool_messages a' = pending_tool_messages a /\
  appended a' = appended a /\
  exists calls,
    tool_calls a' = (tool_calls a ++ calls)%list /\
    Forall2 tool_call_of calls (tool_uses blocks).
Proof.
  induction blocks as [|b blocks IH]; intros a a' H.
  - simpl in H. inversion H; subst. rewrite !app_nil_r.
    repeat split. exists []. rewrite app_nil_r. split; constructor.
  - change (blocks_loop json_dumps py_str assistant a (b :: blocks)) with
      (x <- block_step json_dumps py_str assistant a b ;;
       blocks_loop json_dumps py_str assistant x blocks) in H.
    destruct b as [text|source|i n input|tool_use_id c].
    + apply IH in H. cbn [text_parts image_parts pending_tool_messages
                          appended tool_calls] in H.
      destruct H as [Ht [Hi [Hp [Ha Hc]]]].
      cbn [texts_of images_of tool_uses]. rewrite Ht, <- app_assoc.
      repeat split; assumption.
    + cbn [Request.block_step] in H. cbn [texts_of images_of tool_uses].
      destruct (image_accepted source); apply IH in H;
        cbn [text_parts image_parts pending_tool_messages appended tool_calls] in H;
        destruct H as [Ht [Hi [Hp [Ha Hc]]]].
      * rewrite Hi, <- app_assoc. repeat split; assumption.
      * repeat split; assumption.
    + cbn [Request.block_step] in H.
      destruct (json_dumps (PDict input)) as [arguments|e] eqn:D;
        [|discriminate H].
      cbn [bind] in H. apply IH in H.
      cbn [text_parts image_parts pending_tool_messages appended tool_calls] in H.
      destruct H as [Ht [Hi [Hp [Ha [calls [Hc Hf]]]]]].
      cbn [texts_of images_of tool_uses]. repeat split; try assumption.
      eexists (_ :: calls). rewrite Hc, <- app_assoc. split; [reflexivity|].
      constructor; [|exact Hf]. exists arguments. now split.
    + apply IH in H. exact H.
Qed.

Definition is_image_part (v : pyval) : Prop :=
  exists url, v = PDict [("type", PStr "image_url");
                         ("image_url", PDict [("url", PStr url)])].

Lemma images_of_parts (blocks : list ContentBlock) :
  Forall is_image_part (images_of py_str blocks).
Proof.
  induction blocks as [|b blocks IH]; [constructor|].
  destruct b as [text|source|i n input|tool_use_id c]; cbn [images_of];
    try exact IH.
  destruct (image_accepted source); [|exact IH].
  constructor; [|exact IH]. eexists. reflexivity.
Qed.

(** The content built from gathered parts is truthy as soon as there is
    a part. *)
Lemma content_of_parts_truthy (texts : list string) (images : list pyval) :
  Forall is_image_part images ->
  content_parts texts images <> [] ->
  truthy (content_of_parts (content_parts texts images)) = true.
Proof.
  intros F N. unfold content_parts in *.
  destruct (String.eqb (strip (String.concat "" texts)) "") eqn:E.
  - cbn [app] in *. destruct images as [|i images]; [now elim N|].
    inversion F as [|? ? [url ->] F']; subst.
    destruct images; reflexivity.
  - cbn [app]. destruct images as [|i images].
    + cbn. now rewrite E.
    + reflexivity.
Qed.

(** The message that an assistant message with the given parts and tool
    calls becomes. *)
Definition assistant_message (parts calls : list pyval) : pyval :=
  PDict ([("role", PStr "assistant");
          ("content", match parts with [] => PNone | _ => content_of_parts parts end)]
         ++ match calls with [] => [] | _ => [("tool_calls", PList calls)] end)%list.

(** X6.  An assistant message becomes at most one backend message, which
    carries the gathered text and images and one tool call for each of
    its tool uses, in block order; it becomes none when it has no part
    and no tool use.  Its tool results are ignored. *)
Theorem assistant_message_shape (blocks : list ContentBlock) (out : list pyval) :
  convert_message json_dumps py_str
    {| role := assistant; content := ContentBlocks blocks |} = Ok out ->
  let parts := content_parts (texts_of blocks) (images_of py_str blocks) in
  exists calls,
    Forall2 tool_call_of calls (tool_uses blocks) /\
    out = match parts, calls with
          | [], [] => []
          | _, _ => [assistant_message parts calls]
          end.
Proof.
  intros H parts. unfold Request.convert_message in H. cbn [content role] in H.
  destruct (blocks_loop json_dumps py_str assistant start blocks) as [a|e] eqn:L;
    [|discriminate H].
  cbn [bind] in H. inversion H; subst out; clear H.
  destruct (assistant_blocks_loop blocks start a L)
    as [Ht [Hi [Hp [Ha [calls [Hc Hf]]]]]].
  cbn [text_parts image_parts appended tool_calls start app] in Ht, Hi, Ha, Hc.
  exists calls. split; [exact Hf|].
  unfold finalize. rewrite Ht, Hi, Ha, Hc. fold parts.
  pose proof (content_of_parts_truthy (texts_of blocks) (images_of py_str blocks)
                (images_of_parts blocks)) as T. fold parts in T.
  destruct parts as [|part parts'].
  - destruct calls as [|call calls']; reflexivity.
  - specialize (T ltac:(discriminate)).
    assert (G : forall r c rest,
              get "content" PNone (("role", r) :: ("content", c) :: rest) = c)
      by reflexivity.
    rewrite G, T. cbn [orb app]. unfold assistant_message.
    destruct calls; reflexivity.
Qed.

End Translator.

Lemma user_tool_messages_last_witness :
  exists users tools,
    [PDict [("role", PStr "user"); ("content", PStr "Here is the output:")];
     PDict [("role", PStr "tool"); ("tool_call_id", PStr "toolu_01");
            ("content", PStr "42")]] = (users ++ tools)%list /\
    Forall is_user_message users /\
    Forall2 (tool_message_of no_dumps no_str) tools [("toolu_01", PStr "42")] /\
    List.length users <= 2.
Proof.
  exact (user_tool_messages_last no_dumps no_str
           [ContentBlockText "Here is the output: ";
            ContentBlockToolResult "toolu_01" (PStr "42")] _ eq_refl).
Defined.

Lemma assistant_message_shape_witness :
  exists calls,
    Forall2 (tool_call_of (fun _ => Ok "{}")) calls
      [("toolu_01", "get_weather", @nil (string * pyval))] /\
    [PDict [("role", PStr "assistant"); ("content", PStr "Let me check.");
            ("tool_calls",
             PList [PDict [("id", PStr "toolu_01"); ("type", PStr "function");
                           ("function", PDict [("name", PStr "get_weather");
                                               ("arguments", PStr "{}")])]])]] =
    match content_parts ["Let me check."] [], calls with
    | [], [] => []
    | _, _ => [assistant_message (content_parts ["Let me check."] []) calls]
    end.
Proof.
  exact (assistant_message_shape (fun _ => Ok "{}") no_str
           [ContentBlockText "Let me check.";
            ContentBlockToolUse "toolu_01" "get_weather" [];
            ContentBlockToolResult "toolu_00" (PStr "ignored")] _ eq_refl).
Defined.

End RequestFacts.

(** ** The whole request: [convert_anthropic_to_litellm] *)

Module Conversion.
Import PyStr Py Request.

Record SystemContent : Type := { text : string }.

(** [system]: a [str] or a list of text blocks. *)
Inductive SystemPrompt : Type :=
| SystemStr (s : string)
| SystemBlocks (blocks : list SystemContent).

Record Tool : Type := {
  name : string;
  description : option string;
  input_schema : dict
}.

Record ThinkingConfig : Type := { enabled : bool }.

(** A validated [MessagesRequest]; a [float] is its mantissa and
    exponent. *)
Record MessagesRequest : Type := {
  model : string;
  max_tokens : Z;
  messages : list Message;
  system : option SystemPrompt;
  stop_sequences : option (list string);
  stream : option bool;
  temperature : option (Z * Z);
  top_p : option (Z * Z);
  top_k : option Z;
  metadata : option dict;
  tools : option (list Tool);
  tool_choice : option dict;
  thinking : option ThinkingConfig;
  original_model : option string
}.

Definition opt_float (o : option (Z * Z)) : pyval :=
  match o with Some (m, e) => PFloat m e | None => PNone end.

Definition opt_bool (o : option bool) : pyval :=
  match o with Some b => PBool b | None => PNone end.

(** Lines 624-638: the system message, if any. *)
Definition system_messages (system : option SystemPrompt) : list pyval :=
  match system with
  | None => []
  | Some s =>
      let system_text :=
        match s with
        | SystemStr t => t
        | SystemBlocks blocks => join (newline ++ newline) (map text blocks)
        end in
      let present :=
        match s with
        | SystemStr t => negb (String.eqb t "")
        | SystemBlocks blocks => match blocks with [] => false | _ => true end
        end in
      if present && negb (String.eqb (strip system_text) "")
      then [PDict [("role", PStr "system"); ("content", PStr (strip system_text))]]
      else []
  end.

(** [tool.name and tool.name.strip()] *)
Definition named (tool : Tool) : bool :=
  negb (String.eqb (name tool) "") && negb (String.eqb (strip (name tool)) "").

Definition function_tool (tool : Tool) (cleaned_schema : pyval) : pyval :=
  PDict [("type", PStr "function");
         ("function",
          PDict [("name", PStr (name tool));
                 ("description",
                  PStr (match description tool with Some d => d | None => "" end));
                 ("parameters", cleaned_schema)])].

(** Lines 757-768: the loop over the tools. *)
Fixpoint valid_tools (l : list Tool) : res (list pyval) :=
  match l with
  | [] => Ok []
  | tool :: rest =>
      if named tool then
        cleaned_schema <- Schema.clean_gemini_schema (PDict (input_schema tool)) ;;
        rest' <- valid_tools rest ;;
        Ok (function_tool tool cleaned_schema :: rest')
      else valid_tools rest
  end.

(** Lines 773-785, for a truthy [tool_choice]. *)
Definition tool_choice_value (choice : dict) : pyval :=
  let choice_type := get "type" PNone choice in
  if eq_str choice_type "auto" then PStr "auto"
  else if eq_str choice_type "any" then PStr "auto"
  else if eq_str choice_type "tool" && has_key "name" choice
  then PDict [("type", PStr "function");
              ("function", PDict [("name", get "name" PNone choice)])]
  else PStr "auto".

Section Translator.

Variable json_dumps : pyval -> res string.
Variable py_str : pyval -> string.

(** [config.max_tokens_limit] *)
Variable max_tokens_limit : Z.

(** [convert_anthropic_to_litellm]: the request dict, in insertion
    order. *)
Definition convert_anthropic_to_litellm (r : MessagesRequest) : res dict :=
  converted <- convert_messages json_dumps py_str (messages r) ;;
  let litellm_messages := (system_messages (system r) ++ converted)%list in
  tools_entry <-
    match tools r with
    | Some (tool :: rest) =>
        valid <- valid_tools (tool :: rest) ;;
        Ok (match valid with
            | [] => []
            | _ => [("tools", PList valid)]
            end)
    | _ => Ok []
    end ;;
  Ok ([("model", PStr (model r));
       ("messages", PList litellm_messages);
       ("max_tokens", PInt (Z.min (max_tokens r) max_tokens_limit));
       ("temperature", opt_float (temperature r));
       ("stream", opt_bool (stream r))]
      ++ match stop_sequences r with
         | Some (stop :: rest) => [("stop", PList (map PStr (stop :: rest)))]
         | _ => []
         end
      ++ match top_p r with
         | Some (m, e) => [("top_p", PFloat m e)]
         | None => []
         end
      ++ match top_k r with
         | Some k => [("topK", PInt k)]
         | None => []
         end
      ++ tools_entry
      ++ match tool_choice r with
         | Some (binding :: rest) =>
             [("tool_choice", tool_choice_value (binding :: rest))]
         | _ => []
         end
      ++ match thinking r with
         | Some t =>
             [("thinkingConfig",
               PDict [("thinkingBudget", PInt (if enabled t then 24576 else 0))])]
         | None => []
         end
      ++ match metadata r with
         | Some d =>
             match lookup "user_id" d with
             | Some (PStr user_id) => [("user", PStr user_id)]
             | _ => []
             end
         | None => []
         end)%list.

Lemma Ok_inj {A : Type} (a b : A) : Ok a = Ok b -> a = b.
Proof. congruence. Qed.



(** [e] is the backend tool of [tool]: its parameters are the cleaned
    input schema, in which only supported mappings occur. *)
Definition backend_tool_of (e : pyval) (tool : Tool) : Prop :=
  exists cleaned_schema,
    Schema.clean_gemini_schema (PDict (input_schema tool)) = Ok cleaned_schema /\
    e = function_tool tool cleaned_schema /\
    forall m, Schema.occurs m cleaned_schema -> Schema.supported m.

Lemma valid_tools_named (l : list Tool) (valid : list pyval) :
  valid_tools l = Ok valid -> Forall2 backend_tool_of valid (filter named l).
Proof.
  revert valid. induction l as [|tool l IH]; intros valid H.
  - inversion H. constructor.
  - cbn [valid_tools filter] in *. destruct (named tool); [|now apply IH].
    destruct (Schema.clean_gemini_schema (PDict (input_schema tool)))
      as [cleaned|e] eqn:C; [|discriminate H].
    cbn [bind] in H. destruct (valid_tools l) as [rest'|e]; [|discriminate H].
    cbn [bind] in H. inversion H; subst valid. constructor; [|now apply IH].
    exists cleaned. split; [exact C|]. split; [reflexivity|].
    intros m. exact (SchemaFacts.cleaned_supported _ _ m C).
Qed.

(** X8.  The tools of the request are the tools with a non-blank name, in
    order, each with its cleaned schema; the key is absent when there is
    none. *)
Theorem request_tools_cleaned (r : MessagesRequest) (request : dict) :
  convert_anthropic_to_litellm r = Ok request ->
  let offered := match tools r with Some l => l | None => [] end in
  match lookup "tools" request with
  | Some v =>
      exists valid, v = PList valid /\ valid <> [] /\
                    Forall2 backend_tool_of valid (filter named offered)
  | None => filter named offered = []
  end.
Proof.
  intros H offered. unfold convert_anthropic_to_litellm in H.
  destruct (convert_messages json_dumps py_str (messages r)) as [converted|e];
    [|discriminate H].
  cbn [bind] in H.
  assert (K : forall rest : dict,
            lookup "tools"
              ([("model", PStr (model r));
                ("messages", PList (system_messages (system r) ++ converted)%list);
                ("max_tokens", PInt (Z.min (max_tokens r) max_tokens_limit));
                ("temperature", opt_float (temperature r));
                ("stream", opt_bool (stream r))]
               ++ match stop_sequences r with
                  | Some (stop :: rest) => [("stop", PList (map PStr (stop :: rest)))]
                  | _ => []
                  end
               ++ match top_p r with
                  | Some (m, e) => [("top_p", PFloat m e)]
                  | None => []
                  end
               ++ match top_k r with
                  | Some k => [("topK", PInt k)]
                  | None => []
                  end
               ++ rest)%list = lookup "tools" rest).
  { intros rest. destruct (stop_sequences r) as [[|? ?]|];
      destruct (top_p r) as [[? ?]|]; destruct (top_k r); reflexivity. }
  assert (N : lookup "tools"
                (match tool_choice r with
                 | Some (binding :: rest) =>
                     [("tool_choice", tool_choice_value (binding :: rest))]
                 | _ => []
                 end
                 ++ match thinking r with
                    | Some t =>
                        [("thinkingConfig",
                          PDict [("thinkingBudget",
                                  PInt (if enabled t then 24576 else 0))])]
                    | None => []
                    end
                 ++ match metadata r with
                    | Some d =>
                        match lookup "user_id" d with
                        | Some (PStr user_id) => [("user", PStr user_id)]
                        | _ => []
                        end
                    | None => []
                    end)%list = None).
  { destruct (tool_choice r) as [[|? ?]|]; destruct (thinking r);
      destruct (metadata r) as [d|]; try destruct (lookup "user_id" d) as [[]|];
      reflexivity. }
  subst offered. destruct (tools r) as [[|tool l]|] eqn:T.
  - cbn [bind] in H. apply Ok_inj in H. subst request.
    rewrite K. cbn [app]. rewrite N. reflexivity.
  - destruct (valid_tools (tool :: l)) as [valid|e] eqn:V; [|discriminate H].
    cbn [bind] in H. apply Ok_inj in H. subst request.
    rewrite K. apply valid_tools_named in V.
    destruct valid as [|v valid].
    + cbn [app]. rewrite N. now inversion V.
    + cbn [app lookup]. change (String.eqb "tools" "tools") with true. cbv match.
      exists (v :: valid). split; [reflexivity|]. split; [discriminate|exact V].
  - cbn [bind] in H. apply Ok_inj in H. subst request.
    rewrite K. cbn [app]. rewrite N. reflexivity.
Qed.

End Translator.

Definition weather_tool : Tool :=
  {| name := "get_weather";
     description := None;
     input_schema := [("type", PStr "object");
                      ("additionalProperties", PBool false)] |}.

Definition weather_request : MessagesRequest :=
  {| model := "gemini/gemini-pro"; max_tokens := 100;
     messages := [{| role := user; content := ContentStr "Weather?" |}];
     system := Some (SystemStr "  Be brief.  ");
     stop_sequences := None; stream := Some false;
     temperature := Some (1, 0)%Z; top_p := None; top_k := None;
     metadata := None;
     tools := Some [weather_tool; {| name := " "; description := None;
                                      input_schema := [] |}];
     tool_choice := None; thinking := None; original_model := None |}.

Definition weather_converted : dict :=
  [("model", PStr "gemini/gemini-pro");
   ("messages",
    PList [PDict [("role", PStr "system"); ("content", PStr "Be brief.")];
           PDict [("role", PStr "user"); ("content", PStr "Weather?")]]);
   ("max_tokens", PInt 100);
   ("temperature", PFloat 1 0);
   ("stream", PBool false);
   ("tools", PList [function_tool weather_tool (PDict [("type", PStr "object")])])].


Lemma request_tools_cleaned_witness :
  exists valid,
    PList [function_tool weather_tool (PDict [("type", PStr "object")])] =
      PList valid /\ valid <> [] /\
    Forall2 backend_tool_of valid [weather_tool].
Proof.
  exact (request_tools_cleaned no_dumps no_str 8192 weather_request
           weather_converted eq_refl).
Defined.

End Conversion.

(** ** More on the response translator *)

Module ResponseFacts.
Import PyStr Py Response.



Section Translator.

Variable json_loads : string -> option pyval.
Variable validate_str : pyval -> option string.
Variable validate_int : pyval -> option Z.
Variable validate_dict : pyval -> option dict.
Variable uuid4 : nat -> string.
Variable original_model : option string.
Variable request_model : string.





(** X10.  A tool call given as a mapping, with a name and string arguments:
    arguments that decode to a mapping become the input of the block,
    arguments that do not decode are kept under [raw_arguments], and
    arguments that decode to anything else make the call be skipped. *)
Theorem dict_tool_call_translated
    (i : nat) (tool_call function_data : dict) (tool_id n a : string)
    (rest : list pyval) :
  (forall s, validate_str (PStr s) = Some s) ->
  (forall d, validate_dict (PDict d) = Some d) ->
  (forall v, (forall d, v <> PDict d) -> validate_dict v = None) ->
  get "id" (PStr ("tool_" ++ uuid4 (2 + i))) tool_call = PStr tool_id ->
  get "function" (PDict []) tool_call = PDict function_data ->
  get "name" (PStr "") function_data = PStr n ->
  n <> "" ->
  get "arguments" (PStr "{}") function_data = PStr a ->
  tool_call_blocks json_loads validate_str validate_dict uuid4 i
    (PDict tool_call :: rest) =
  match json_loads a with
  | None =>
      ContentBlockToolUse tool_id n [("raw_arguments", PStr a)] ::
      tool_call_blocks json_loads validate_str validate_dict uuid4 (S i) rest
  | Some (PDict input) =>
      ContentBlockToolUse tool_id n input ::
      tool_call_blocks json_loads validate_str validate_dict uuid4 (S i) rest
  | Some _ =>
      tool_call_blocks json_loads validate_str validate_dict uuid4 (S i) rest
  end.
Proof.
  intros Vs Vd Vn Hid Hf Hn Nn Ha.
  cbn [tool_call_blocks]. unfold tool_call_block.
  rewrite Hid, Hf. cbn [py_get bind]. rewrite Hn, Ha.
  assert (T : negb (truthy (PStr n)) = false).
  { cbn [truthy]. destruct (String.eqb n "") eqn:E; [|reflexivity].
    apply String.eqb_eq in E. contradiction. }
  rewrite T. cbn [parse_arguments]. rewrite !Vs.
  destruct (json_loads a) as [v|]; cbn [bind validated].
  - destruct v; try (rewrite Vn by discriminate; reflexivity).
    rewrite Vd. reflexivity.
  - rewrite Vd. reflexivity.
Qed.

End Translator.


Lemma exact_dict_only (v : pyval) :
  (forall d, v <> PDict d) -> exact_dict v = None.
Proof. destruct v; try reflexivity. intros H. now elim (H d). Qed.

Lemma dict_tool_call_translated_witness :
  tool_call_blocks Json.loads exact_str exact_dict (fun _ => "0000") 0
    [PDict [("id", PStr "call_1");
            ("function", PDict [("name", PStr "get_weather");
                                ("arguments", PStr "{not json")])]] =
  [ContentBlockToolUse "call_1" "get_weather"
     [("raw_arguments", PStr "{not json")]].
Proof.
  exact (dict_tool_call_translated Json.loads exact_str exact_dict
           (fun _ => "0000") 0
           [("id", PStr "call_1");
            ("function", PDict [("name", PStr "get_weather");
                                ("arguments", PStr "{not json")])]
           [("name", PStr "get_weather"); ("arguments", PStr "{not json")]
           "call_1" "get_weather" "{not json" []
           (fun _ => eq_refl) (fun _ => eq_refl) exact_dict_only
           eq_refl eq_refl eq_refl ltac:(discriminate) eq_refl).
Defined.

End ResponseFacts.

(** ** More on the streaming handler *)

Module StreamFacts.
Import PyStr Py Streaming.

(** X11.  Only a short fragment is dropped as malformed: a fragment whose
    stripped text has twenty characters or more always reaches the
    reassembly buffer. *)
Theorem rejected_fragment_short (chunk_str : string) :
  is_malformed_chunk chunk_str = true ->
  String.length (strip chunk_str) < 20.
Proof.
  intros H. apply (is_malformed_chunk_iff (fun _ => None)) in H.
  unfold spec_rejects in H.
  destruct H as [H|[H|[H|[H|[H|[H|H]]]]]].
  - subst chunk_str. simpl. lia.
  - rewrite H. simpl. lia.
  - unfold malformed_singles in H. simpl in H.
    repeat (destruct H as [H|H]; [rewrite <- H; vm_compute; lia|]).
    destruct H.
  - unfold malformed_patterns in H. simpl in H.
    repeat (destruct H as [H|H]; [rewrite <- H; vm_compute; lia|]).
    destruct H.
  - lia.
  - lia.
  - lia.
Qed.

Lemma rejected_fragment_short_witness :
  String.length (strip " {,  ") < 20.
Proof. exact (rejected_fragment_short " {,  " eq_refl). Defined.

Section Handler.

Variable json_loads : string -> option pyval.
Variable stream_chunk_builder : list chunk -> built.

(** X12.  The stream ends at the end marker and at a chunk that carries a
    finish reason: nothing that follows is read.  The marker itself is
    recorded among the chunks. *)
Theorem stream_ends_at_marker (st : state) (rest : list fetch) :
  (forall s, strip s = "[DONE]" ->
     stream_loop json_loads st (fragment s :: rest) =
     {| final := set_all_chunks (all_chunks st ++ [Value (PStr s)])
                   (set_consecutive_errors 0 st);
        sent := []; propagated := None; extracted := [] |}) /\
  (forall o choice others f,
     choices o = choice :: others -> finish_reason choice = Some f -> f <> "" ->
     stream_loop json_loads st (Got (Response o) :: rest) =
       stream_loop json_loads st [Got (Response o)] /\
     final_stop_reason (final (stream_loop json_loads st (Got (Response o) :: rest)))
       = map_chunk_finish_reason (PStr f)).
Proof.
  split.
  - intros s H. cbn [stream_loop iteration fragment]. unfold process_chunk.
    rewrite H. reflexivity.
  - intros o choice others f Hc Hf Nf.
    pose proof (process_response_finish
                  (set_all_chunks (all_chunks st ++ [Response o])
                     (set_consecutive_errors 0 st)) o choice others Hc) as P.
    rewrite Hf in P. cbv zeta in P.
    destruct (String.eqb f "") eqn:E.
    { apply String.eqb_eq in E. contradiction. }
    destruct P as [P1 P2].
    cbn [stream_loop iteration]. unfold process_chunk, process_parsed.
    destruct (process_structured _ _) as [[st1 ev] r]. cbn [snd fst] in P1, P2.
    subst r. cbn [settle]. split; [reflexivity|exact P2].
Qed.

(** *** Resynchronisation of the buffer *)

(** Characters that are not braces are passed over. *)
Lemma scan_skip (buffer pre rest : string) (i : nat) :
  count "{" pre = 0 -> count "}" pre = 0 ->
  scan json_loads buffer (pre ++ rest) i 0 None =
  scan json_loads buffer rest (i + String.length pre) 0 None.
Proof.
  revert i. induction pre as [|c pre IH]; intros i Ho Hc.
  - cbn [append String.length]. now rewrite Nat.add_0_r.
  - cbn [count] in Ho, Hc. cbn [append scan String.length].
    destruct (Ascii.eqb c "{") eqn:E1; [discriminate Ho|].
    destruct (Ascii.eqb c "}") eqn:E2; [discriminate Hc|].
    rewrite (IH (S i) Ho Hc). f_equal. lia.
Qed.

(** Inside an object the scan runs to the closing brace and decodes the
    text from the opening one. *)
Lemma scan_inside (buffer rest tail : string) :
  forall (i p : nat) (brace_count : Z),
  closes_at_end brace_count rest = true ->
  scan json_loads buffer (rest ++ tail) i brace_count (Some p) =
  match json_loads (take (i + String.length rest - p) (drop p buffer)) with
  | Some parsed => (parsed, drop (i + String.length rest) buffer)
  | None => scan json_loads buffer tail (i + String.length rest) 0 (Some p)
  end.
Proof.
  induction rest as [|c rest IH]; intros i p brace_count H; [discriminate H|].
  cbn [closes_at_end] in H. cbn [append scan String.length].
  destruct rest as [|c' rest'].
  - apply andb_prop in H as [Hc Hd]. rewrite Hc.
    destruct (Ascii.eqb c "{") eqn:E1.
    { apply Ascii.eqb_eq in E1. apply Ascii.eqb_eq in Hc. congruence. }
    unfold depth_after_char in Hd. rewrite E1, Hc in Hd. rewrite Hd.
    apply Z.eqb_eq in Hd. rewrite Hd.
    cbn [append String.length]. replace (i + 1) with (S i) by lia. reflexivity.
  - apply andb_prop in H as [Hp H]. apply Z.ltb_lt in Hp.
    specialize (IH (S i) p _ H).
    replace (i + S (String.length (String c' rest')))
      with (S i + String.length (String c' rest')) by lia.
    unfold depth_after_char in Hp, IH.
    destruct (Ascii.eqb c "{") eqn:E1; [exact IH|].
    destruct (Ascii.eqb c "}") eqn:E2; [|exact IH].
    destruct (Z.eqb (brace_count - 1) 0) eqn:Z0; [|exact IH].
    apply Z.eqb_eq in Z0. lia.
Qed.

Lemma take_app_length (s t : string) : take (String.length s) (s ++ t) = s.
Proof. induction s as [|c s IH]; [now destruct t|]. simpl. now rewrite IH. Qed.

Lemma drop_add (n k : nat) (s : string) : drop (n + k) s = drop k (drop n s).
Proof.
  revert s. induction n as [|n IH]; intros s; [reflexivity|].
  destruct s as [|c s]; simpl; [now destruct k|apply IH].
Qed.

(** X13.  The buffer is resynchronised at the first object: text without a
    brace before it is passed over, the object is decoded, and what
    follows it stays in the buffer. *)
Theorem buffered_object_found (pre object tail : string) (parsed : pyval) :
  count "{" pre = 0 -> count "}" pre = 0 ->
  balanced_object object = true ->
  json_loads object = Some parsed ->
  try_parse_buffered_chunk json_loads (pre ++ object ++ tail) = (parsed, tail).
Proof.
  intros Ho Hc Hb Hp. unfold try_parse_buffered_chunk.
  destruct (closes_head object Hb) as [inner E]. subst object.
  assert (N : String.eqb (strip (pre ++ String "{" inner ++ tail)) "" = false).
  { destruct (strip _) eqn:S; [|reflexivity].
    pose proof (count_strip "{" (pre ++ String "{" inner ++ tail) eq_refl) as C.
    rewrite S in C. cbn [count] in C.
    assert (X : forall a b, count "{" (a ++ b) = count "{" a + count "{" b).
    { induction a as [|x a IH]; intros b; [reflexivity|].
      cbn [append count]. rewrite IH. lia. }
    rewrite X in C. cbn [append count] in C.
    change (Ascii.eqb "{" "{") with true in C. cbv match in C. exfalso. lia. }
  assert (Hb' : closes_at_end (0 + 1) inner = true).
  { unfold balanced_object in Hb. cbn [closes_at_end] in Hb.
    destruct inner as [|c inner']; [discriminate Hb|].
    apply andb_prop in Hb as [_ Hb]. exact Hb. }
  rewrite N. rewrite scan_skip by assumption.
  cbn [append scan]. change (Ascii.eqb "{" "{") with true. cbv match.
  rewrite (scan_inside (pre ++ String "{" (inner ++ tail)) inner tail _ _ _ Hb').
  replace (S (0 + String.length pre) + String.length inner -
           (0 + String.length pre))
    with (String.length (String "{" inner)) by (cbn [String.length]; lia).
  change (String "{" (inner ++ tail)) with (String "{" inner ++ tail).
  change (0 + String.length pre) with (String.length pre).
  rewrite drop_app, take_app_length, Hp.
  f_equal.
  replace (S (String.length pre) + String.length inner)
    with (String.length pre + String.length (String "{" inner))
    by (cbn [String.length]; lia).
  now rewrite drop_add, drop_app, drop_app.
Qed.

Lemma scan_sound (buffer rest : string) :
  forall (i : nat) (brace_count : Z) (start_pos : option nat),
  match start_pos with Some p => p < i | None => True end ->
  scan json_loads buffer rest i brace_count start_pos = (PNone, buffer) \/
  exists start stop parsed,
    start < stop /\
    json_loads (take (stop - start) (drop start buffer)) = Some parsed /\
    scan json_loads buffer rest i brace_count start_pos =
      (parsed, drop stop buffer).
Proof.
  induction rest as [|c rest IH]; intros i brace_count start_pos Hs;
    [now left|].
  cbn [scan]. destruct (Ascii.eqb c "{").
  { apply IH. destruct start_pos; lia. }
  assert (Hs' : match start_pos with Some p => p < S i | None => True end)
    by (destruct start_pos; lia).
  destruct (Ascii.eqb c "}"); [|now apply IH].
  destruct start_pos as [start|]; [|now apply IH].
  destruct (Z.eqb (brace_count - 1) 0); [|now apply IH].
  destruct (json_loads (take (S i - start) (drop start buffer)))
    as [parsed|] eqn:J; [|now apply IH].
  right. exists start, (S i), parsed. split; [lia|]. now split.
Qed.

(** X14.  What is decoded is a piece of the buffered text, and what stays in
    the buffer is the text after that piece; when nothing is decoded a
    buffer that is not blank is kept whole. *)
Theorem buffered_parse_sound (buffer : string) :
  (strip buffer = "" /\
   try_parse_buffered_chunk json_loads buffer = (PNone, "")) \/
  try_parse_buffered_chunk json_loads buffer = (PNone, buffer) \/
  exists start stop parsed,
    start < stop /\
    json_loads (take (stop - start) (drop start buffer)) = Some parsed /\
    try_parse_buffered_chunk json_loads buffer = (parsed, drop stop buffer).
Proof.
  unfold try_parse_buffered_chunk.
  destruct (String.eqb (strip buffer) "") eqn:E.
  - left. apply String.eqb_eq in E. now split.
  - right. exact (scan_sound buffer buffer 0 0%Z None I).
Qed.

(** *** Content blocks *)

Local Open Scope list_scope.

(** The indices of the tool blocks started, and of the blocks stopped,
    by a run of events. *)
Definition started (events : list event) : list nat :=
  flat_map (fun e => match e with
                     | content_block_start_tool_use i _ _ => [i]
                     | _ => []
                     end) events.

Definition stopped (events : list event) : list nat :=
  flat_map (fun e => match e with
                     | content_block_stop i => [i]
                     | _ => []
                     end) events.

Definition entry_indices (st : state) : list nat :=
  map (fun kv => index (snd kv)) (current_tool_calls st).

(** The tool-call table holds the blocks 1, 2, ... in order. *)
Definition numbered (st : state) : Prop :=
  entry_indices st = seq 1 (tool_block_counter st).

(** A step from [st] to [st'] that sends [events]: the events are of the
    kinds the loop sends, and the tool blocks it starts are the next
    ones. *)
Definition advances (st : state) (events : list event) (st' : state) : Prop :=
  forallb loop_event events = true /\
  tool_block_counter st <= tool_block_counter st' /\
  (numbered st ->
   numbered st' /\
   started events =
     seq (S (tool_block_counter st)) (tool_block_counter st' - tool_block_counter st)).

Lemma started_app (a b : list event) : started (a ++ b) = started a ++ started b.
Proof. apply flat_map_app. Qed.

Lemma stopped_app (a b : list event) : stopped (a ++ b) = stopped a ++ stopped b.
Proof. apply flat_map_app. Qed.

Lemma loop_event_not_stopped (events : list event) :
  forallb loop_event events = true -> stopped events = [].
Proof.
  induction events as [|e events IH]; [reflexivity|].
  cbn [forallb]. intros H. apply andb_prop in H as [He H].
  destruct e; try discriminate He; exact (IH H).
Qed.

Lemma advances_same (st st' : state) (events : list event) :
  tool_block_counter st' = tool_block_counter st ->
  current_tool_calls st' = current_tool_calls st ->
  forallb loop_event events = true ->
  started events = [] ->
  advances st events st'.
Proof.
  intros Hc Ht He Hs. unfold advances, numbered, entry_indices.
  rewrite Hc, Ht, Hs, Nat.sub_diag. repeat split; auto.
Qed.

Lemma advances_refl (st : state) : advances st [] st.
Proof. now apply advances_same. Qed.

Lemma advances_trans (a b c : state) (e1 e2 : list event) :
  advances a e1 b -> advances b e2 c -> advances a (e1 ++ e2) c.
Proof.
  intros [E1 [L1 N1]] [E2 [L2 N2]]. unfold advances.
  rewrite forallb_app, E1, E2. split; [reflexivity|]. split; [lia|].
  intros Na. destruct (N1 Na) as [Nb S1]. destruct (N2 Nb) as [Nc S2].
  split; [exact Nc|]. rewrite started_app, S1, S2.
  replace (tool_block_counter c - tool_block_counter a)
    with ((tool_block_counter b - tool_block_counter a) +
          (tool_block_counter c - tool_block_counter b)) by lia.
  rewrite seq_app. do 2 f_equal. lia.
Qed.

Lemma append_args_indices (key : option string) (a : string)
    (calls : list (option string * tool_entry)) :
  map (fun kv => index (snd kv)) (append_args key a calls) =
  map (fun kv => index (snd kv)) calls.
Proof.
  induction calls as [|[k e] calls IH]; [reflexivity|].
  cbn [append_args]. destruct (key_eqb key k); [reflexivity|].
  cbn [map]. now rewrite IH.
Qed.

Lemma tool_call_step_advances (st : state) (ev : list event) (tc : ToolCallDelta) :
  exists ev',
    snd (tool_call_step (st, ev) tc) = ev ++ ev' /\
    advances st ev' (fst (tool_call_step (st, ev) tc)).
Proof.
  unfold tool_call_step.
  destruct (function tc) as [f|];
    [|exists []; rewrite app_nil_r; split; [reflexivity|apply advances_refl]].
  destruct (name f) as [n|];
    [|exists []; rewrite app_nil_r; split; [reflexivity|apply advances_refl]].
  destruct (String.eqb n "");
    [exists []; rewrite app_nil_r; split; [reflexivity|apply advances_refl]|].
  assert (A : forall st1 ev1,
            advances st ev1 st1 ->
            exists ev',
              snd (match arguments f with
                   | None => (st1, ev ++ ev1)
                   | Some a =>
                       if String.eqb a "" then (st1, ev ++ ev1)
                       else
                         (set_tool_calls (tool_block_counter st1)
                            (append_args (id tc) a (current_tool_calls st1)) st1,
                          (ev ++ ev1) ++
                          [input_json_delta
                             match find_call (id tc)
                                     (append_args (id tc) a (current_tool_calls st1))
                             with
                             | Some e => index e
                             | None => 0
                             end a])
                   end) = ev ++ ev' /\
              advances st ev'
                (fst (match arguments f with
                      | None => (st1, ev ++ ev1)
                      | Some a =>
                          if String.eqb a "" then (st1, ev ++ ev1)
                          else
                            (set_tool_calls (tool_block_counter st1)
                               (append_args (id tc) a (current_tool_calls st1)) st1,
                             (ev ++ ev1) ++
                             [input_json_delta
                                match find_call (id tc)
                                        (append_args (id tc) a (current_tool_calls st1))
                                with
                                | Some e => index e
                                | None => 0
                                end a])
                      end))).
  { intros st1 ev1 H1. destruct (arguments f) as [a|]; [|now exists ev1].
    destruct (String.eqb a ""); [now exists ev1|].
    eexists (ev1 ++ [_]). cbn [snd fst]. split; [now rewrite app_assoc|].
    apply (advances_trans st st1); [exact H1|].
    unfold advances, numbered, entry_indices.
    cbn [set_tool_calls tool_block_counter current_tool_calls].
    rewrite append_args_indices, Nat.sub_diag. repeat split; auto. }
  destruct (find_call (id tc) (current_tool_calls st)).
  - destruct (A st [] (advances_refl st)) as [ev' [E H]].
    rewrite app_nil_r in E, H. exists ev'. now split.
  - set (entry := {| index := text_block_index + S (tool_block_counter st);
                     entry_name := n;
                     args_buffer := match arguments f with
                                    | Some a => a
                                    | None => ""
                                    end |}).
    apply (A (set_tool_calls (S (tool_block_counter st))
                (current_tool_calls st ++ [(id tc, entry)]) st)
             [content_block_start_tool_use
                (text_block_index + S (tool_block_counter st)) (id tc) n]).
    unfold advances, numbered, entry_indices.
    cbn [set_tool_calls tool_block_counter current_tool_calls].
    split; [reflexivity|]. split; [lia|]. intros N.
    rewrite map_app, N. cbn [map snd index entry text_block_index Nat.add started flat_map app].
    split.
    + now rewrite seq_S.
    + replace (S (tool_block_counter st) - tool_block_counter st) with 1 by lia.
      reflexivity.
Qed.

Lemma tool_calls_fold_advances (l : list ToolCallDelta) :
  forall st ev,
  exists ev',
    snd (fold_left tool_call_step l (st, ev)) = ev ++ ev' /\
    advances st ev' (fst (fold_left tool_call_step l (st, ev))).
Proof.
  induction l as [|tc l IH]; intros st ev.
  - exists []. rewrite app_nil_r. split; [reflexivity|apply advances_refl].
  - cbn [fold_left].
    destruct (tool_call_step_advances st ev tc) as [ev1 [E1 H1]].
    destruct (tool_call_step (st, ev) tc) as [st1 evs]. cbn [snd fst] in E1, H1.
    subst evs. destruct (IH st1 (ev ++ ev1)) as [ev2 [E2 H2]].
    exists (ev1 ++ ev2). rewrite E2, app_assoc. split; [reflexivity|].
    exact (advances_trans _ _ _ _ _ H1 H2).
Qed.

Lemma stops_blocks (l : list (option string * tool_entry)) :
  started (content_block_stop text_block_index ::
           map (fun kv => content_block_stop (index (snd kv))) l) = [] /\
  stopped (content_block_stop text_block_index ::
           map (fun kv => content_block_stop (index (snd kv))) l) =
    0 :: map (fun kv => index (snd kv)) l.
Proof.
  change (started (content_block_stop text_block_index :: ?t)) with (started t).
  change (stopped (content_block_stop text_block_index :: ?t))
    with (0 :: stopped t).
  induction l as [|kv l [I1 I2]]; [now split|]. cbn [map].
  change (started (content_block_stop (index (snd kv)) :: ?t)) with (started t).
  change (stopped (content_block_stop (index (snd kv)) :: ?t))
    with (index (snd kv) :: stopped t).
  split; [exact I1|]. injection I2 as I2. now rewrite I2.
Qed.

Lemma read_usage_tools (st st' : state) (c : chunk) :
  read_usage st c = Ok st' ->
  tool_block_counter st' = tool_block_counter st /\
  current_tool_calls st' = current_tool_calls st.
Proof.
  assert (K : forall a b : state, Ok a = Ok b ->
            tool_block_counter a = tool_block_counter st /\
            current_tool_calls a = current_tool_calls st ->
            tool_block_counter b = tool_block_counter st /\
            current_tool_calls b = current_tool_calls st).
  { intros a b E. apply Conversion.Ok_inj in E. now subst b. }
  destruct c as [v|o]; cbn [read_usage].
  - destruct v; try (intros H; apply (K _ _ H); now split).
    destruct (has_key "usage" d); [|intros H; apply (K _ _ H); now split].
    destruct (py_get (get "usage" PNone d) "prompt_tokens" (PInt 0));
      [|discriminate]. cbn [bind].
    destruct (py_get (get "usage" PNone d) "completion_tokens" (PInt 0));
      [|discriminate]. cbn [bind].
    intros H; apply (K _ _ H); now split.
  - destruct (usage o); intros H; apply (K _ _ H); now split.
Qed.

Lemma read_usage_advances (st st' : state) (c : chunk) :
  read_usage st c = Ok st' -> advances st [] st'.
Proof.
  intros H. destruct (read_usage_tools st st' c H). now apply advances_same.
Qed.

Lemma text_delta_step_advances (st st' : state) (text : pyval) (ev : list event) :
  text_delta_step st text = Ok (st', ev) -> advances st ev st'.
Proof.
  unfold text_delta_step. destruct (truthy text).
  - destruct text; try discriminate. intros H. apply Conversion.Ok_inj in H.
    inversion H; subst. now apply advances_same.
  - intros H. apply Conversion.Ok_inj in H. inversion H; subst.
    apply advances_refl.
Qed.

Lemma tool_calls_step_advances (st st' : state) (calls : tool_deltas)
    (ev : list event) :
  tool_calls_step st calls = Ok (st', ev) -> advances st ev st'.
Proof.
  destruct calls as [|v|l]; cbn [tool_calls_step].
  - intros H. apply Conversion.Ok_inj in H. inversion H; subst.
    apply advances_refl.
  - destruct (truthy v); [destruct v; try discriminate|];
      intros H; apply Conversion.Ok_inj in H; inversion H; subst;
      apply advances_refl.
  - intros H. apply Conversion.Ok_inj in H.
    destruct (tool_calls_fold_advances l st []) as [ev' [E A]].
    rewrite H in E, A. cbn [snd fst app] in E, A. now subst ev'.
Qed.

Lemma finish_step_advances (st : state) (finish : pyval) :
  advances st [] (fst (finish_step st finish)).
Proof.
  unfold finish_step. destruct (truthy finish); now apply advances_same.
Qed.

Lemma process_structured_advances (st : state) (c : chunk) :
  advances st (snd (fst (process_structured st c)))
    (fst (fst (process_structured st c))).
Proof.
  unfold process_structured.
  destruct (extract_deltas c) as [[[text calls] finish]|e];
    [|apply advances_refl].
  destruct (read_usage st c) as [st1|e] eqn:U; [|apply advances_refl].
  apply read_usage_advances in U.
  destruct (text_delta_step st1 text) as [[st2 ev1]|e] eqn:T;
    [|exact U].
  apply text_delta_step_advances in T.
  pose proof (advances_trans _ _ _ _ _ U T) as UT. cbn [app] in UT.
  destruct (tool_calls_step st2 calls) as [[st3 ev2]|e] eqn:C; [|exact UT].
  apply tool_calls_step_advances in C.
  pose proof (advances_trans _ _ _ _ _ UT C) as UTC.
  pose proof (finish_step_advances st3 finish) as F.
  destruct (finish_step st3 finish) as [st4 s]. cbn [fst snd] in *.
  pose proof (advances_trans _ _ _ _ _ UTC F) as R.
  now rewrite app_nil_r in R.
Qed.

Lemma count_error_advances (st : state) : advances st [] (fst (count_error st)).
Proof.
  unfold count_error.
  destruct (Nat.leb _ _); now apply advances_same.
Qed.

Lemma on_exception_advances (st : state) (e : exn) :
  advances st (snd (fst (on_exception st e))) (fst (fst (on_exception st e))).
Proof.
  unfold on_exception.
  destruct (isinstance_exn "JSONDecodeError" e || isinstance_exn "ValueError" e).
  { pose proof (count_error_advances st) as C.
    destruct (count_error st); exact C. }
  destruct (isinstance_exn "APIConnectionError" e || isinstance_exn "RuntimeError" e).
  { destruct (_ && _); [destruct (Nat.leb _ _)|];
      now apply advances_same. }
  destruct (isinstance_exn "Exception" e); [|apply advances_refl].
  destruct (rate_limit_signature e); [now apply advances_same|].
  pose proof (count_error_advances st) as C.
  destruct (count_error st); exact C.
Qed.

Lemma settle_advances (st st1 : state) (ev : list event) (r : res status)
    (seen : option chunk) :
  advances st ev st1 ->
  advances st (turn_events (settle (st1, ev, r, seen)))
    (turn_state (settle (st1, ev, r, seen))).
Proof.
  intros A. unfold settle. destruct r as [s|e]; [exact A|].
  pose proof (on_exception_advances st1 e) as B.
  destruct (on_exception st1 e) as [[st2 ev2] s].
  exact (advances_trans _ _ _ _ _ A B).
Qed.

Lemma process_parsed_advances (st0 st : state) (c : chunk) :
  advances st0 [] st ->
  advances st0 (turn_events (settle (process_parsed json_loads st c)))
    (turn_state (settle (process_parsed json_loads st c))).
Proof.
  intros A0.
  assert (P : forall c', advances st0
                (turn_events (settle (process_structured st c', Some c')))
                (turn_state (settle (process_structured st c', Some c')))).
  { intros c'. pose proof (process_structured_advances st c') as B.
    destruct (process_structured st c') as [[st1 ev] r].
    apply settle_advances. exact (advances_trans _ _ _ _ _ A0 B). }
  unfold process_parsed.
  destruct c as [v|o]; [|apply P].
  destruct v; try exact A0; try apply P.
  destruct (json_loads s); [apply P|exact A0].
Qed.

Lemma iteration_advances (st : state) (f : fetch) :
  advances st (turn_events (iteration json_loads st f))
    (turn_state (iteration json_loads st f)).
Proof.
  destruct f as [c|e]; cbn [iteration].
  - unfold process_chunk.
    set (st0 := set_all_chunks (all_chunks st ++ [c]) (set_consecutive_errors 0 st)).
    assert (A0 : advances st [] st0) by now apply advances_same.
    destruct c as [v|o]; [|now apply process_parsed_advances].
    destruct v; try now apply process_parsed_advances.
    destruct (String.eqb (strip s) "[DONE]"); [exact A0|].
    destruct (is_malformed_chunk s).
    { destruct (Nat.ltb _ _); now apply advances_same. }
    destruct (try_parse_buffered_chunk json_loads (chunk_buffer st0 ++ s))
      as [parsed buffer].
    assert (A1 : advances st [] (set_chunk_buffer buffer st0))
      by now apply advances_same.
    destruct parsed; try now apply process_parsed_advances.
    destruct (10000 <? _)%Z; now apply advances_same.
  - destruct (isinstance_exn "StopAsyncIteration" e); [apply advances_refl|].
    destruct (isinstance_exn "TimeoutError" e); [now apply advances_same|].
    pose proof (on_exception_advances st e) as B.
    destruct (on_exception st e) as [[st2 ev2] s]. exact B.
Qed.

Lemma stream_loop_advances (stream : list fetch) :
  forall st, advances st (sent (stream_loop json_loads st stream))
               (final (stream_loop json_loads st stream)).
Proof.
  induction stream as [|f stream IH]; intros st; [apply advances_refl|].
  cbn [stream_loop]. pose proof (iteration_advances st f) as A.
  destruct (iteration json_loads st f) as [[[st1 ev] s] seen].
  unfold turn_events, turn_state in A. cbn [fst snd] in A.
  destruct s; cbn [final sent]; try exact A.
  exact (advances_trans _ _ _ _ _ A (IH st1)).
Qed.

(** X15.  Tool blocks are numbered 1, 2, ... in the order in which they
    start.  When no exception leaves the loop, the text block and every
    tool block started are stopped, once each and in that order; when
    one does, no block is stopped. *)
Theorem tool_blocks_numbered (stream : list fetch) (model : string) (n : Z) :
  let events := fst (handle_streaming_with_recovery json_loads
                       stream_chunk_builder stream model n) in
  let r := stream_loop json_loads initial stream in
  started events = seq 1 (tool_block_counter (final r)) /\
  stopped events = match propagated r with
                   | None => 0 :: started events
                   | Some _ => []
                   end.
Proof.
  intros events r. subst events. unfold handle_streaming_with_recovery.
  fold r. destruct (stream_loop_advances stream initial) as [E [_ N]].
  fold r in E, N. destruct (N eq_refl) as [Nf S]. clear N.
  cbn [tool_block_counter initial] in S. rewrite Nat.sub_0_r in S.
  pose proof (loop_event_not_stopped _ E) as P.
  destruct (propagated r).
  - cbn [fst]. rewrite started_app, stopped_app, S, P. now split.
  - assert (F : started (fst (finalize stream_chunk_builder (final r))) = [] /\
                stopped (fst (finalize stream_chunk_builder (final r))) =
                  0 :: seq 1 (tool_block_counter (final r))).
    { unfold finalize. rewrite <- Nf.
      destruct (stops_blocks (current_tool_calls (final r))) as [X1 X2].
      fold (entry_indices (final r)) in X2.
      destruct (stream_chunk_builder (all_chunks (final r))) as [e| |k];
        [destruct (isinstance_exn "Exception" e)| |]; cbn [fst].
      - now split.
      - now split.
      - rewrite started_app, stopped_app, X1, X2.
        cbn [started stopped flat_map app]. rewrite app_nil_r. now split.
      - rewrite started_app, stopped_app, X1, X2.
        cbn [started stopped flat_map app]. rewrite app_nil_r. now split. }
    destruct (finalize stream_chunk_builder (final r)) as [closing p].
    cbn [fst] in *. destruct F as [F1 F2].
    rewrite !started_app, !stopped_app, S, P, F1, F2, app_nil_r. now split.
Qed.

(** *** Message events *)

Definition message_level (e : event) : bool :=
  match e with
  | message_start _ _ | message_delta _ _ _ | message_stop => true
  | _ => false
  end.

Lemma loop_event_not_message (events : list event) :
  forallb loop_event events = true -> filter message_level events = [].
Proof.
  induction events as [|e events IH]; [reflexivity|].
  cbn [forallb]. intros H. apply andb_prop in H as [He H].
  destruct e; try discriminate He; exact (IH H).
Qed.

Lemma stops_not_message (l : list (option string * tool_entry)) :
  filter message_level
    (content_block_stop text_block_index ::
     map (fun kv => content_block_stop (index (snd kv))) l) = [].
Proof. cbn [filter message_level]. induction l as [|kv l IH]; [reflexivity|exact IH]. Qed.

(** X16.  The message-level events are [message_start], then, when the
    generator runs to its end, one [message_delta] and one
    [message_stop].  When an exception leaves the loop, or the final
    usage computation raises, [message_start] is the only one: the
    stream ends without [message_stop]. *)
Theorem message_events_framed (stream : list fetch) (model : string) (n : Z) :
  let events := fst (handle_streaming_with_recovery json_loads
                       stream_chunk_builder stream model n) in
  let r := stream_loop json_loads initial stream in
  exists closing,
    filter message_level events = message_start model n :: closing /\
    match propagated r with
    | Some _ => closing = []
    | None =>
        match stream_chunk_builder (all_chunks (final r)) with
        | BuilderRaises _ => closing = []
        | _ => exists reason i o, closing = [message_delta reason i o; message_stop]
        end
    end.
Proof.
  intros events r. subst events. unfold handle_streaming_with_recovery.
  fold r. destruct (stream_loop_advances stream initial) as [E _].
  fold r in E. apply loop_event_not_message in E.
  assert (O : forall tail,
            filter message_level
              ([message_start model n; content_block_start_text text_block_index;
                ping] ++ sent r ++ tail) =
            message_start model n :: filter message_level tail).
  { intros tail. cbn [app filter message_level]. now rewrite filter_app, E. }
  destruct (propagated r).
  - exists []. cbn [fst]. rewrite <- (app_nil_r (sent r)), O. now split.
  - pose proof (stops_not_message (current_tool_calls (final r))) as X.
    unfold finalize.
    destruct (stream_chunk_builder (all_chunks (final r))) as [e| |k];
      [destruct (isinstance_exn "Exception" e)| |]; cbn [fst]; rewrite O.
    + exists []. now rewrite X.
    + exists []. now rewrite X.
    + rewrite filter_app, X. cbn [app filter message_level].
      eexists. split; [reflexivity|]. now eexists _, _, _.
    + rewrite filter_app, X. cbn [app filter message_level].
      eexists. split; [reflexivity|]. now eexists _, _, _.
Qed.

(** *** Failures of the fetch *)

Lemma set_consecutive_errors_same (st : state) :
  set_consecutive_errors (consecutive_errors st) st = st.
Proof. now destruct st. Qed.

Lemma continued (st1 : state) (stream : list fetch) :
  {| final := final (stream_loop json_loads st1 stream);
     sent := [] ++ sent (stream_loop json_loads st1 stream);
     propagated := propagated (stream_loop json_loads st1 stream);
     extracted := seen_list None ++ extracted (stream_loop json_loads st1 stream) |}
  = stream_loop json_loads st1 stream.
Proof. now destruct (stream_loop json_loads st1 stream). Qed.

(** An exception of the fetch that the loop counts and passes over. *)
Definition counted (e : exn) : bool :=
  negb (isinstance_exn "StopAsyncIteration" e) &&
  negb (isinstance_exn "TimeoutError" e) &&
  (isinstance_exn "JSONDecodeError" e || isinstance_exn "ValueError" e ||
   (negb (isinstance_exn "APIConnectionError" e || isinstance_exn "RuntimeError" e)
    && isinstance_exn "Exception" e && negb (rate_limit_signature e))).

Lemma counted_step (st : state) (e : exn) :
  counted e = true ->
  iteration json_loads st (Failed e) =
  let st1 := set_consecutive_errors (S (consecutive_errors st)) st in
  if (max_consecutive_errors <=? S (consecutive_errors st))%nat
  then (set_stream_terminated_early true st1, [], Break, None)
  else (st1, [], Continue, None).
Proof.
  unfold counted. intros H. apply andb_prop in H as [H C].
  apply andb_prop in H as [S T]. apply negb_true_iff in S, T.
  cbn [iteration]. rewrite S, T. unfold on_exception, count_error.
  cbn [consecutive_errors set_consecutive_errors].
  destruct (isinstance_exn "JSONDecodeError" e || isinstance_exn "ValueError" e).
  { cbv zeta. now destruct (Nat.leb _ _). }
  cbn [orb] in C. apply andb_prop in C as [C R]. apply andb_prop in C as [A X].
  apply negb_true_iff in A, R. rewrite A, X, R.
  cbv zeta. now destruct (Nat.leb _ _).
Qed.

(** X17.  Failures of the fetch are counted: fewer than ten in a row are
    passed over, the tenth in a row ends the stream early, and a chunk
    that is fetched starts the count again. *)
Theorem consecutive_fetch_errors (errors : list exn) (rest : list fetch) :
  Forall (fun e => counted e = true) errors ->
  forall st,
  (consecutive_errors st + List.length errors < max_consecutive_errors ->
   stream_loop json_loads st (map Failed errors ++ rest) =
   stream_loop json_loads
     (set_consecutive_errors (consecutive_errors st + List.length errors) st) rest) /\
  (errors <> [] ->
   consecutive_errors st + List.length errors = max_consecutive_errors ->
   stream_loop json_loads st (map Failed errors ++ rest) =
   {| final := set_stream_terminated_early true
                 (set_consecutive_errors max_consecutive_errors st);
      sent := []; propagated := None; extracted := [] |}) /\
  (forall c k, iteration json_loads (set_consecutive_errors k st) (Got c) =
               iteration json_loads st (Got c)).
Proof.
  unfold max_consecutive_errors.
  induction 1 as [|e errors He Hes IH]; intros st.
  - split; [|split; [intros N; now elim N|reflexivity]].
    intros _. cbn [map app List.length]. rewrite Nat.add_0_r.
    now rewrite set_consecutive_errors_same.
  - split; [|split; [|reflexivity]].
    + cbn [List.length map app]. intros L. cbn [stream_loop].
      rewrite (counted_step st e He). cbv zeta. unfold max_consecutive_errors.
      destruct (Nat.leb_spec 10 (S (consecutive_errors st))) as [G|G]; [lia|].
      rewrite continued.
      destruct (IH (set_consecutive_errors (S (consecutive_errors st)) st))
        as [IH1 _].
      cbn [consecutive_errors set_consecutive_errors] in IH1.
      rewrite IH1 by lia.
      replace (S (consecutive_errors st) + List.length errors)
        with (consecutive_errors st + S (List.length errors)) by lia.
      reflexivity.
    + cbn [List.length map app]. intros _ L. cbn [stream_loop].
      rewrite (counted_step st e He). cbv zeta. unfold max_consecutive_errors.
      destruct errors as [|e' errors'].
      * cbn [List.length] in L.
        destruct (Nat.leb_spec 10 (S (consecutive_errors st))) as [G|G]; [|lia].
        replace (S (consecutive_errors st)) with 10 by lia. reflexivity.
      * cbn [List.length] in L.
        destruct (Nat.leb_spec 10 (S (consecutive_errors st))) as [G|G]; [lia|].
        rewrite continued.
        destruct (IH (set_consecutive_errors (S (consecutive_errors st)) st))
          as [_ [IH2 _]].
        cbn [consecutive_errors set_consecutive_errors List.length] in IH2.
        rewrite IH2; [reflexivity|discriminate|lia].
Qed.

(** The stop reason of the final [message_delta]. *)
Lemma finalize_stop_reason (st : state) (reason : Response.StopReason)
    (i o : pyval) :
  In (message_delta reason i o) (fst (finalize stream_chunk_builder st)) ->
  reason = match final_stop_reason st with
           | Response.end_turn =>
               if stream_terminated_early st then Response.error
               else Response.end_turn
           | other => other
           end.
Proof.
  unfold finalize.
  assert (X : forall l : list (option string * tool_entry),
            ~ In (message_delta reason i o)
                (content_block_stop text_block_index ::
                 map (fun kv => content_block_stop (index (snd kv))) l)).
  { intros l [H|H]; [discriminate H|].
    apply in_map_iff in H as [kv [H _]]. discriminate H. }
  destruct (stream_chunk_builder (all_chunks st)) as [e| |k];
    [destruct (isinstance_exn "Exception" e)| |]; cbn [fst]; intros H;
    try (now apply X in H);
    apply in_app_or in H as [H|H]; try (now apply X in H);
    destruct H as [H|[H|[]]]; try discriminate H; now inversion H.
Qed.

(** A failure of the fetch that ends the stream: a timeout, a connection
    or runtime error other than the known malformed-chunk error, and any
    other exception with the signature of a rate limit. *)
Definition fatal (e : exn) : bool :=
  negb (isinstance_exn "StopAsyncIteration" e) &&
  (isinstance_exn "TimeoutError" e ||
   negb (isinstance_exn "JSONDecodeError" e || isinstance_exn "ValueError" e) &&
   (if isinstance_exn "APIConnectionError" e || isinstance_exn "RuntimeError" e
    then negb (contains "Error parsing chunk" (exn_msg e) &&
               contains "Expecting property name enclosed in double quotes"
                 (exn_msg e))
    else isinstance_exn "Exception" e && rate_limit_signature e)).

(** X18.  Such a failure never leaves the generator and sends nothing by
    itself: the stream is ended early, nothing after it is read, and
    when no finish reason other than [end_turn] has been seen the final
    [message_delta] carries the stop reason [error]. *)
Theorem fatal_fetch_failure (st : state) (e : exn) (rest : list fetch) :
  fatal e = true ->
  let r := stream_loop json_loads st (Failed e :: rest) in
  sent r = [] /\ propagated r = None /\ extracted r = [] /\
  stream_terminated_early (final r) = true /\
  all_chunks (final r) = all_chunks st /\
  final_stop_reason (final r) = final_stop_reason st /\
  (final_stop_reason st = Response.end_turn ->
   forall reason i o,
     In (message_delta reason i o) (fst (finalize stream_chunk_builder (final r))) ->
     reason = Response.error).
Proof.
  intros F r.
  assert (K : exists st1,
            iteration json_loads st (Failed e) =
              (set_stream_terminated_early true st1, [], Break, None) /\
            all_chunks st1 = all_chunks st /\
            final_stop_reason st1 = final_stop_reason st).
  { unfold fatal in F. apply andb_prop in F as [Hs F].
    apply negb_true_iff in Hs. cbn [iteration]. rewrite Hs.
    destruct (isinstance_exn "TimeoutError" e); [now exists st|].
    cbn [orb] in F. apply andb_prop in F as [J F]. apply negb_true_iff in J.
    unfold on_exception. rewrite J.
    destruct (isinstance_exn "APIConnectionError" e || isinstance_exn "RuntimeError" e).
    - apply negb_true_iff in F. rewrite F.
      now exists (set_consecutive_errors (S (consecutive_errors st)) st).
    - apply andb_prop in F as [X R]. rewrite X, R. now exists st. }
  destruct K as [st1 [K [Ka Kf]]].
  subst r. cbn [stream_loop]. rewrite K. cbn [sent propagated extracted final seen_list].
  repeat split; try assumption.
  intros Et reason i o H. apply finalize_stop_reason in H.
  cbn [final_stop_reason set_stream_terminated_early stream_terminated_early] in H.
  rewrite Kf, Et in H. exact H.
Qed.

End Handler.

Lemma stream_ends_at_marker_witness :
  stream_loop Json.loads initial [fragment " [DONE] "; Got (text_chunk "late" None)] =
  {| final := set_all_chunks [Value (PStr " [DONE] ")] initial;
     sent := []; propagated := None; extracted := [] |}.
Proof.
  exact (proj1 (stream_ends_at_marker Json.loads initial
                  [Got (text_chunk "late" None)]) " [DONE] " eq_refl).
Defined.

Lemma buffered_object_found_witness :
  try_parse_buffered_chunk Json.loads
    ("data: " ++ chunk_text "Hi" ++ Json.dq "{'cho") =
  (PDict (decoded_chunk "Hi"), Json.dq "{'cho").
Proof.
  exact (buffered_object_found Json.loads "data: " (chunk_text "Hi")
           (Json.dq "{'cho") (PDict (decoded_chunk "Hi"))
           eq_refl eq_refl eq_refl eq_refl).
Defined.

(** A closing brace before the object is counted, and the object after
    it is never decoded. *)
Example stray_closing_brace :
  try_parse_buffered_chunk Json.loads ("} " ++ chunk_text "Hi") =
  (PNone, "} " ++ chunk_text "Hi").
Proof. vm_compute. reflexivity. Qed.

(** An iterator that fails three times in a row and then gives a chunk,
    and one that fails ten times in a row. *)
Definition failures (n : nat) : list fetch :=
  map Failed (repeat (KeyError "boom") n).

Lemma consecutive_fetch_errors_witness :
  stream_loop Json.loads initial (failures 3 ++ [Got (text_chunk "Hi" None)]) =
    stream_loop Json.loads (set_consecutive_errors 3 initial)
      [Got (text_chunk "Hi" None)] /\
  sent (stream_loop Json.loads initial
          (failures 3 ++ [Got (text_chunk "Hi" None)])) = [text_delta 0 "Hi"] /\
  stream_loop Json.loads initial (failures 10 ++ [Got (text_chunk "late" None)]) =
    {| final := set_stream_terminated_early true
                  (set_consecutive_errors 10 initial);
       sent := []; propagated := None; extracted := [] |} /\
  iteration Json.loads (set_consecutive_errors 9 initial)
    (Got (text_chunk "Hi" None)) =
  iteration Json.loads initial (Got (text_chunk "Hi" None)).
Proof.
  assert (C : forall n, Forall (fun e => counted e = true)
                          (repeat (KeyError "boom") n)).
  { intros n. apply Forall_forall. intros e H.
    apply repeat_spec in H. now subst e. }
  pose proof (consecutive_fetch_errors Json.loads (repeat (KeyError "boom") 3)
                [Got (text_chunk "Hi" None)] (C 3) initial) as [H3 [_ R3]].
  pose proof (consecutive_fetch_errors Json.loads (repeat (KeyError "boom") 10)
                [Got (text_chunk "late" None)] (C 10) initial) as [_ [H10 _]].
  split; [|split; [|split]].
  - apply H3. unfold max_consecutive_errors. simpl. lia.
  - unfold failures. rewrite H3 by (unfold max_consecutive_errors; simpl; lia).
    reflexivity.
  - apply H10; [discriminate|reflexivity].
  - apply R3.
Defined.

Definition resource_exhausted : exn :=
  Exn ["RateLimitError"; "Exception"; "BaseException"]
      "429 RESOURCE_EXHAUSTED: quota exceeded".

Lemma fatal_fetch_failure_witness :
  fst (handle_streaming_with_recovery Json.loads no_usage
         [Got (text_chunk "Hi" None); Failed resource_exhausted;
          Got (text_chunk "late" None)] "gemini-pro" 7) =
  [message_start "gemini-pro" 7;
   content_block_start_text 0;
   ping;
   text_delta 0 "Hi";
   content_block_stop 0;
   message_delta Response.error (PInt 0) (PInt 0);
   message_stop] /\
  propagated (stream_loop Json.loads initial
                [Failed resource_exhausted; Got (text_chunk "late" None)]) = None.
Proof.
  split; [reflexivity|].
  exact (proj1 (proj2 (fatal_fetch_failure Json.loads no_usage initial
                         resource_exhausted [Got (text_chunk "late" None)]
                         eq_refl))).
Defined.

End StreamFacts.
